(** * Resilient network client core: retrying requests and the reconnecting
      WebSocket client

    Shallow embedding of
      - the API client: the request path (RETRY_CONFIG, isRetryableError,
        fetchWithRetry, handleResponse), the stored session (getToken,
        saveUserData, clearUserData, getAuthHeaders, refreshToken, login,
        logout, getDebates, getErrorMessage) and the client cache
        (connectWebSocket, disconnectWebSocket, disconnectAllWebSockets), and
      - frontend/js/websocket-client.js (class WebSocketClient and the
        exported createWebSocketClient and connectWebSocket),
    followed by the properties of the retry and reconnect logic and of the
    session.

    Conventions.  JavaScript numbers that the code only uses as counters,
    status codes and millisecond delays are integers ([Z], or [nat] for a
    counter that starts at 0 and is only incremented).  The platform objects
    the code is written against (fetch and its Response, WebSocket, timers,
    localStorage, console) are modelled by what the code can observe of them.
    Event handlers supplied by the caller are opaque callbacks: the model
    records each invocation and assumes they return normally and do not call
    back into the client. *)

From Stdlib Require Import ZArith String Lia Bool.
From stdpp Require Import base option list strings gmap pretty.

Set Warnings "-register-all".

Open Scope string_scope.
Open Scope list_scope.
Open Scope Z_scope.

(** ** JavaScript values that cross the wire *)

(** The result of [JSON.parse]: objects keep their own properties in order
    (keys are unique after parsing). Numbers are integers; only their being
    zero or not matters to the code. *)
Inductive Json : Type :=
  | JNull
  | JBool (b : bool)
  | JNum (n : Z)
  | JStr (s : string)
  | JArr (items : list Json)
  | JObj (fields : list (string * Json)).

(** A JavaScript value that may be [undefined]. *)
Abbreviation JsVal := (option Json).
Abbreviation undefined := (@None Json).

(** [Boolean(v)]. *)
Definition truthy (v : Json) : bool :=
  match v with
  | JNull => false
  | JBool b => b
  | JNum n => negb (n =? 0)
  | JStr s => negb (String.eqb s "")
  | JArr _ | JObj _ => true
  end.

Definition truthy_val (v : JsVal) : bool :=
  match v with
  | None => false
  | Some j => truthy j
  end.

(** [a || b]. *)
Definition js_or (a b : JsVal) : JsVal := if truthy_val a then a else b.

Fixpoint assoc (k : string) (fields : list (string * Json)) : JsVal :=
  match fields with
  | [] => None
  | (k', v) :: rest => if String.eqb k k' then Some v else assoc k rest
  end.

(** Property read [v.k] for a key that no prototype defines. Reading a
    property of [null] throws a TypeError: the outer [None]. *)
Definition get_prop (k : string) (v : Json) : option JsVal :=
  match v with
  | JNull => None
  | JObj fields => Some (assoc k fields)
  | _ => Some undefined
  end.

(** [String(v)], as the [Error] constructor applies it to its message. *)
Fixpoint js_toString (v : Json) : string :=
  match v with
  | JNull => "null"
  | JBool true => "true"
  | JBool false => "false"
  | JNum n => pretty n
  | JStr s => s
  | JArr items =>
      (fix join (l : list Json) : string :=
         match l with
         | [] => ""
         | [x] => match x with JNull => "" | _ => js_toString x end
         | x :: rest =>
             (match x with JNull => "" | _ => js_toString x end) +:+ "," +:+ join rest
         end) items
  | JObj _ => "[object Object]"
  end.

(** [s.includes(sub)]. *)
Definition includes (s sub : string) : bool :=
  match String.index 0 sub s with
  | Some _ => true
  | None => false
  end.

(** ** The request path (API client) *)

Module Retry.

(** [class APIError extends Error] and the other errors [fetch] rejects
    with; [name] and [message] are the fields the code reads. *)
Inductive JsError : Type :=
  | APIError (message : string) (status : Z) (data : Json)
  | OtherError (name : string) (message : string).

Definition err_name (e : JsError) : string :=
  match e with
  | APIError _ _ _ => "APIError"
  | OtherError n _ => n
  end.

Definition err_message (e : JsError) : string :=
  match e with
  | APIError m _ _ => m
  | OtherError _ m => m
  end.

(** The shape of RETRY_CONFIG. *)
Record RetryConfig : Type := {
  maxAttempts : Z;
  retryDelay : Z;
  backoffMultiplier : Z;
  retryableStatuses : list Z;
  nonRetryableStatuses : list Z;
  networkErrors : list string
}.

Definition RETRY_CONFIG : RetryConfig := {|
  maxAttempts := 3;
  retryDelay := 1000;
  backoffMultiplier := 2;
  retryableStatuses := [408; 429; 500; 502; 503; 504];
  nonRetryableStatuses := [400; 401; 403; 404];
  networkErrors := ["ECONNRESET"; "ETIMEDOUT"; "EAI_AGAIN"]
|}.

(** [arr.includes(x)] on a list of numbers. *)
Definition includesZ (l : list Z) (x : Z) : bool := existsb (Z.eqb x) l.

(** The functions read the module constant RETRY_CONFIG; they are written
    over a configuration [cfg] so that statements about every policy can be
    stated, and RETRY_CONFIG is the instance the module ships. *)
Definition isRetryableError (cfg : RetryConfig) (error : JsError) : bool :=
  match error with
  | APIError _ status _ =>
      if includesZ (nonRetryableStatuses cfg) status then false
      else if String.eqb (err_name error) "TypeError" && includes (err_message error) "fetch"
      then true
      else if existsb (fun code => includes (err_message error) code) (networkErrors cfg)
      then true
      else if includesZ (retryableStatuses cfg) status then true
      else false
  | OtherError _ _ =>
      if String.eqb (err_name error) "TypeError" && includes (err_message error) "fetch"
      then true
      else if existsb (fun code => includes (err_message error) code) (networkErrors cfg)
      then true
      else false
  end.

(** What the code reads of a fetch [Response]: the status, the content-type
    header ([None] when absent) and the results of [response.json()] and
    [response.text()] ([None] when the promise rejects). *)
Record Response : Type := {
  status : Z;
  contentType : option string;
  jsonBody : option Json;
  textBody : option string
}.

(** [response.ok]: the status is in the range 200-299. *)
Definition ok (r : Response) : bool := (200 <=? status r) && (status r <=? 299).

Inductive FetchOutcome : Type :=
  | Resolves (r : Response)
  | Rejects (e : JsError).

(** What a run of the request path does to the outside world. *)
Inductive NetEvent : Type :=
  | Fetched (url : string) (options : Json)
  | Warned (delayMs : Z) (nextAttempt : Z)
  | Slept (ms : Z).

(** The network as the caller sees it: [transport k url options] is the
    outcome of the call of [fetch] that comes after [k] earlier ones. *)
Record Net : Type := {
  transport : nat -> string -> Json -> FetchOutcome;
  trace : list NetEvent
}.

Definition is_fetch (e : NetEvent) : bool :=
  match e with Fetched _ _ => true | _ => false end.

Definition calls (net : Net) : nat := length (List.filter is_fetch (trace net)).

Definition sleeps (net : Net) : list Z :=
  omap (fun e => match e with Slept ms => Some ms | _ => None end) (trace net).

Definition emit (e : NetEvent) (net : Net) : Net :=
  {| transport := transport net; trace := trace net ++ [e] |}.

Definition fetch (url : string) (options : Json) (net : Net) : FetchOutcome * Net :=
  (transport net (calls net) url options, emit (Fetched url options) net).

(** [delay(ms)]: suspends the calling execution for [ms] milliseconds. *)
Definition delay (ms : Z) (net : Net) : Net := emit (Slept ms) net.

(** [Math.pow] on an integer base and a non-negative integer exponent. *)
Definition Math_pow (b e : Z) : Z := b ^ e.

Definition isJsonType (ct : option string) : bool :=
  match ct with
  | Some c => includes c "application/json"
  | None => false
  end.

(** The [APIError] built from a response that is not ok. Failures while
    reading the body are swallowed by the inner try/catch. *)
Definition errorOf (r : Response) : JsError :=
  let errorMessage := "HTTP " +:+ pretty (status r) in
  if isJsonType (contentType r) then
    match jsonBody r with
    | None => APIError errorMessage (status r) JNull
    | Some json =>
        match get_prop "message" json, get_prop "detail" json with
        | Some m, Some d =>
            match js_or m d with
            | Some v =>
                APIError (if truthy v then js_toString v else errorMessage) (status r) json
            | None => APIError errorMessage (status r) json
            end
        | _, _ => APIError errorMessage (status r) json
        end
    end
  else
    match textBody r with
    | Some text =>
        APIError (if String.eqb text "" then errorMessage else text) (status r) JNull
    | None => APIError errorMessage (status r) JNull
    end.

(** The [try] part of fetchWithRetry: one call of [fetch]; a response that
    is not ok is turned into an [APIError]. *)
Definition attemptOnce (url : string) (options : Json) (net : Net)
  : (JsError + Response) * Net :=
  let '(o, net1) := fetch url options net in
  match o with
  | Resolves r => if ok r then (inr r, net1) else (inl (errorOf r), net1)
  | Rejects e => (inl e, net1)
  end.

Inductive Outcome : Type :=
  | Returned (r : Response)
  | Thrown (e : JsError).

Definition delayMs_at (cfg : RetryConfig) (attempt : Z) : Z :=
  retryDelay cfg * Math_pow (backoffMultiplier cfg) (attempt - 1).

(** The recursion of fetchWithRetry, on the number of attempts that remain;
    it re-enters only while [attempt < maxAttempts], so the budget
    [maxAttempts - attempt] is never used up (see [fetchWithRetry_eq]). *)
Fixpoint retryLoop (cfg : RetryConfig) (url : string) (options : Json)
    (budget : nat) (attempt : Z) (net : Net) : Outcome * Net :=
  match attemptOnce url options net with
  | (inr response, net1) => (Returned response, net1)
  | (inl error, net1) =>
      if negb (isRetryableError cfg error) || (maxAttempts cfg <=? attempt)
      then (Thrown error, net1)
      else
        let delayMs := delayMs_at cfg attempt in
        match budget with
        | O => (Thrown error, net1)
        | S budget' =>
            retryLoop cfg url options budget' (attempt + 1)
              (delay delayMs (emit (Warned delayMs (attempt + 1)) net1))
        end
  end.

Definition fetchWithRetry (cfg : RetryConfig) (url : string) (options : Json)
    (attempt : Z) (net : Net) : Outcome * Net :=
  retryLoop cfg url options (Z.to_nat (maxAttempts cfg - attempt)) attempt net.

Inductive Body : Type :=
  | BodyJson (v : Json)
  | BodyText (s : string).

(** handleResponse; [None] when reading the body rejects. *)
Definition handleResponse (r : Response) : option Body :=
  if isJsonType (contentType r) then BodyJson <$> jsonBody r
  else BodyText <$> textBody r.

(** The common start of every apiClient method:
    [handleResponse(await fetchWithRetry(url, options))]. *)
Inductive Reply : Type :=
  | Parsed (b : Body)
  | Failed (e : JsError)
  | BodyUnreadable.

Definition request (cfg : RetryConfig) (url : string) (options : Json) (net : Net)
  : Reply * Net :=
  match fetchWithRetry cfg url options 1 net with
  | (Returned r, net1) =>
      (match handleResponse r with Some b => Parsed b | None => BodyUnreadable end, net1)
  | (Thrown e, net1) => (Failed e, net1)
  end.

(** A transport that answers the successive calls with the statuses of a
    list (bodies empty), and with the last status from then on. *)
Definition plain (st : Z) : Response :=
  {| status := st; contentType := None; jsonBody := None; textBody := Some "" |}.

Definition scripted (statuses : list Z) (last : Z) : Net :=
  {| transport := fun k _ _ => Resolves (plain (nth k statuses last)); trace := [] |}.


(** The retry step of the source: what fetchWithRetry does after a failed
    attempt it decides to retry. *)
Definition retry_state (cfg : RetryConfig) (attempt : Z) (net1 : Net) : Net :=
  delay (delayMs_at cfg attempt) (emit (Warned (delayMs_at cfg attempt) (attempt + 1)) net1).



(** A policy that lists 404 as retryable and as non-retryable, with ten
    attempts: one call of fetch. *)
Definition both_lists : RetryConfig :=
  {| maxAttempts := 10; retryDelay := 1000; backoffMultiplier := 2;
     retryableStatuses := [404; 503]; nonRetryableStatuses := [404];
     networkErrors := [] |}.

(** The policy of the scenario: RETRY_CONFIG with 503 as the only retryable
    status. *)
Definition only_503 : RetryConfig :=
  {| maxAttempts := 3; retryDelay := 1000; backoffMultiplier := 2;
     retryableStatuses := [503]; nonRetryableStatuses := [400; 401; 403; 404];
     networkErrors := ["ECONNRESET"; "ETIMEDOUT"; "EAI_AGAIN"] |}.

Definition answers_503_503_200 : Net :=
  {| transport := fun k _ _ =>
       match k with
       | 0%nat | 1%nat => Resolves (plain 503)
       | _ => Resolves {| status := 200; contentType := Some "application/json";
                          jsonBody := Some (JObj [("data", JStr "ok")]);
                          textBody := None |}
       end;
     trace := [] |}.

End Retry.

(** ** The WebSocket client (frontend/js/websocket-client.js) *)

Module WS.

(** WSMessageType *)
Definition WSMessageType_SPEECH : string := "speech".
Definition WSMessageType_STATUS : string := "status".
Definition WSMessageType_SCORE : string := "score".
Definition WSMessageType_NOTIFICATION : string := "notification".
Definition WSMessageType_ERROR : string := "error".
Definition WSMessageType_CONNECTED : string := "connected".

Record Config : Type := {
  enabled : bool;
  maxAttempts : Z;
  baseDelay : Z;
  maxDelay : Z;
  backoffMultiplier : Z;
  heartbeatInterval : Z
}.

Definition RECONNECT_CONFIG : Config := {|
  enabled := true;
  maxAttempts := 5;
  baseDelay := 1000;
  maxDelay := 30000;
  backoffMultiplier := 2;
  heartbeatInterval := 30000
|}.

(** The [config] argument of the constructor: the keys it carries. *)
Record ConfigArg : Type := {
  arg_enabled : option bool;
  arg_maxAttempts : option Z;
  arg_baseDelay : option Z;
  arg_maxDelay : option Z;
  arg_backoffMultiplier : option Z;
  arg_heartbeatInterval : option Z
}.

Definition no_config : ConfigArg :=
  {| arg_enabled := None; arg_maxAttempts := None; arg_baseDelay := None;
     arg_maxDelay := None; arg_backoffMultiplier := None;
     arg_heartbeatInterval := None |}.

(** [{ ...RECONNECT_CONFIG, ...config }] *)
Definition spread (base : Config) (arg : ConfigArg) : Config := {|
  enabled := default (enabled base) (arg_enabled arg);
  maxAttempts := default (maxAttempts base) (arg_maxAttempts arg);
  baseDelay := default (baseDelay base) (arg_baseDelay arg);
  maxDelay := default (maxDelay base) (arg_maxDelay arg);
  backoffMultiplier := default (backoffMultiplier base) (arg_backoffMultiplier arg);
  heartbeatInterval := default (heartbeatInterval base) (arg_heartbeatInterval arg)
|}.

(** *** The platform *)

(** The argument of [send]: a string, a value [JSON.stringify] accepts, or a
    value it throws on (a cyclic object, a BigInt). *)
Inductive Message : Type :=
  | MsgString (s : string)
  | MsgValue (v : Json)
  | MsgCyclic.

(** What goes on the wire: a string as it is, or the JSON text of a value. *)
Inductive Frame : Type :=
  | TextFrame (s : string)
  | JsonFrame (v : Json).

Inductive Exn : Type :=
  | MissingToken        (* Error: no authentication token found *)
  | InvalidStateError   (* WebSocket.send while CONNECTING *)
  | NotSerializable     (* TypeError of JSON.stringify *)
  | SyntaxError         (* JSON.parse *)
  | NullAccess.         (* TypeError: property read on null *)

Inductive ReadyState : Type := CONNECTING | OPEN | CLOSING | CLOSED.

(** protocol//host/ws/debates/debateId?token=encodeURIComponent(token) *)
Record Url : Type := {
  protocol : string;
  host : string;
  debate : string;
  tokenParam : Json
}.

(** A WebSocket object; [wired] once setupEventHandlers has set onopen,
    onmessage, onerror and onclose to the client's handlers. *)
Record Socket : Type := {
  url : Url;
  readyState : ReadyState;
  wired : bool;
  sent : list Frame
}.

(** A pending timer. The only [setTimeout] callback of the client calls
    [connect()]; the only [setInterval] callback is the heartbeat. *)
Inductive Timer : Type :=
  | Timeout (id : positive) (ms : Z)
  | Interval (id : positive) (ms : Z).

Definition timer_id (t : Timer) : positive :=
  match t with Timeout id _ | Interval id _ => id end.

(** The argument an event handler receives. *)
Inductive Payload : Type :=
  | NoData
  | Data (v : Json)
  | ErrorObject (e : Exn)
  | ErrorEvent
  | CloseEvent.

(** The console lines of the client, by level. *)
Inductive Console : Type :=
  | LogAlreadyConnected                      (* log: connected or connecting *)
  | LogConnecting (u : Url)                  (* log: connecting to url *)
  | ErrConnectFailed (e : Exn)               (* error: connection failed *)
  | LogOpened                                (* log: connection established *)
  | LogMessage (data : Json)                 (* log: message *)
  | WarnUnknownType (ty : Json)              (* warn: unknown message type *)
  | ErrParseFailed (e : Exn)                 (* error: failed to parse message *)
  | ErrSocket                                (* error: socket error *)
  | LogClosed                                (* log: connection closed *)
  | ErrConnection (e : Exn)                  (* error: connection error *)
  | LogGiveUp                                (* log: max reconnects reached *)
  | LogReconnectIn (delay : Z) (n : nat)     (* log: n-th reconnect in delay ms *)
  | WarnQueued                               (* warn: not connected, queued *)
  | ErrSendFailed (e : Exn)                  (* error: send failed *)
  | ErrToken.                                (* error: reading the token failed *)

(** The observable trace: console lines and calls of [emit], with the
    handler that received the call, if one is registered. *)
Inductive Obs : Type :=
  | Printed (line : Console)
  | Emit (eventName : string) (data : Payload) (receiver : option nat).

(** [localStorage.getItem('agoraUser')]: absent (or empty), a text
    [JSON.parse] rejects, or the text of a value. *)
Inductive StorageItem : Type :=
  | NoItem
  | Unparseable
  | Stored (user : Json).

Record World : Type := {
  storage : StorageItem;
  secure : bool;            (* window.location.protocol === 'https:' *)
  ws_host : string;         (* process.env.WS_HOST || window.location.host *)
  sockets : list Socket;    (* every WebSocket constructed; the index names it *)
  timers : list Timer;      (* pending timers *)
  next_timer : positive;    (* the id the next timer gets *)
  out : list Obs
}.

(** *** The client object *)

Record Client : Type := {
  debateId : string;
  eventHandlers : gmap string nat;
  config : Config;
  ws : option nat;
  isConnecting : bool;
  isConnected : bool;
  shouldReconnect : bool;
  reconnectAttempts : nat;
  reconnectTimer : option positive;
  heartbeatTimer : option positive;
  messageQueue : list Message;
  token : JsVal
}.

Record Sys : Type := { this : Client; world : World }.

Definition with_this (f : Client -> Client) (s : Sys) : Sys :=
  {| this := f (this s); world := world s |}.
Definition with_world (f : World -> World) (s : Sys) : Sys :=
  {| this := this s; world := f (world s) |}.

Definition set_eventHandlers (v : gmap string nat) (c : Client) : Client :=
  {| debateId := debateId c; eventHandlers := v; config := config c; ws := ws c;
     isConnecting := isConnecting c; isConnected := isConnected c;
     shouldReconnect := shouldReconnect c; reconnectAttempts := reconnectAttempts c;
     reconnectTimer := reconnectTimer c; heartbeatTimer := heartbeatTimer c;
     messageQueue := messageQueue c; token := token c |}.
Definition set_ws (v : option nat) (c : Client) : Client :=
  {| debateId := debateId c; eventHandlers := eventHandlers c; config := config c; ws := v;
     isConnecting := isConnecting c; isConnected := isConnected c;
     shouldReconnect := shouldReconnect c; reconnectAttempts := reconnectAttempts c;
     reconnectTimer := reconnectTimer c; heartbeatTimer := heartbeatTimer c;
     messageQueue := messageQueue c; token := token c |}.
Definition set_isConnecting (v : bool) (c : Client) : Client :=
  {| debateId := debateId c; eventHandlers := eventHandlers c; config := config c; ws := ws c;
     isConnecting := v; isConnected := isConnected c;
     shouldReconnect := shouldReconnect c; reconnectAttempts := reconnectAttempts c;
     reconnectTimer := reconnectTimer c; heartbeatTimer := heartbeatTimer c;
     messageQueue := messageQueue c; token := token c |}.
Definition set_isConnected (v : bool) (c : Client) : Client :=
  {| debateId := debateId c; eventHandlers := eventHandlers c; config := config c; ws := ws c;
     isConnecting := isConnecting c; isConnected := v;
     shouldReconnect := shouldReconnect c; reconnectAttempts := reconnectAttempts c;
     reconnectTimer := reconnectTimer c; heartbeatTimer := heartbeatTimer c;
     messageQueue := messageQueue c; token := token c |}.
Definition set_shouldReconnect (v : bool) (c : Client) : Client :=
  {| debateId := debateId c; eventHandlers := eventHandlers c; config := config c; ws := ws c;
     isConnecting := isConnecting c; isConnected := isConnected c;
     shouldReconnect := v; reconnectAttempts := reconnectAttempts c;
     reconnectTimer := reconnectTimer c; heartbeatTimer := heartbeatTimer c;
     messageQueue := messageQueue c; token := token c |}.
Definition set_reconnectAttempts (v : nat) (c : Client) : Client :=
  {| debateId := debateId c; eventHandlers := eventHandlers c; config := config c; ws := ws c;
     isConnecting := isConnecting c; isConnected := isConnected c;
     shouldReconnect := shouldReconnect c; reconnectAttempts := v;
     reconnectTimer := reconnectTimer c; heartbeatTimer := heartbeatTimer c;
     messageQueue := messageQueue c; token := token c |}.
Definition set_reconnectTimer (v : option positive) (c : Client) : Client :=
  {| debateId := debateId c; eventHandlers := eventHandlers c; config := config c; ws := ws c;
     isConnecting := isConnecting c; isConnected := isConnected c;
     shouldReconnect := shouldReconnect c; reconnectAttempts := reconnectAttempts c;
     reconnectTimer := v; heartbeatTimer := heartbeatTimer c;
     messageQueue := messageQueue c; token := token c |}.
Definition set_heartbeatTimer (v : option positive) (c : Client) : Client :=
  {| debateId := debateId c; eventHandlers := eventHandlers c; config := config c; ws := ws c;
     isConnecting := isConnecting c; isConnected := isConnected c;
     shouldReconnect := shouldReconnect c; reconnectAttempts := reconnectAttempts c;
     reconnectTimer := reconnectTimer c; heartbeatTimer := v;
     messageQueue := messageQueue c; token := token c |}.
Definition set_messageQueue (v : list Message) (c : Client) : Client :=
  {| debateId := debateId c; eventHandlers := eventHandlers c; config := config c; ws := ws c;
     isConnecting := isConnecting c; isConnected := isConnected c;
     shouldReconnect := shouldReconnect c; reconnectAttempts := reconnectAttempts c;
     reconnectTimer := reconnectTimer c; heartbeatTimer := heartbeatTimer c;
     messageQueue := v; token := token c |}.
Definition set_token (v : JsVal) (c : Client) : Client :=
  {| debateId := debateId c; eventHandlers := eventHandlers c; config := config c; ws := ws c;
     isConnecting := isConnecting c; isConnected := isConnected c;
     shouldReconnect := shouldReconnect c; reconnectAttempts := reconnectAttempts c;
     reconnectTimer := reconnectTimer c; heartbeatTimer := heartbeatTimer c;
     messageQueue := messageQueue c; token := v |}.

Definition set_sockets (v : list Socket) (w : World) : World :=
  {| storage := storage w; secure := secure w; ws_host := ws_host w; sockets := v;
     timers := timers w; next_timer := next_timer w; out := out w |}.
Definition set_timers (v : list Timer) (w : World) : World :=
  {| storage := storage w; secure := secure w; ws_host := ws_host w; sockets := sockets w;
     timers := v; next_timer := next_timer w; out := out w |}.
Definition set_next_timer (v : positive) (w : World) : World :=
  {| storage := storage w; secure := secure w; ws_host := ws_host w; sockets := sockets w;
     timers := timers w; next_timer := v; out := out w |}.
Definition set_out (v : list Obs) (w : World) : World :=
  {| storage := storage w; secure := secure w; ws_host := ws_host w; sockets := sockets w;
     timers := timers w; next_timer := next_timer w; out := v |}.
Definition set_storage (v : StorageItem) (w : World) : World :=
  {| storage := v; secure := secure w; ws_host := ws_host w; sockets := sockets w;
     timers := timers w; next_timer := next_timer w; out := out w |}.

Definition set_readyState (v : ReadyState) (k : Socket) : Socket :=
  {| url := url k; readyState := v; wired := wired k; sent := sent k |}.
Definition set_wired (v : bool) (k : Socket) : Socket :=
  {| url := url k; readyState := readyState k; wired := v; sent := sent k |}.
Definition set_sent (v : list Frame) (k : Socket) : Socket :=
  {| url := url k; readyState := readyState k; wired := wired k; sent := v |}.

(** *** Methods run on the state and may throw *)

Inductive Completion (A : Type) : Type :=
  | Normal (a : A)
  | Abrupt (e : Exn).
Arguments Normal {A} a.
Arguments Abrupt {A} e.

Definition M (A : Type) : Type := Sys -> Completion A * Sys.

#[global] Instance M_ret : MRet M := fun A a s => (Normal a, s).
#[global] Instance M_bind : MBind M := fun A B k m s =>
  match m s with
  | (Normal a, s') => k a s'
  | (Abrupt e, s') => (Abrupt e, s')
  end.

Definition throw {A : Type} (e : Exn) : M A := fun s => (Abrupt e, s).

(** [try { m } catch (e) { h e }] *)
Definition try_catch {A : Type} (m : M A) (h : Exn -> M A) : M A := fun s =>
  match m s with
  | (Normal a, s') => (Normal a, s')
  | (Abrupt e, s') => h e s'
  end.

Definition update (f : Client -> Client) : M unit := fun s => (Normal tt, with_this f s).
Definition effect (f : World -> World) : M unit := fun s => (Normal tt, with_world f s).
Definition read {A : Type} (f : Client -> A) : M A := fun s => (Normal (f (this s)), s).
Definition observe {A : Type} (f : World -> A) : M A := fun s => (Normal (f (world s)), s).

(** The state a method leaves, whether it returned or threw. *)
Definition exec {A : Type} (m : M A) (s : Sys) : Sys := snd (m s).

Definition console (line : Console) : M unit :=
  effect (fun w => set_out (out w ++ [Printed line]) w).

(** Platform calls. *)

(** [new WebSocket(url)]: the URLs buildUrl makes are well-formed ws/wss
    URLs, on which the constructor does not throw. *)
Definition new_WebSocket (u : Url) : M nat :=
  i ← observe (fun w => length (sockets w));
  effect (fun w =>
    set_sockets (sockets w ++ [{| url := u; readyState := CONNECTING;
                                  wired := false; sent := [] |}]) w);;
  mret i.

(** [socket.send(frame)]: throws while CONNECTING, transmits when OPEN, and
    silently discards the frame when CLOSING or CLOSED. *)
Definition socket_send (i : nat) (f : Frame) : M unit :=
  k ← observe (fun w => sockets w !! i);
  match k with
  | Some k =>
      match readyState k with
      | CONNECTING => throw InvalidStateError
      | OPEN => effect (fun w => set_sockets (<[i := set_sent (sent k ++ [f]) k]> (sockets w)) w)
      | CLOSING | CLOSED => mret tt
      end
  | None => mret tt
  end.

(** [socket.close()]: starts the closing handshake; the close event comes
    later. *)
Definition socket_close (i : nat) : M unit :=
  effect (fun w =>
    set_sockets
      (alter (fun k => match readyState k with
                       | CONNECTING | OPEN => set_readyState CLOSING k
                       | CLOSING | CLOSED => k
                       end) i (sockets w)) w).

Definition fresh_timer : M positive :=
  id ← observe next_timer;
  effect (fun w => set_next_timer (Pos.succ id) w);;
  mret id.

Definition setTimeout (ms : Z) : M positive :=
  id ← fresh_timer;
  effect (fun w => set_timers (timers w ++ [Timeout id ms]) w);;
  mret id.

Definition setInterval (ms : Z) : M positive :=
  id ← fresh_timer;
  effect (fun w => set_timers (timers w ++ [Interval id ms]) w);;
  mret id.

(** [clearTimeout(id)] and [clearInterval(id)] *)
Definition clearTimer (id : positive) : M unit :=
  effect (fun w =>
    set_timers (List.filter (fun t => negb (Pos.eqb (timer_id t) id)) (timers w)) w).

(** [typeof message === 'string' ? message : JSON.stringify(message)] *)
Definition stringify (m : Message) : M Frame :=
  match m with
  | MsgString s => mret (TextFrame s)
  | MsgValue v => mret (JsonFrame v)
  | MsgCyclic => throw NotSerializable
  end.

(** Methods of the class. *)

Definition emit (eventName : string) (data : Payload) : M unit :=
  h ← read (fun c => eventHandlers c !! eventName);
  effect (fun w => set_out (out w ++ [Emit eventName data h]) w).

Definition on (eventName : string) (handler : nat) : M unit :=
  update (fun c => set_eventHandlers (<[eventName := handler]> (eventHandlers c)) c).

Definition off (eventName : string) : M unit :=
  update (fun c => set_eventHandlers (delete eventName (eventHandlers c)) c).

Definition null : JsVal := Some JNull.

Definition getToken : M JsVal :=
  item ← observe storage;
  match item with
  | NoItem => mret null
  | Unparseable => console ErrToken;; mret null
  | Stored user =>
      match get_prop "access_token" user, get_prop "token" user with
      | Some a, Some b =>
          update (set_token (js_or a b));;
          mret (js_or a b)
      | _, _ => console ErrToken;; mret null
      end
  end.

Definition buildUrl : M Url :=
  t ← read token;
  match t with
  | Some tok =>
      if truthy tok then
        https ← observe secure;
        h ← observe ws_host;
        d ← read debateId;
        mret {| protocol := if https : bool then "wss:" else "ws:";
                host := h; debate := d; tokenParam := tok |}
      else throw MissingToken
  | None => throw MissingToken
  end.

Definition setupEventHandlers : M unit :=
  w ← read ws;
  match w with
  | Some i => effect (fun w => set_sockets (alter (set_wired true) i (sockets w)) w)
  | None => throw NullAccess
  end.

Definition stopHeartbeat : M unit :=
  t ← read heartbeatTimer;
  match t with
  | Some id => clearTimer id;; update (set_heartbeatTimer None)
  | None => mret tt
  end.

Definition startHeartbeat : M unit :=
  stopHeartbeat;;
  ms ← read (fun c => heartbeatInterval (config c));
  id ← setInterval ms;
  update (set_heartbeatTimer (Some id)).

Definition resetHeartbeat : M unit := mret tt.

Definition ping : Json := JObj [("type", JStr "ping")].

(** The callback startHeartbeat gives to setInterval. *)
Definition heartbeat : M unit :=
  connected ← read isConnected;
  w ← read ws;
  match connected, w with
  | true, Some i => socket_send i (JsonFrame ping)
  | _, _ => mret tt
  end.

Definition Math_pow (b : Z) (e : nat) : Z := b ^ Z.of_nat e.

Definition reconnectDelay (cfg : Config) (attempts : nat) : Z :=
  Z.min (baseDelay cfg * Math_pow (backoffMultiplier cfg) attempts) (maxDelay cfg).

Definition scheduleReconnect : M unit :=
  n ← read reconnectAttempts;
  cfg ← read config;
  if maxAttempts cfg <=? Z.of_nat n then
    console LogGiveUp;;
    emit "onReconnectFailed" NoData
  else
    let delay := reconnectDelay cfg n in
    update (set_reconnectAttempts (S n));;
    console (LogReconnectIn delay (S n));;
    id ← setTimeout delay;
    update (set_reconnectTimer (Some id)).

Definition handleConnectionError (error : Exn) : M unit :=
  console (ErrConnection error);;
  emit "onError" (ErrorObject error);;
  again ← read (fun c => shouldReconnect c && enabled (config c));
  if again : bool then scheduleReconnect else mret tt.

Definition connect : M unit :=
  busy ← read (fun c => isConnecting c || isConnected c);
  if busy : bool then console LogAlreadyConnected
  else
    update (set_isConnecting true);;
    getToken;;
    try_catch
      (u ← buildUrl;
       console (LogConnecting u);;
       i ← new_WebSocket u;
       update (set_ws (Some i));;
       setupEventHandlers)
      (fun error =>
         console (ErrConnectFailed error);;
         update (set_isConnecting false);;
         handleConnectionError error).

Definition send (message : Message) : M bool :=
  connected ← read isConnected;
  w ← read ws;
  match connected, w with
  | true, Some i =>
      try_catch
        (messageString ← stringify message;
         socket_send i messageString;;
         mret true)
        (fun error =>
           console (ErrSendFailed error);;
           update (fun c => set_messageQueue (messageQueue c ++ [message]) c);;
           mret false)
  | _, _ =>
      console WarnQueued;;
      update (fun c => set_messageQueue (messageQueue c ++ [message]) c);;
      mret false
  end.

(** The while loop of flushMessageQueue. An iteration either breaks or
    leaves the queue one shorter, so the length of the queue bounds the
    number of iterations (see [StreamTheory.flushMessageQueue_eq]). *)
Fixpoint flushLoop (bound : nat) : M unit :=
  q ← read messageQueue;
  match q, bound with
  | message :: rest, S bound' =>
      update (set_messageQueue rest);;
      sent ← send message;
      if sent : bool then flushLoop bound' else mret tt
  | _, _ => mret tt
  end.

Definition flushMessageQueue : M unit :=
  n ← read (fun c => length (messageQueue c));
  flushLoop n.

Definition handleOpen : M unit :=
  console LogOpened;;
  update (set_isConnecting false);;
  update (set_isConnected true);;
  update (set_reconnectAttempts 0);;
  flushMessageQueue;;
  startHeartbeat;;
  emit "onOpen" NoData.

(** The event name the switch of handleMessage selects for [data.type]. *)
Definition channel (ty : Json) : option string :=
  match ty with
  | JStr t =>
      if String.eqb t WSMessageType_SPEECH then Some "onSpeech"
      else if String.eqb t WSMessageType_STATUS then Some "onStatus"
      else if String.eqb t WSMessageType_SCORE then Some "onScore"
      else if String.eqb t WSMessageType_NOTIFICATION then Some "onNotification"
      else if String.eqb t WSMessageType_ERROR then Some "onError"
      else if String.eqb t WSMessageType_CONNECTED then Some "onConnected"
      else None
  | _ => None
  end.

(** handleMessage; [parsed] is the result of [JSON.parse(event.data)],
    [None] when it throws. *)
Definition handleMessage (parsed : option Json) : M unit :=
  try_catch
    (match parsed with
     | None => throw SyntaxError
     | Some data =>
         console (LogMessage data);;
         resetHeartbeat;;
         match get_prop "type" data with
         | None => throw NullAccess
         | Some ty =>
             match ty with
             | Some t =>
                 if truthy t then
                   match channel t with
                   | Some eventName => emit eventName (Data data)
                   | None => console (WarnUnknownType t)
                   end
                 else mret tt
             | None => mret tt
             end;;
             emit "onMessage" (Data data)
         end
     end)
    (fun error => console (ErrParseFailed error)).

Definition handleError : M unit :=
  console ErrSocket;;
  emit "onError" ErrorEvent.

Definition handleClose : M unit :=
  console LogClosed;;
  update (set_isConnecting false);;
  update (set_isConnected false);;
  stopHeartbeat;;
  emit "onClose" CloseEvent;;
  again ← read (fun c => shouldReconnect c && enabled (config c));
  if again : bool then scheduleReconnect else mret tt.

Definition disconnect : M unit :=
  update (set_shouldReconnect false);;
  t ← read reconnectTimer;
  match t with
  | Some id => clearTimer id;; update (set_reconnectTimer None)
  | None => mret tt
  end;;
  stopHeartbeat;;
  w ← read ws;
  match w with
  | Some i => socket_close i;; update (set_ws None)
  | None => mret tt
  end;;
  update (set_isConnected false);;
  update (set_isConnecting false).

Definition reconnect : M unit :=
  disconnect;;
  update (set_shouldReconnect true);;
  update (set_reconnectAttempts 0);;
  connect.

(** [new WebSocketClient(debateId, eventHandlers, config)] *)
Definition construct (id : string) (handlers : gmap string nat) (arg : ConfigArg)
    (w : World) : Sys :=
  exec getToken
    {| this := {| debateId := id; eventHandlers := handlers;
                  config := spread RECONNECT_CONFIG arg;
                  ws := None; isConnecting := false; isConnected := false;
                  shouldReconnect := true; reconnectAttempts := 0;
                  reconnectTimer := None; heartbeatTimer := None;
                  messageQueue := []; token := undefined |};
       world := w |}.

(** *** The event loop

    What can happen to a client: the callbacks the platform runs (socket
    events on a wired socket, timers that are pending), changes of the
    stored user by the rest of the page, and calls of the public methods. *)
Inductive Event : Type :=
  | SocketOpens (i : nat)
  | SocketReceives (i : nat) (parsed : option Json)
  | SocketErrors (i : nat)
  | SocketCloses (i : nat)
  | TimerFires (id : positive)
  | StorageChanges (item : StorageItem)
  | CallConnect
  | CallDisconnect
  | CallReconnect
  | CallSend (message : Message)
  | CallOn (eventName : string) (handler : nat)
  | CallOff (eventName : string).

Definition mark (i : nat) (st : ReadyState) (s : Sys) : Sys :=
  with_world (fun w => set_sockets (alter (set_readyState st) i (sockets w)) w) s.

Definition find_timer (id : positive) (w : World) : option Timer :=
  List.find (fun t => Pos.eqb (timer_id t) id) (timers w).

(** One turn of the event loop; [None] when the event cannot occur in the
    state. An exception that escapes a callback ends the callback. *)
Definition dispatch (e : Event) (s : Sys) : option Sys :=
  match e with
  | SocketOpens i =>
      k ← sockets (world s) !! i;
      match readyState k, wired k with
      | CONNECTING, true => Some (exec handleOpen (mark i OPEN s))
      | _, _ => None
      end
  | SocketReceives i parsed =>
      k ← sockets (world s) !! i;
      match readyState k, wired k with
      | OPEN, true => Some (exec (handleMessage parsed) s)
      | _, _ => None
      end
  | SocketErrors i =>
      k ← sockets (world s) !! i;
      match readyState k, wired k with
      | CLOSED, _ | _, false => None
      | _, true => Some (exec handleError s)
      end
  | SocketCloses i =>
      k ← sockets (world s) !! i;
      match readyState k, wired k with
      | CLOSED, _ | _, false => None
      | _, true => Some (exec handleClose (mark i CLOSED s))
      end
  | TimerFires id =>
      t ← find_timer id (world s);
      match t with
      | Timeout _ _ => Some (exec connect (exec (clearTimer id) s))
      | Interval _ _ => Some (exec heartbeat s)
      end
  | StorageChanges item => Some (with_world (set_storage item) s)
  | CallConnect => Some (exec connect s)
  | CallDisconnect => Some (exec disconnect s)
  | CallReconnect => Some (exec reconnect s)
  | CallSend message => Some (exec (send message) s)
  | CallOn eventName handler => Some (exec (on eventName handler) s)
  | CallOff eventName => Some (exec (off eventName) s)
  end.

Fixpoint run (events : list Event) (s : Sys) : option Sys :=
  match events with
  | [] => Some s
  | e :: rest => s' ← dispatch e s; run rest s'
  end.

(** A page with a stored user and nothing else going on. *)
Definition page (item : StorageItem) : World :=
  {| storage := item; secure := false; ws_host := "localhost";
     sockets := []; timers := []; next_timer := 1%positive; out := [] |}.

Definition user (tok : string) : StorageItem :=
  Stored (JObj [("access_token", JStr tok)]).


(** A fresh client for debate 42 on a page where a user with a token is
    stored. *)
Definition fresh : Sys := construct "42" ∅ no_config (page (user "tok")).

(** Appending observations. *)
Definition printing (obs : list Obs) (s : Sys) : Sys :=
  with_world (fun w => set_out (out w ++ obs) w) s.

(** The call of [emit] that [s] makes for an event. *)
Definition deliver (s : Sys) (eventName : string) (data : Payload) : Obs :=
  Emit eventName data (eventHandlers (this s) !! eventName).




(** What the following scenarios look at: the flags, the reconnect counter,
    the queue, the state of every socket and what it transmitted, and the
    pending timers. *)
Record View : Type := {
  v_ws : option nat;
  v_isConnecting : bool;
  v_isConnected : bool;
  v_shouldReconnect : bool;
  v_reconnectAttempts : nat;
  v_messageQueue : list Message;
  v_sockets : list (ReadyState * list Frame);
  v_timers : list Timer
}.

Definition view (s : Sys) : View := {|
  v_ws := ws (this s);
  v_isConnecting := isConnecting (this s);
  v_isConnected := isConnected (this s);
  v_shouldReconnect := shouldReconnect (this s);
  v_reconnectAttempts := reconnectAttempts (this s);
  v_messageQueue := messageQueue (this s);
  v_sockets := (fun k => (readyState k, sent k)) <$> sockets (world s);
  v_timers := timers (world s)
|}.


(** Timer ids are handed out in increasing order: every pending timer has
    an id below the next one. *)
Definition fresh_ids (w : World) : Prop :=
  Forall (fun t => (timer_id t < next_timer w)%positive) (timers w).

(** The calls of emit for the reconnect-failed notification. *)
Definition is_failed (o : Obs) : bool :=
  match o with
  | Emit eventName _ _ => String.eqb eventName "onReconnectFailed"
  | Printed _ => false
  end.

Definition count_failed (obs : list Obs) : nat := length (List.filter is_failed obs).

(** A reconnect attempt that fails: the reconnect timer fires and calls
    connect(); either connect() fails at once for want of a token, or the
    socket it opens reports an error and closes without having opened. *)
Definition failed_attempt (s : Sys) : option Sys :=
  id ← reconnectTimer (this s);
  s1 ← dispatch (TimerFires id) s;
  match isConnecting (this s1), ws (this s1) with
  | true, Some i =>
      s2 ← dispatch (SocketErrors i) s1;
      dispatch (SocketCloses i) s2
  | _, _ => Some s1
  end.

Fixpoint failed_attempts (n : nat) (s : Sys) : option Sys :=
  match n with
  | O => Some s
  | S n' => s' ← failed_attempt s; failed_attempts n' s'
  end.

(** A closure of socket [i] that the caller did not ask for, followed by
    [n] failed reconnect attempts. *)
Definition closure_sequence (i : nat) (n : nat) (s : Sys) : option Sys :=
  s1 ← dispatch (SocketCloses i) s;
  failed_attempts n s1.

(** The state between two reconnect attempts. *)
Record waiting (T : list Timer) (k : nat) (s : Sys) : Prop := {
  w_again : shouldReconnect (this s) = true;
  w_enabled : enabled (config (this s)) = true;
  w_idle : isConnecting (this s) = false /\ isConnected (this s) = false;
  w_heartbeat : heartbeatTimer (this s) = None;
  w_attempts : reconnectAttempts (this s) = k;
  w_timer : exists id d,
      reconnectTimer (this s) = Some id
      /\ timers (world s) = T ++ [Timeout id d]
      /\ Forall (fun t => (timer_id t < id)%positive) T
      /\ next_timer (world s) = Pos.succ id
}.

(** What a closure leaves when a reconnect is wanted: either the next
    attempt is scheduled, or the client gives up and says so once. *)
Definition closure_outcome (T : list Timer) (n : nat) (failed : nat) (cfg : Config)
    (socks : list Socket) (s' : Sys) : Prop :=
  config (this s') = cfg
  /\ sockets (world s') = socks
  /\ isConnecting (this s') = false
  /\ shouldReconnect (this s') = true
  /\ if decide (Z.of_nat n < maxAttempts cfg)
     then waiting T (S n) s' /\ count_failed (out (world s')) = failed
     else reconnectAttempts (this s') = n
          /\ timers (world s') = T
          /\ count_failed (out (world s')) = S failed.

(** What getToken reads: the token the client holds afterwards and the
    console lines, given the stored item and the token held before. *)
Definition refreshed (item : StorageItem) (tok : JsVal) : JsVal * list Obs :=
  match item with
  | NoItem => (tok, [])
  | Unparseable => (tok, [Printed ErrToken])
  | Stored user =>
      match get_prop "access_token" user, get_prop "token" user with
      | Some a, Some b => (js_or a b, [])
      | _, _ => (tok, [Printed ErrToken])
      end
  end.

(** The try block of connect() and its catch. *)
Definition open_transport : M unit :=
  try_catch
    (u ← buildUrl;
     console (LogConnecting u);;
     i ← new_WebSocket u;
     update (set_ws (Some i));;
     setupEventHandlers)
    (fun error =>
       console (ErrConnectFailed error);;
       update (set_isConnecting false);;
       handleConnectionError error).

(** Events the platform raises by itself. *)
Definition automatic (e : Event) : Prop :=
  match e with
  | SocketOpens _ | SocketReceives _ _ | SocketErrors _ | SocketCloses _
  | TimerFires _ => True
  | _ => False
  end.

(** The fresh client after connect() and the open event of its socket. *)
Definition opened : Sys := exec handleOpen (mark 0 OPEN (exec connect fresh)).

(** The frame [send] puts on the wire for a message; [None] when
    JSON.stringify throws. *)
Definition frame_of (m : Message) : option Frame :=
  match m with
  | MsgString s => Some (TextFrame s)
  | MsgValue v => Some (JsonFrame v)
  | MsgCyclic => None
  end.

(** [this.messageQueue.push(message)] *)
Definition enqueue (m : Message) (s : Sys) : Sys :=
  with_this (fun c => set_messageQueue (messageQueue c ++ [m]) c) s.

(** One transmission on an open socket. *)
Definition transmit (i : nat) (f : Frame) (s : Sys) : Sys :=
  with_world (fun w =>
    set_sockets (alter (fun k => set_sent (sent k ++ [f]) k) i (sockets w)) w) s.

(** The state after the frames [fs] went out on socket [i], one after the
    other. *)
Definition transmitted (i : nat) (fs : list Frame) (s : Sys) : Sys :=
  with_world (fun w =>
    set_sockets (alter (fun k => set_sent (sent k ++ fs) k) i (sockets w)) w) s.

(** The client is connected on socket [i], which is open. *)
Definition open_on (i : nat) (s : Sys) : Prop :=
  isConnected (this s) = true /\ ws (this s) = Some i
  /\ exists k, sockets (world s) !! i = Some k /\ readyState k = OPEN.

(** The token connect() works with: what getToken leaves in [this.token]. *)
Definition credential (s : Sys) : JsVal :=
  fst (refreshed (storage (world s)) (token (this s))).

(** Whether a timer is the one recorded in reconnectTimer or in
    heartbeatTimer. *)
Definition recorded (c : Client) (t : Timer) : bool :=
  match reconnectTimer c with
  | Some id => Pos.eqb (timer_id t) id
  | None => false
  end
  || match heartbeatTimer c with
     | Some id => Pos.eqb (timer_id t) id
     | None => false
     end.

(** What send and the flush of the queue leave alone: everything but the
    queue, the trace and what the sockets transmitted. *)
Record Skeleton : Type := {
  k_ws : option nat;
  k_isConnecting : bool;
  k_isConnected : bool;
  k_shouldReconnect : bool;
  k_reconnectAttempts : nat;
  k_reconnectTimer : option positive;
  k_heartbeatTimer : option positive;
  k_config : Config;
  k_token : JsVal;
  k_sockets : list (ReadyState * bool);
  k_timers : list Timer;
  k_next_timer : positive;
  k_storage : StorageItem
}.

Definition skeleton (s : Sys) : Skeleton := {|
  k_ws := ws (this s);
  k_isConnecting := isConnecting (this s);
  k_isConnected := isConnected (this s);
  k_shouldReconnect := shouldReconnect (this s);
  k_reconnectAttempts := reconnectAttempts (this s);
  k_reconnectTimer := reconnectTimer (this s);
  k_heartbeatTimer := heartbeatTimer (this s);
  k_config := config (this s);
  k_token := token (this s);
  k_sockets := (fun k => (readyState k, wired k)) <$> sockets (world s);
  k_timers := timers (world s);
  k_next_timer := next_timer (world s);
  k_storage := storage (world s)
|}.

(** The skeleton after handleOpen: the flags say connected, the counter is
    0, and the heartbeat timer has been replaced. *)
Definition skeleton_opened (k : Skeleton) : Skeleton := {|
  k_ws := k_ws k;
  k_isConnecting := false;
  k_isConnected := true;
  k_shouldReconnect := k_shouldReconnect k;
  k_reconnectAttempts := 0;
  k_reconnectTimer := k_reconnectTimer k;
  k_heartbeatTimer := Some (k_next_timer k);
  k_config := k_config k;
  k_token := k_token k;
  k_sockets := k_sockets k;
  k_timers :=
    match k_heartbeatTimer k with
    | Some id => List.filter (fun t => negb (Pos.eqb (timer_id t) id)) (k_timers k)
    | None => k_timers k
    end ++ [Interval (k_next_timer k) (heartbeatInterval (k_config k))];
  k_next_timer := Pos.succ (k_next_timer k);
  k_storage := k_storage k
|}.

(** An interval timer: the heartbeat, never a reconnect. *)
Definition is_interval (t : Timer) : Prop :=
  match t with Interval _ _ => True | Timeout _ _ => False end.

(** A client that has been told to stay disconnected and has no reconnect
    timer pending. *)
Definition torn_down (s : Sys) : Prop :=
  shouldReconnect (this s) = false /\ Forall is_interval (timers (world s)).

(** A transport that is connecting or open. *)
Definition live (st : ReadyState) : bool :=
  match st with CONNECTING | OPEN => true | CLOSING | CLOSED => false end.

(** Every socket is wired and none is closing, and a socket that is
    connecting or open is the one in [ws], with a flag saying so. *)
Definition single (s : Sys) : Prop :=
  forall j k, sockets (world s) !! j = Some k ->
    wired k = true /\ readyState k <> CLOSING
    /\ (live (readyState k) = true ->
        ws (this s) = Some j /\ isConnecting (this s) || isConnected (this s) = true).

(** Events other than a call of disconnect() or reconnect(). *)
Definition no_teardown (e : Event) : Prop :=
  match e with CallDisconnect | CallReconnect => False | _ => True end.

End WS.

(** ** The client cache of the API client ([wsClients], connectWebSocket) *)

Module Registry.
Import WS.

(** The module-level getToken of the API client: the stored token, or
    [null]. *)
Definition getToken (w : World) : JsVal * World :=
  match storage w with
  | NoItem => (null, w)
  | Unparseable => (null, set_out (out w ++ [Printed ErrToken]) w)
  | Stored user =>
      match get_prop "access_token" user, get_prop "token" user with
      | Some a, Some b => (js_or a b, w)
      | _, _ => (null, set_out (out w ++ [Printed ErrToken]) w)
      end
  end.

(** The message of the error thrown when no token is stored. *)
Definition NO_TOKEN : string := "no authentication token found".

(** [wsClients] maps a cache key to the client object stored under it; the
    object connectWebSocket returns is that entry, named by its key. *)
Record Cache : Type := {
  wsClients : gmap string Client;
  env : World
}.

Definition connectWebSocket (id : string) (handlers : gmap string nat)
    (arg : ConfigArg) (r : Cache) : (Retry.JsError + string) * Cache :=
  let '(tok, w) := getToken (env r) in
  if negb (truthy_val tok)
  then (inl (Retry.APIError NO_TOKEN 401 JNull), {| wsClients := wsClients r; env := w |})
  else
    let cacheKey := id in
    let create :=
      let s := exec connect (construct id handlers arg w) in
      (inr cacheKey, {| wsClients := <[cacheKey := this s]> (wsClients r);
                        env := world s |}) in
    match wsClients r !! cacheKey with
    | Some existingClient =>
        if isConnected existingClient then
          (inr cacheKey,
           {| wsClients :=
                <[cacheKey := set_eventHandlers
                                (handlers ∪ eventHandlers existingClient)
                                existingClient]> (wsClients r);
              env := w |})
        else create
    | None => create
    end.

End Registry.

(** ** Situations the further properties of the request path are stated in *)

Module RetryScene.
Import Retry.

(** The error an attempt ends with, by the outcome of its call of [fetch]:
    none for an ok response. *)
Definition failure (o : FetchOutcome) : option JsError :=
  match o with
  | Resolves r => if ok r then None else Some (errorOf r)
  | Rejects e => Some e
  end.

(** Whether a message contains one of the network error codes. *)
Definition mentions (codes : list string) (message : string) : bool :=
  existsb (fun code => includes message code) codes.

(** The delays of the attempts [1 .. n]. *)
Definition backoff (cfg : RetryConfig) (n : nat) : list Z :=
  (fun k => delayMs_at cfg (Z.of_nat (S k))) <$> seq 0 n.

(** A network that is down: every call of [fetch] rejects with the
    TypeError of the browser. *)
Definition offline : Net :=
  {| transport := fun _ _ _ => Rejects (OtherError "TypeError" "Failed to fetch");
     trace := [] |}.

(** A response with a text body, and a transport whose every response is
    that one. *)
Definition reply (st : Z) (text : string) : Response :=
  {| status := st; contentType := Some "text/plain";
     jsonBody := None; textBody := Some text |}.

Definition answering (st : Z) (text : string) : Net :=
  {| transport := fun _ _ _ => Resolves (reply st text); trace := [] |}.

End RetryScene.

(** ** The session of the API client: stored user, headers, login *)

Module Api.
Import WS.

(** *** Objects *)

(** [obj[k] = v]: an own property keeps its place, a new one comes last. *)
Fixpoint set_prop (k : string) (v : Json) (fields : list (string * Json))
  : list (string * Json) :=
  match fields with
  | [] => [(k, v)]
  | (k', v') :: rest =>
      if String.eqb k k' then (k, v) :: rest else (k', v') :: set_prop k v rest
  end.

(** The own enumerable properties object spread copies: those of an
    object, the elements of an array and the characters of a string under
    their indices, none for the other values. (Objects are only looked up
    by key here, so the place a property takes in the result is kept as
    the order of insertion.) *)
Definition own_props (v : JsVal) : list (string * Json) :=
  match v with
  | Some (JObj fields) => fields
  | Some (JArr items) => imap (fun i x => (pretty i, x)) items
  | Some (JStr s) =>
      imap (fun i c => (pretty i, JStr (String c EmptyString))) (list_ascii_of_string s)
  | _ => []
  end.

(** [{ ...target, ...source }] *)
Definition assign (target source : list (string * Json)) : list (string * Json) :=
  foldl (fun acc p => set_prop (fst p) (snd p) acc) target source.

(** The properties of an object literal that [JSON.stringify] writes: those
    whose value is not [undefined]. *)
Definition defined (fields : list (string * JsVal)) : list (string * Json) :=
  omap (fun p => pair (fst p) <$> snd p) fields.

(** [`${v}`] *)
Definition template (v : JsVal) : string :=
  match v with
  | Some j => js_toString j
  | None => "undefined"
  end.

(** *** Errors and console lines *)

(** What the functions of the module catch and rethrow. *)
Inductive Thrown : Type :=
  | Rejected (e : Retry.JsError)   (* thrown by fetchWithRetry, or a new APIError *)
  | BodyRejected                   (* response.json() or response.text() rejected *)
  | ParseError                     (* SyntaxError of JSON.parse *)
  | NullRead (key : string).       (* TypeError: property [key] read on null *)

(** The [console.error] lines, by the function that prints them. *)
Inductive Line : Type :=
  | ErrSaveUserData (t : Thrown)
  | ErrRefreshToken (t : Thrown)
  | ErrLogin (t : Thrown)
  | ErrLogout (t : Thrown)
  | ErrGetDebates (t : Thrown).

Definition REQUEST_FAILED : string := "request failed".
Definition NETWORK_FAILED : string := "network connection failed, check the network settings".
Definition UNKNOWN_ERROR : string := "an unknown error occurred".

(** *** The state of the module and of the page *)

Record Env : Type := {
  API_BASE : string;             (* the module constant *)
  registry : Registry.Cache;     (* wsClients, and the page with localStorage *)
  net : Retry.Net;               (* fetch and the clock *)
  log : list Line                (* console.error *)
}.

Definition page_of (env : Env) : World := Registry.env (registry env).

Definition set_page (w : World) (env : Env) : Env :=
  {| API_BASE := API_BASE env;
     registry := {| Registry.wsClients := Registry.wsClients (registry env);
                    Registry.env := w |};
     net := net env; log := log env |}.

Definition set_net (n : Retry.Net) (env : Env) : Env :=
  {| API_BASE := API_BASE env; registry := registry env; net := n; log := log env |}.

Definition print (line : Line) (env : Env) : Env :=
  {| API_BASE := API_BASE env; registry := registry env; net := net env;
     log := log env ++ [line] |}.

(** [localStorage.setItem('agoraUser', JSON.stringify(v))] and
    [localStorage.removeItem('agoraUser')]; the storage accepts the write. *)
Definition setItem (v : Json) (env : Env) : Env :=
  set_page (set_storage (Stored v) (page_of env)) env.

Definition removeItem (env : Env) : Env :=
  set_page (set_storage NoItem (page_of env)) env.

(** *** The functions *)

Definition getToken (env : Env) : JsVal * Env :=
  let '(token, w) := Registry.getToken (page_of env) in (token, set_page w env).

Definition saveUserData (data : Json) (env : Env) : Env :=
  match get_prop "user_id" data, get_prop "username" data, get_prop "email" data,
        get_prop "access_token" data, get_prop "refresh_token" data with
  | Some user_id, Some username, Some email, Some access_token, Some refresh_token =>
      let userData :=
        JObj (defined [("id", user_id); ("username", username); ("email", email);
                       ("access_token", access_token);
                       ("refresh_token", refresh_token)]) in
      setItem userData env
  | _, _, _, _, _ => print (ErrSaveUserData (NullRead "user_id")) env
  end.

Definition clearUserData (env : Env) : Env := removeItem env.

Definition getAuthHeaders (headers : list (string * Json)) (env : Env)
  : list (string * Json) * Env :=
  let '(token, env1) := getToken env in
  let defaultHeaders := assign [("Content-Type", JStr "application/json")] headers in
  (if truthy_val token
   then set_prop "Authorization" (JStr ("Bearer " +:+ template token)) defaultHeaders
   else defaultHeaders,
   env1).

(** [handleResponse(await fetchWithRetry(url, options))], on the network of
    the environment. *)
Definition call (url : string) (options : Json) (env : Env) : (Thrown + Json) * Env :=
  match Retry.request Retry.RETRY_CONFIG url options (net env) with
  | (Retry.Parsed (Retry.BodyJson v), net1) => (inr v, set_net net1 env)
  | (Retry.Parsed (Retry.BodyText s), net1) => (inr (JStr s), set_net net1 env)
  | (Retry.Failed e, net1) => (inl (Rejected e), set_net net1 env)
  | (Retry.BodyUnreadable, net1) => (inl BodyRejected, set_net net1 env)
  end.

(** [data.data || data]; [None] when [data] is null. *)
Definition unwrap (data : Json) : option Json :=
  inner ← get_prop "data" data;
  Some (match inner with
        | Some j => if truthy j then j else data
        | None => data
        end).

(** The request bodies are carried as the value whose JSON text is sent. *)
Definition refreshToken (env : Env) : bool * Env :=
  let failed (t : Thrown) (env' : Env) :=
    (false, clearUserData (print (ErrRefreshToken t) env')) in
  match storage (page_of env) with
  | NoItem => (false, env)
  | Unparseable => failed ParseError env
  | Stored user =>
      match get_prop "refresh_token" user with
      | None => failed (NullRead "refresh_token") env
      | Some refresh_token =>
          if negb (truthy_val refresh_token) then (false, env)
          else
            let '(headers, env1) := getAuthHeaders [] env in
            let options :=
              JObj [("method", JStr "POST"); ("headers", JObj headers);
                    ("body", JObj (defined [("refresh_token", refresh_token)]))] in
            match call (API_BASE env +:+ "/auth/refresh") options env1 with
            | (inl t, env2) => failed t env2
            | (inr data, env2) =>
                match get_prop "success" data, get_prop "access_token" data,
                      get_prop "data" data with
                | Some success, Some access_token, Some inner =>
                    if truthy_val (js_or success access_token) then
                      (true,
                       saveUserData
                         (JObj (assign (assign (assign [] (own_props (Some user)))
                                          (own_props (Some data)))
                                  (own_props inner)))
                         env2)
                    else (false, env2)
                | _, _, _ => failed (NullRead "success") env2
                end
            end
      end
  end.


Definition logout (env : Env) : (Thrown + Json) * Env :=
  let '(headers, env1) := getAuthHeaders [] env in
  let options := JObj [("method", JStr "POST"); ("headers", JObj headers)] in
  match call (API_BASE env +:+ "/auth/logout") options env1 with
  | (inr data, env2) => (inr data, clearUserData env2)
  | (inl t, env2) => (inl t, clearUserData (print (ErrLogout t) env2))
  end.

Definition getDebates (token : JsVal) (env : Env) : (Thrown + Json) * Env :=
  let failed (t : Thrown) (env' : Env) := (inl t, print (ErrGetDebates t) env') in
  let '(headers0, env1) := getAuthHeaders [] env in
  let headers :=
    if truthy_val token
    then set_prop "Authorization" (JStr ("Bearer " +:+ template token)) headers0
    else headers0 in
  let options := JObj [("method", JStr "GET"); ("headers", JObj headers)] in
  match call (API_BASE env +:+ "/debates") options env1 with
  | (inl t, env2) => failed t env2
  | (inr data, env2) =>
      match unwrap data with
      | None => failed (NullRead "data") env2
      | Some result => (inr result, env2)
      end
  end.

(** getErrorMessage, on the errors of the request path. *)
Definition getErrorMessage (error : Retry.JsError) : string :=
  match error with
  | Retry.APIError message _ _ =>
      if String.eqb message "" then REQUEST_FAILED else message
  | Retry.OtherError name message =>
      if String.eqb name "TypeError" && includes message "fetch" then NETWORK_FAILED
      else if String.eqb message "" then UNKNOWN_ERROR else message
  end.

(** *** The client cache *)

Definition disconnectWebSocket (id : string) (r : Registry.Cache) : Registry.Cache :=
  let cacheKey := id in
  match Registry.wsClients r !! cacheKey with
  | Some client =>
      let s := exec disconnect {| this := client; world := Registry.env r |} in
      {| Registry.wsClients := delete cacheKey (Registry.wsClients r);
         Registry.env := world s |}
  | None => r
  end.

(** [wsClients.forEach(client => client.disconnect()); wsClients.clear()].
    The clients are visited in the order of the map; disconnecting two
    clients gives the same page in either order ([CacheTheory.teardown_comm]),
    so the order does not show in the result. *)
Definition disconnectAllWebSockets (r : Registry.Cache) : Registry.Cache :=
  {| Registry.wsClients := ∅;
     Registry.env :=
       map_fold (fun _ client w => world (exec disconnect {| this := client; world := w |}))
         (Registry.env r) (Registry.wsClients r) |}.

End Api.

(** ** The exported functions of websocket-client.js, and invariants of a
       client *)

Module Exports.
Import WS.

Definition createWebSocketClient (id : string) (handlers : gmap string nat)
    (arg : ConfigArg) (w : World) : Sys :=
  construct id handlers arg w.

(** The simplified connect function: a new client, connected at once. *)
Definition connectWebSocket (id : string) (handlers : gmap string nat)
    (arg : ConfigArg) (w : World) : Sys :=
  exec connect (createWebSocketClient id handlers arg w).

(** The pending heartbeat timers. *)
Definition intervals (s : Sys) : list Timer :=
  List.filter (fun t => match t with Interval _ _ => true | Timeout _ _ => false end)
    (timers (world s)).

(** What every state of a client satisfies (see [StreamExtras.run_sound]):
    timer ids are fresh and distinct, a pending interval is the one recorded
    in heartbeatTimer, a heartbeat is recorded only while the client is
    connected, and the attempt counter stays within maxAttempts. *)
Record sound (k : Skeleton) : Prop := {
  sound_fresh : Forall (fun t => (timer_id t < k_next_timer k)%positive) (k_timers k);
  sound_distinct : NoDup (timer_id <$> k_timers k);
  sound_recorded : forall id ms, Interval id ms ∈ k_timers k -> k_heartbeatTimer k = Some id;
  sound_known : forall id, k_heartbeatTimer k = Some id -> (id < k_next_timer k)%positive;
  sound_connected : k_isConnected k = false -> k_heartbeatTimer k = None;
  sound_attempts :
    Z.of_nat (k_reconnectAttempts k) <= Z.max 0 (maxAttempts (k_config k))
}.

(** Events that neither send a message nor open a socket. *)
Definition keeps_queue (e : Event) : Prop :=
  match e with CallSend _ | SocketOpens _ => False | _ => True end.

(** Events other than a change of the stored user. *)
Definition keeps_storage (e : Event) : Prop :=
  match e with StorageChanges _ => False | _ => True end.

End Exports.

(** ** Situations the properties of the session are stated in *)

Module Scene.
Import WS Api.

(** The request to [url] is answered by the JSON value [v], whatever the
    options. *)
Definition answers (url : string) (n : Retry.Net) (v : Json) : Prop :=
  forall options, exists net1,
    Retry.request Retry.RETRY_CONFIG url options n
      = (Retry.Parsed (Retry.BodyJson v), net1).

(** The request to [url] fails: fetchWithRetry throws, or the body of the
    response cannot be read. *)
Definition fails (url : string) (n : Retry.Net) : Prop :=
  forall options, exists net1,
    (exists e, Retry.request Retry.RETRY_CONFIG url options n = (Retry.Failed e, net1))
    \/ Retry.request Retry.RETRY_CONFIG url options n = (Retry.BodyUnreadable, net1).

(** A server that answers every request with status 200 and the JSON value
    [v]. *)
Definition serving (v : Json) : Retry.Net :=
  {| Retry.transport := fun _ _ _ =>
       Retry.Resolves {| Retry.status := 200;
                         Retry.contentType := Some "application/json";
                         Retry.jsonBody := Some v; Retry.textBody := None |};
     Retry.trace := [] |}.

(** A page with the stored item [item], no socket client, and the network
    [n]. *)
Definition session (item : StorageItem) (n : Retry.Net) : Env :=
  {| API_BASE := "/api";
     registry := {| Registry.wsClients := ∅; Registry.env := page item |};
     net := n; log := [] |}.

(** The names of the properties saveUserData stores. *)
Definition stored_keys : list string :=
  ["id"; "username"; "email"; "access_token"; "refresh_token"].

(** The property [k] of the stored user, when one is stored. *)
Definition stored_prop (k : string) (env : Env) : JsVal :=
  match storage (page_of env) with
  | Stored user => mjoin (get_prop k user)
  | _ => None
  end.

(** The value an object literal gives the property [k]. *)
Fixpoint literal_prop (k : string) (fields : list (string * JsVal)) : JsVal :=
  match fields with
  | [] => None
  | (k', v) :: rest => if String.eqb k k' then v else literal_prop k rest
  end.

(** [v.k], [undefined] when there is no such property or no object. *)
Definition prop (k : string) (v : Json) : JsVal := mjoin (get_prop k v).

(** A user record as the login endpoint returns it. *)
Definition alice : Json :=
  JObj [("user_id", JNum 7); ("username", JStr "alice"); ("email", JStr "a@example.org");
        ("access_token", JStr "tok-1"); ("refresh_token", JStr "ref-1");
        ("password_hash", JStr "x")].

(** The property [k] of [{ ...user, ...data, ...inner }]. *)
Definition spread_prop (k : string) (user data : list (string * Json)) (inner : JsVal)
  : JsVal :=
  match assoc k (own_props inner) with
  | Some v => Some v
  | None => match assoc k data with
            | Some v => Some v
            | None => assoc k user
            end
  end.

(** What the module does not touch when it only talks to the server and
    the console: the socket clients, the sockets and the timers. *)
Definition connections (env : Env)
  : gmap string Client * list Socket * list Timer :=
  (Registry.wsClients (registry env), sockets (page_of env), timers (page_of env)).

(** The record saveUserData stores for [alice]. *)
Definition alice_stored : Json :=
  JObj [("id", JNum 7); ("username", JStr "alice"); ("email", JStr "a@example.org");
        ("access_token", JStr "tok-1"); ("refresh_token", JStr "ref-1")].

(** The Authorization header a request carries for a token. *)
Definition bearer (token : JsVal) : JsVal :=
  if truthy_val token then Some (JStr ("Bearer " +:+ template token)) else None.

(** What [socket.close()] does to a socket. *)
Definition closing (k : Socket) : Socket :=
  match readyState k with
  | CONNECTING | OPEN => set_readyState CLOSING k
  | CLOSING | CLOSED => k
  end.

(** What disconnect() of the client [c] does to the page: its recorded
    timers are cleared and its socket is closed. *)
Definition teardown (c : Client) (w : World) : World :=
  set_sockets
    (match ws c with
     | Some i => alter closing i (sockets w)
     | None => sockets w
     end)
    (set_timers (List.filter (fun t => negb (recorded c t)) (timers w)) w).


End Scene.

(** * Properties of the request path *)

Module RetryTheory.
Import Retry.

Section Request.
Variable cfg : RetryConfig.
Variables (url : string) (options : Json).

Lemma calls_emit (e : NetEvent) (net : Net) :
  calls (emit e net) = (if is_fetch e then S (calls net) else calls net).
Proof.
  unfold calls, emit; simpl.
  rewrite List.filter_app, length_app; simpl.
  destruct (is_fetch e); simpl; lia.
Qed.

Lemma sleeps_emit (e : NetEvent) (net : Net) :
  sleeps (emit e net) =
  sleeps net ++ match e with Slept ms => [ms] | _ => [] end.
Proof.
  unfold sleeps, emit; simpl.
  rewrite omap_app; simpl. by destruct e.
Qed.


(** fetchWithRetry satisfies the recursion equation of the source, with no
    bound on the depth. *)
Lemma fetchWithRetry_eq (attempt : Z) (net : Net) :
  fetchWithRetry cfg url options attempt net =
  match attemptOnce url options net with
  | (inr response, net1) => (Returned response, net1)
  | (inl error, net1) =>
      if negb (isRetryableError cfg error) || (maxAttempts cfg <=? attempt)
      then (Thrown error, net1)
      else fetchWithRetry cfg url options (attempt + 1) (retry_state cfg attempt net1)
  end.
Proof.
  unfold fetchWithRetry.
  destruct (Z.to_nat (maxAttempts cfg - attempt)) as [|b] eqn:Hb; simpl.
  - destruct (attemptOnce url options net) as [[error|response] net1]; [|done].
    assert ((maxAttempts cfg <=? attempt) = true) as -> by (apply Z.leb_le; lia).
    by rewrite orb_true_r.
  - destruct (attemptOnce url options net) as [[error|response] net1]; [|done].
    destruct (negb (isRetryableError cfg error) || (maxAttempts cfg <=? attempt)); [done|].
    replace (Z.to_nat (maxAttempts cfg - (attempt + 1))) with b by lia.
    reflexivity.
Qed.

Lemma attemptOnce_trace (net : Net) :
  snd (attemptOnce url options net) = emit (Fetched url options) net.
Proof.
  unfold attemptOnce, fetch.
  destruct (transport net (calls net) url options) as [r|e]; [|done].
  by destruct (ok r).
Qed.

Lemma attemptOnce_ok (net : Net) (r : Response) :
  transport net (calls net) url options = Resolves r ->
  ok r = true ->
  attemptOnce url options net = (inr r, emit (Fetched url options) net).
Proof. intros Ht Hok. unfold attemptOnce, fetch. by rewrite Ht, Hok. Qed.

Lemma attemptOnce_status (net : Net) (r : Response) :
  transport net (calls net) url options = Resolves r ->
  ok r = false ->
  attemptOnce url options net = (inl (errorOf r), emit (Fetched url options) net).
Proof. intros Ht Hok. unfold attemptOnce, fetch. by rewrite Ht, Hok. Qed.

(** The error built from a response carries the status of the response. *)
Lemma errorOf_status (r : Response) :
  exists msg data, errorOf r = APIError msg (status r) data.
Proof.
  unfold errorOf.
  destruct (isJsonType (contentType r)).
  - destruct (jsonBody r) as [json|]; [|eauto].
    destruct (get_prop "message" json) as [m|]; [|eauto].
    destruct (get_prop "detail" json) as [d|]; [|eauto].
    destruct (js_or m d); eauto.
  - destruct (textBody r); eauto.
Qed.

Lemma includesZ_In (l : list Z) (x : Z) : includesZ l x = true <-> In x l.
Proof.
  unfold includesZ. rewrite existsb_exists. split.
  - intros (y & Hy & Heq). apply Z.eqb_eq in Heq. by subst.
  - intros Hx. exists x. split; [done | apply Z.eqb_refl].
Qed.

(** A status on the non-retryable list is never retried, whatever the other
    lists and the message say. *)
Lemma nonRetryable_first (msg : string) (st : Z) (data : Json) :
  In st (nonRetryableStatuses cfg) ->
  isRetryableError cfg (APIError msg st data) = false.
Proof.
  intros Hin. unfold isRetryableError.
  by rewrite (proj2 (includesZ_In _ _) Hin).
Qed.

Lemma retryable_status (msg : string) (st : Z) (data : Json) :
  ~ In st (nonRetryableStatuses cfg) ->
  In st (retryableStatuses cfg) ->
  isRetryableError cfg (APIError msg st data) = true.
Proof.
  intros Hn Hin. unfold isRetryableError.
  destruct (includesZ (nonRetryableStatuses cfg) st) eqn:E.
  - by apply includesZ_In in E.
  - rewrite (proj2 (includesZ_In _ _) Hin).
    simpl. by destruct (existsb _ _).
Qed.

(** Every run starts with a call of [fetch], and only adds to the trace. *)
Lemma run_starts_with_fetch (budget : nat) (attempt : Z) (net : Net) :
  (trace net ++ [Fetched url options])
    `prefix_of` trace (snd (retryLoop cfg url options budget attempt net)).
Proof.
  revert attempt net. induction budget as [|b IH]; intros attempt net; simpl.
  - pose proof (attemptOnce_trace net) as Ht.
    destruct (attemptOnce url options net) as [[error|response] net1]; simpl in *; subst.
    + by destruct (negb (isRetryableError cfg error) || (maxAttempts cfg <=? attempt)).
    + done.
  - pose proof (attemptOnce_trace net) as Ht.
    destruct (attemptOnce url options net) as [[error|response] net1]; simpl in *; subst;
      [|done].
    destruct (negb (isRetryableError cfg error) || (maxAttempts cfg <=? attempt)); [done|].
    etrans; [|apply IH]. simpl.
    rewrite <- !app_assoc. apply prefix_app, prefix_cons, prefix_nil.
Qed.

End Request.







(** C2: a response whose status is on the non-retryable list makes
    fetchWithRetry call fetch exactly once and throw the APIError that
    carries that status, whatever maxAttempts is and whether or not the
    status is also on the retryable list; nothing is slept. *)
Theorem C2_nonretryable_status_single_attempt :
  forall (cfg : RetryConfig) (url : string) (options : Json) (net : Net) (r : Response),
    transport net (calls net) url options = Resolves r ->
    ok r = false ->
    In (status r) (nonRetryableStatuses cfg) ->
    exists msg data,
      fetchWithRetry cfg url options 1 net
        = (Thrown (APIError msg (status r) data), emit (Fetched url options) net)
      /\ request cfg url options net
          = (Failed (APIError msg (status r) data), emit (Fetched url options) net)
      /\ calls (emit (Fetched url options) net) = S (calls net)
      /\ sleeps (emit (Fetched url options) net) = sleeps net.
Proof.
  intros cfg url options net r Ht Hok Hin.
  destruct (errorOf_status r) as (msg & data & He).
  exists msg, data.
  assert (fetchWithRetry cfg url options 1 net
          = (Thrown (APIError msg (status r) data), emit (Fetched url options) net)) as Hrun.
  { rewrite fetchWithRetry_eq, (attemptOnce_status url options net r Ht Hok), He.
    by rewrite (nonRetryable_first cfg msg (status r) data Hin). }
  split; [exact Hrun|]. split.
  - unfold request. by rewrite Hrun.
  - split; [by rewrite calls_emit | by rewrite sleeps_emit, app_nil_r].
Qed.


Lemma C2_nonretryable_status_single_attempt_witness :
  exists msg data,
    fetchWithRetry both_lists "/api/stats" JNull 1 (scripted [] 404)
      = (Thrown (APIError msg 404 data), emit (Fetched "/api/stats" JNull) (scripted [] 404))
    /\ request both_lists "/api/stats" JNull (scripted [] 404)
        = (Failed (APIError msg 404 data), emit (Fetched "/api/stats" JNull) (scripted [] 404))
    /\ calls (emit (Fetched "/api/stats" JNull) (scripted [] 404)) = 1%nat
    /\ sleeps (emit (Fetched "/api/stats" JNull) (scripted [] 404)) = [].
Proof.
  apply (C2_nonretryable_status_single_attempt both_lists "/api/stats" JNull
           (scripted [] 404) (plain 404)).
  - reflexivity.
  - reflexivity.
  - simpl; tauto.
Defined.

Lemma status_not_ok (r : Response) : status r = 503 -> ok r = false.
Proof. intros H. unfold ok. by rewrite H. Qed.

Lemma retry_state_calls (cfg : RetryConfig) (url : string) (options : Json)
    (attempt : Z) (net : Net) :
  calls (retry_state cfg attempt (emit (Fetched url options) net)) = S (calls net).
Proof. unfold retry_state, delay. by rewrite !calls_emit. Qed.

(** C3: under the policy maxAttempts 3, delay 1000, multiplier 2, retryable
    statuses [503], a transport that answers 503, 503, 200 makes
    fetchWithRetry return the 200 response after exactly three calls of fetch
    with sleeps of 1000 ms and 2000 ms in between and no call after the
    successful one; the request then yields the parsed body of that response.
    In general an ok response at any attempt is returned at once: the only
    effect of that attempt is its own call of fetch. *)
Theorem C3_success_stops_retrying :
  forall (cfg : RetryConfig) (url : string) (options : Json) (net : Net)
         (r1 r2 r3 : Response),
    maxAttempts cfg = 3 -> retryDelay cfg = 1000 -> backoffMultiplier cfg = 2 ->
    retryableStatuses cfg = [503] -> ~ In 503 (nonRetryableStatuses cfg) ->
    transport net (calls net) url options = Resolves r1 ->
    transport net (S (calls net)) url options = Resolves r2 ->
    transport net (S (S (calls net))) url options = Resolves r3 ->
    status r1 = 503 -> status r2 = 503 -> status r3 = 200 ->
    let final :=
      {| transport := transport net;
         trace := trace net ++
           [Fetched url options; Warned 1000 2; Slept 1000;
            Fetched url options; Warned 2000 3; Slept 2000;
            Fetched url options] |} in
    fetchWithRetry cfg url options 1 net = (Returned r3, final)
    /\ request cfg url options net
        = (match handleResponse r3 with
           | Some b => Parsed b
           | None => BodyUnreadable
           end, final)
    /\ calls final = (3 + calls net)%nat
    /\ sleeps final = sleeps net ++ [1000; 2000]
    /\ (forall (cfg' : RetryConfig) (attempt : Z) (net' : Net) (r : Response),
          transport net' (calls net') url options = Resolves r ->
          ok r = true ->
          fetchWithRetry cfg' url options attempt net'
            = (Returned r, emit (Fetched url options) net')).
Proof.
  intros cfg url options net r1 r2 r3 Hmax Hdelay Hmult Hret Hnon Ht1 Ht2 Ht3
         Hs1 Hs2 Hs3 final.
  assert (forall msg data, isRetryableError cfg (APIError msg 503 data) = true) as Hretry.
  { intros msg data. apply retryable_status; [done|]. rewrite Hret. simpl; tauto. }
  assert (fetchWithRetry cfg url options 1 net = (Returned r3, final)) as Hrun.
  { rewrite fetchWithRetry_eq.
    rewrite (attemptOnce_status url options net r1 Ht1 (status_not_ok r1 Hs1)).
    destruct (errorOf_status r1) as (m1 & d1 & ->). rewrite Hs1, Hretry, Hmax. simpl.
    set (n2 := retry_state cfg 1 _).
    rewrite fetchWithRetry_eq.
    assert (calls n2 = S (calls net)) as Hc2 by apply retry_state_calls.
    assert (transport n2 (calls n2) url options = Resolves r2) as Ht2'
      by (rewrite Hc2; exact Ht2).
    rewrite (attemptOnce_status url options n2 r2 Ht2' (status_not_ok r2 Hs2)).
    destruct (errorOf_status r2) as (m2 & d2 & ->). rewrite Hs2, Hretry, Hmax. simpl.
    set (n3 := retry_state cfg (1 + 1) _).
    rewrite fetchWithRetry_eq.
    assert (calls n3 = S (S (calls net))) as Hc3
      by (unfold n3; rewrite retry_state_calls; by rewrite Hc2).
    assert (transport n3 (calls n3) url options = Resolves r3) as Ht3'
      by (rewrite Hc3; exact Ht3).
    assert (ok r3 = true) as Hok3 by (unfold ok; by rewrite Hs3).
    rewrite (attemptOnce_ok url options n3 r3 Ht3' Hok3).
    f_equal. unfold final, n3, n2, retry_state, delay, delayMs_at, emit, Math_pow. simpl.
    rewrite Hdelay, Hmult. simpl. f_equal.
    by rewrite <- !app_assoc. }
  split; [exact Hrun|]. split; [unfold request; by rewrite Hrun|].
  split.
  { unfold calls, final. simpl. rewrite List.filter_app, length_app. simpl. lia. }
  split.
  { unfold sleeps, final. simpl. by rewrite omap_app. }
  intros cfg' attempt net' r Ht Hok.
  by rewrite fetchWithRetry_eq, (attemptOnce_ok url options net' r Ht Hok).
Qed.


Lemma C3_success_stops_retrying_witness :
  fst (request only_503 "/api/stats" JNull answers_503_503_200)
    = Parsed (BodyJson (JObj [("data", JStr "ok")]))
  /\ trace (snd (request only_503 "/api/stats" JNull answers_503_503_200))
      = [Fetched "/api/stats" JNull; Warned 1000 2; Slept 1000;
         Fetched "/api/stats" JNull; Warned 2000 3; Slept 2000;
         Fetched "/api/stats" JNull].
Proof.
  pose proof (C3_success_stops_retrying only_503 "/api/stats" JNull answers_503_503_200
                (plain 503) (plain 503)
                {| status := 200; contentType := Some "application/json";
                   jsonBody := Some (JObj [("data", JStr "ok")]); textBody := None |})
    as H.
  simpl in H.
  destruct H as (_ & Hreq & _); try reflexivity.
  - intros Hin. simpl in Hin. lia.
  - rewrite Hreq. split; reflexivity.
Defined.

End RetryTheory.

(** * Properties of the WebSocket client *)

Module StreamTheory.
Import WS.

(** ** Running the methods *)

(** Unfolding the methods on a state. *)
Ltac run_method :=
  unfold exec, connect, disconnect, reconnect, send, flushMessageQueue, handleOpen,
    handleMessage, handleError, handleClose, handleConnectionError, scheduleReconnect,
    startHeartbeat, stopHeartbeat, resetHeartbeat, heartbeat, getToken, buildUrl,
    setupEventHandlers, emit, on, off, console, setTimeout, setInterval, fresh_timer,
    clearTimer, new_WebSocket, socket_send, socket_close, stringify,
    update, effect, read, observe, throw, try_catch, with_this, with_world,
    mbind, M_bind, mret, M_ret;
  simpl.

Lemma emit_eq (eventName : string) (data : Payload) (s : Sys) :
  emit eventName data s = (Normal tt, printing [deliver s eventName data] s).
Proof. reflexivity. Qed.

Lemma console_eq (line : Console) (s : Sys) :
  console line s = (Normal tt, printing [Printed line] s).
Proof. reflexivity. Qed.

Lemma printing_printing (a b : list Obs) (s : Sys) :
  printing b (printing a s) = printing (a ++ b) s.
Proof.
  destruct s as [c w]. unfold printing, with_world, set_out. simpl.
  by rewrite app_assoc.
Qed.

Lemma skeleton_printing (obs : list Obs) (s : Sys) :
  skeleton (printing obs s) = skeleton s.
Proof. reflexivity. Qed.

(** ** Lists and timers *)

Lemma filter_sublist {A} (p : A -> bool) (l : list A) : List.filter p l `sublist_of` l.
Proof.
  induction l as [|x l IH]; simpl; [constructor|].
  destruct (p x); by constructor.
Qed.

Lemma filter_filter_or {A} (p q : A -> bool) (l : list A) :
  List.filter (fun x => negb (q x)) (List.filter (fun x => negb (p x)) l)
  = List.filter (fun x => negb (p x || q x)) l.
Proof.
  induction l as [|x l IH]; simpl; [done|].
  destruct (p x); simpl; [exact IH|].
  destruct (q x); simpl; by rewrite IH.
Qed.

Lemma filter_all {A} (l : list A) : List.filter (fun _ => true) l = l.
Proof. induction l as [|x l IH]; simpl; [done | by rewrite IH]. Qed.

Lemma sublist_Forall {A} (P : A -> Prop) (l1 l2 : list A) :
  l1 `sublist_of` l2 -> Forall P l2 -> Forall P l1.
Proof. intros Hs. induction Hs; inversion 1; subst; auto. Qed.

Lemma Forall_lt_succ (T : list Timer) (id : positive) :
  Forall (fun t => (timer_id t < id)%positive) T ->
  Forall (fun t => (timer_id t < Pos.succ id)%positive) T.
Proof. intros H. eapply Forall_impl; [exact H|]. intros t Ht. simpl in Ht. lia. Qed.

Lemma alter_end {A} (f : A -> A) (l : list A) (x : A) :
  alter f (length l) (l ++ [x]) = l ++ [f x].
Proof. induction l as [|y l IH]; simpl; [done | f_equal; exact IH]. Qed.

Lemma lookup_end {A} (l : list A) (x : A) : (l ++ [x]) !! length l = Some x.
Proof. induction l as [|y l IH]; simpl; [done | exact IH]. Qed.

Lemma alter_closed (i j : nat) (socks : list Socket) (k : Socket) :
  alter (set_readyState CLOSED) i socks !! j = Some k ->
  (j = i /\ readyState k = CLOSED) \/ (j <> i /\ socks !! j = Some k).
Proof.
  destruct (decide (j = i)) as [->|Hne]; intros H.
  - left. split; [done|]. rewrite list_lookup_alter_eq in H.
    destruct (socks !! i); simpl in H; [|done]. by injection H as <-.
  - right. split; [done|]. by rewrite list_lookup_alter_ne in H.
Qed.

Lemma take_prefix_trans {A} (l1 l2 l3 : list A) :
  take (length l1) l2 = l1 -> take (length l2) l3 = l2 -> take (length l1) l3 = l1.
Proof.
  intros H12 H23.
  assert (length l1 <= length l2)%nat as Hle.
  { rewrite <- H12 at 1. rewrite length_take. lia. }
  transitivity (take (length l1) (take (length l2) l3)).
  - rewrite take_take. f_equal. lia.
  - rewrite H23. exact H12.
Qed.

Lemma insert_sent_shape (i : nat) (k : Socket) (fs : list Frame) (socks : list Socket) :
  socks !! i = Some k ->
  (fun k => (readyState k, wired k)) <$> <[i := set_sent fs k]> socks
  = (fun k => (readyState k, wired k)) <$> socks.
Proof.
  intros Hk. rewrite list_fmap_insert. simpl.
  apply list_insert_id. rewrite list_lookup_fmap, Hk. done.
Qed.

Lemma count_failed_app (a b : list Obs) :
  count_failed (a ++ b) = (count_failed a + count_failed b)%nat.
Proof. unfold count_failed. by rewrite List.filter_app, length_app. Qed.

Lemma find_timer_last (T : list Timer) (t : Timer) :
  Forall (fun t' => (timer_id t' < timer_id t)%positive) T ->
  List.find (fun t' => Pos.eqb (timer_id t') (timer_id t)) (T ++ [t]) = Some t.
Proof.
  induction 1 as [|t' T Hlt _ IH]; simpl.
  - by rewrite Pos.eqb_refl.
  - destruct (Pos.eqb_spec (timer_id t') (timer_id t)) as [Heq|_]; [lia | exact IH].
Qed.

Lemma clear_timer_last (T : list Timer) (t : Timer) :
  Forall (fun t' => (timer_id t' < timer_id t)%positive) T ->
  List.filter (fun t' => negb (Pos.eqb (timer_id t') (timer_id t))) (T ++ [t]) = T.
Proof.
  induction 1 as [|t' T Hlt _ IH]; simpl.
  - by rewrite Pos.eqb_refl.
  - destruct (Pos.eqb_spec (timer_id t') (timer_id t)) as [Heq|_]; [lia|].
    simpl. by rewrite IH.
Qed.

Lemma find_timer_elem (id : positive) (w : World) (t : Timer) :
  find_timer id w = Some t -> t ∈ timers w.
Proof.
  unfold find_timer. intros H. apply List.find_some in H as [H _].
  by apply list_elem_of_In.
Qed.

Lemma clearTimer_fresh (s : Sys) (rest : list Timer) (t : Timer) :
  timers (world s) = rest ++ [t] ->
  Forall (fun t' => (timer_id t' < timer_id t)%positive) rest ->
  find_timer (timer_id t) (world s) = Some t
  /\ exec (clearTimer (timer_id t)) s = with_world (set_timers rest) s.
Proof.
  intros Ht Hfresh. split.
  - unfold find_timer. rewrite Ht. by apply find_timer_last.
  - destruct s as [c w]. unfold exec, clearTimer, effect, with_world. simpl in *.
    rewrite Ht. by rewrite clear_timer_last.
Qed.

(** ** Inbound messages *)






(** A frame that parses to [null] is logged and then dropped like a frame
    that does not parse. *)
Lemma null_frame_dropped (s : Sys) :
  handleMessage (Some JNull) s =
    (Normal tt, printing [Printed (LogMessage JNull); Printed (ErrParseFailed NullAccess)] s).
Proof.
  unfold handleMessage, try_catch. simpl.
  unfold mbind, M_bind. rewrite console_eq. unfold resetHeartbeat, mret, M_ret, throw.
  f_equal. exact (printing_printing [_] [_] s).
Qed.

Lemma handleMessage_skeleton (parsed : option Json) (s : Sys) :
  skeleton (exec (handleMessage parsed) s) = skeleton s.
Proof.
  destruct parsed as [data|]; [|reflexivity].
  unfold exec, handleMessage, try_catch, mbind, M_bind, resetHeartbeat, mret, M_ret.
  rewrite console_eq.
  destruct (get_prop "type" data) as [[ty|]|]; try reflexivity.
  destruct (truthy ty); [|reflexivity].
  destruct (channel ty); reflexivity.
Qed.

(** ** Outbound messages and the queue *)

Lemma send_when_not_open (m : Message) (s : Sys) :
  isConnected (this s) = false \/ ws (this s) = None ->
  send m s = (Normal false, enqueue m (printing [Printed WarnQueued] s)).
Proof.
  intros H. unfold send, mbind, M_bind, read. simpl.
  destruct H as [H|H]; rewrite H; [|destruct (isConnected (this s))]; reflexivity.
Qed.

Lemma sends_when_not_open (ms : list Message) (s : Sys) :
  isConnected (this s) = false \/ ws (this s) = None ->
  let s' := foldl (fun st m => exec (send m) st) s ms in
  messageQueue (this s') = messageQueue (this s) ++ ms
  /\ sockets (world s') = sockets (world s)
  /\ timers (world s') = timers (world s)
  /\ isConnected (this s') = isConnected (this s) /\ ws (this s') = ws (this s).
Proof.
  revert s. induction ms as [|m ms IH]; intros s H; cbv zeta; simpl.
  - by rewrite app_nil_r.
  - unfold exec at 2 4 6 8 10. rewrite (send_when_not_open m s H). simpl.
    pose proof (IH (enqueue m (printing [Printed WarnQueued] s)) H) as IH'.
    cbv zeta in IH'. destruct IH' as (Hq & Hs & Ht & Hc & Hw).
    rewrite Hq, Hs, Ht, Hc, Hw. simpl. by rewrite <- app_assoc.
Qed.

Lemma send_when_open (m : Message) (f : Frame) (i : nat) (k : Socket) (s : Sys) :
  isConnected (this s) = true -> ws (this s) = Some i ->
  sockets (world s) !! i = Some k -> readyState k = OPEN ->
  frame_of m = Some f ->
  send m s = (Normal true, transmit i f s).
Proof.
  intros Hc Hw Hk Hst Hf. unfold send, mbind, M_bind, read. simpl. rewrite Hc, Hw.
  unfold try_catch, mbind, M_bind.
  destruct m; simpl in Hf; try discriminate; injection Hf as <-; simpl;
    unfold socket_send, mbind, M_bind, observe; simpl; rewrite Hk, Hst; simpl;
    unfold transmit, effect, with_world; simpl; do 3 f_equal;
    apply list_eq; intros j; destruct (decide (j = i)) as [->|Hne];
    rewrite ?list_lookup_insert_eq, ?list_lookup_alter_eq, ?list_lookup_insert_ne,
      ?list_lookup_alter_ne, ?Hk by (done || (eapply lookup_lt_Some; eauto)); done.
Qed.

Lemma send_unserializable (m : Message) (i : nat) (s : Sys) :
  isConnected (this s) = true -> ws (this s) = Some i ->
  frame_of m = None ->
  send m s = (Normal false, enqueue m (printing [Printed (ErrSendFailed NotSerializable)] s)).
Proof.
  intros Hc Hw Hf. unfold send, mbind, M_bind, read. simpl. rewrite Hc, Hw.
  destruct m; simpl in Hf; try discriminate. reflexivity.
Qed.

Lemma transmit_transmitted (i : nat) (f : Frame) (fs : list Frame) (s : Sys) :
  transmitted i fs (transmit i f s) = transmitted i (f :: fs) s.
Proof.
  destruct s as [c w]. destruct w. unfold transmitted, transmit, with_world, set_sockets.
  simpl. do 2 f_equal.
  rewrite list_alter_alter_eq. apply list_alter_ext; [|done].
  intros k _. unfold set_sent. simpl. by rewrite <- app_assoc.
Qed.

Lemma transmitted_nil (i : nat) (s : Sys) : transmitted i [] s = s.
Proof.
  destruct s as [c w]. destruct w. unfold transmitted, with_world, set_sockets. simpl.
  do 2 f_equal. apply list_alter_id. intros k. destruct k. unfold set_sent. simpl.
  by rewrite app_nil_r.
Qed.

Lemma open_on_transmit (i : nat) (f : Frame) (q : list Message) (s : Sys) :
  open_on i s -> open_on i (transmit i f (with_this (set_messageQueue q) s)).
Proof.
  intros (Hc & Hw & k & Hk & Hst). split; [done|]. split; [done|].
  exists (set_sent (sent k ++ [f]) k). split; [|done].
  simpl. rewrite list_lookup_alter_eq, Hk. done.
Qed.

(** Draining a queue whose messages can all be transmitted. *)
Lemma flushLoop_all (i : nat) (ms : list Message) :
  forall (fs : list Frame) (bound : nat) (s : Sys),
    Forall2 (fun m f => frame_of m = Some f) ms fs ->
    (length ms <= bound)%nat ->
    open_on i s ->
    messageQueue (this s) = ms ->
    flushLoop bound s
      = (Normal tt, with_this (set_messageQueue []) (transmitted i fs s)).
Proof.
  induction ms as [|m ms IH]; intros fs bound s Hfs Hb Hopen Hq.
  - inversion Hfs; subst. rewrite transmitted_nil.
    destruct s as [c w]. destruct c. simpl in Hq. subst.
    destruct bound; reflexivity.
  - inversion Hfs as [|? f ? fs' Hf Hfs']; subst.
    destruct bound as [|bound]; [simpl in Hb; lia|].
    destruct Hopen as (Hc & Hw & k & Hk & Hst).
    simpl. unfold mbind, M_bind, read, update. simpl. rewrite Hq.
    rewrite (send_when_open m f i k (with_this (set_messageQueue ms) s)); try done.
    rewrite (IH fs' bound); try done.
    + rewrite transmit_transmitted. reflexivity.
    + simpl in Hb. lia.
    + apply open_on_transmit. split; [done|]. split; [done|]. by exists k.
Qed.

(** Draining stops at the first message that cannot be transmitted; send has
    put that message back at the end of the queue. *)
Lemma flushLoop_stops (i : nat) (pre : list Message) :
  forall (fs : list Frame) (m : Message) (post : list Message) (bound : nat) (s : Sys),
    Forall2 (fun m f => frame_of m = Some f) pre fs ->
    frame_of m = None ->
    (length pre < bound)%nat ->
    open_on i s ->
    messageQueue (this s) = pre ++ m :: post ->
    flushLoop bound s
      = (Normal tt,
         with_this (set_messageQueue (post ++ [m]))
           (printing [Printed (ErrSendFailed NotSerializable)] (transmitted i fs s))).
Proof.
  induction pre as [|m0 pre IH]; intros fs m post bound s Hfs Hm Hb Hopen Hq.
  - inversion Hfs; subst. rewrite transmitted_nil.
    destruct bound as [|bound]; [lia|].
    destruct Hopen as (Hc & Hw & k & Hk & Hst).
    simpl. unfold mbind, M_bind, read, update. simpl. rewrite Hq. simpl.
    rewrite (send_unserializable m i (with_this (set_messageQueue post) s)); try done.
  - inversion Hfs as [|? f ? fs' Hf Hfs']; subst.
    destruct bound as [|bound]; [lia|].
    destruct Hopen as (Hc & Hw & k & Hk & Hst).
    simpl. unfold mbind, M_bind, read, update. simpl. rewrite Hq. simpl.
    rewrite (send_when_open m0 f i k (with_this (set_messageQueue (pre ++ m :: post)) s));
      try done.
    rewrite (IH fs' m post bound); try done.
    + rewrite transmit_transmitted. reflexivity.
    + simpl in Hb. lia.
    + apply open_on_transmit. split; [done|]. split; [done|]. by exists k.
Qed.

Ltac run_send :=
  unfold exec, send, stringify, socket_send, console,
    update, effect, read, observe, throw, try_catch, with_this, with_world,
    mbind, M_bind, mret, M_ret;
  simpl.

Lemma send_skeleton (m : Message) (s : Sys) :
  exists b, send m s = (Normal b, exec (send m) s)
  /\ skeleton (exec (send m) s) = skeleton s
  /\ (b = true -> messageQueue (this (exec (send m) s)) = messageQueue (this s)).
Proof.
  destruct s as [c w].
  destruct c as [did hs cfg sock ing ed again n rt hb q tok].
  destruct w as [sto sec hst socks tms nxt o].
  destruct ed, sock as [i|]; try (eexists; run_send; repeat split; done).
  destruct m; run_send;
    try (eexists; repeat split; done);
    destruct (socks !! i) as [k|] eqn:Hk; simpl;
    try (eexists; repeat split; done);
    destruct (readyState k) eqn:Hst; simpl;
    try (eexists; repeat split; done);
    (eexists; split; [reflexivity|]; split; [|done];
     unfold skeleton; simpl; by rewrite (insert_sent_shape i k _ socks Hk)).
Qed.

Lemma flushLoop_skeleton (bound : nat) :
  forall s, exists r, flushLoop bound s = (Normal r, exec (flushLoop bound) s)
              /\ skeleton (exec (flushLoop bound) s) = skeleton s.
Proof.
  induction bound as [|bound IH]; intros s.
  - exists tt. unfold exec. simpl. unfold mbind, M_bind, read. simpl.
    destruct (messageQueue (this s)); done.
  - unfold exec. simpl. unfold mbind, M_bind, read, update. simpl.
    destruct (messageQueue (this s)) as [|m rest]; [by exists tt|].
    destruct (send_skeleton m (with_this (set_messageQueue rest) s)) as (b & Hs & Hk & _).
    rewrite Hs. destruct b.
    + destruct (IH (exec (send m) (with_this (set_messageQueue rest) s))) as (r & Hr & Hk').
      exists r. split; [rewrite Hr; reflexivity|].
      unfold exec in *. rewrite Hr. simpl. rewrite Hr in Hk'. simpl in Hk'.
      rewrite Hk', Hk. reflexivity.
    + exists tt. split; [reflexivity|]. simpl. unfold exec in Hk. rewrite Hs in Hk.
      simpl in Hk. rewrite Hk. reflexivity.
Qed.

(** flushMessageQueue satisfies the equation of the while loop of the
    source, with no bound on the number of iterations. *)
Lemma flushMessageQueue_eq (s : Sys) :
  exec flushMessageQueue s =
  match messageQueue (this s) with
  | [] => s
  | message :: rest =>
      match send message (with_this (set_messageQueue rest) s) with
      | (Normal true, s1) => exec flushMessageQueue s1
      | (_, s1) => s1
      end
  end.
Proof.
  unfold exec, flushMessageQueue, mbind, M_bind, read. simpl.
  destruct (messageQueue (this s)) as [|m rest] eqn:Hq.
  - simpl. unfold mbind, M_bind, read. simpl. by rewrite Hq.
  - simpl. unfold mbind, M_bind, read, update. simpl. rewrite Hq.
    destruct (send_skeleton m (with_this (set_messageQueue rest) s)) as (b & Hs & _ & Hsame).
    rewrite Hs. destruct b; [|done].
    rewrite (Hsame eq_refl). simpl.
    destruct s as [c w]. destruct c. reflexivity.
Qed.

(** When the connection opens on socket [i], a queue of messages that can
    all be transmitted goes out in the order of the queue, and the queue is
    empty afterwards. *)
Lemma flushMessageQueue_in_order (i : nat) (fs : list Frame) (s : Sys) :
  open_on i s ->
  Forall2 (fun m f => frame_of m = Some f) (messageQueue (this s)) fs ->
  flushMessageQueue s = (Normal tt, with_this (set_messageQueue []) (transmitted i fs s)).
Proof.
  intros Hopen Hfs. unfold flushMessageQueue, mbind, M_bind, read. simpl.
  by apply (flushLoop_all i (messageQueue (this s))).
Qed.

(** A message sent after the flush goes out behind the queued ones. *)
Lemma queued_before_new (i : nat) (fs : list Frame) (m : Message) (f : Frame) (s : Sys) :
  open_on i s ->
  Forall2 (fun m f => frame_of m = Some f) (messageQueue (this s)) fs ->
  frame_of m = Some f ->
  exec (send m) (exec flushMessageQueue s)
    = with_this (set_messageQueue []) (transmitted i (fs ++ [f]) s).
Proof.
  intros Hopen Hfs Hf. unfold exec at 2. rewrite (flushMessageQueue_in_order i fs s Hopen Hfs).
  simpl. destruct Hopen as (Hc & Hw & k & Hk & Hst).
  unfold exec.
  rewrite (send_when_open m f i (set_sent (sent k ++ fs) k)
             (with_this (set_messageQueue []) (transmitted i fs s))); try done.
  - simpl. destruct s as [c w]. destruct w. unfold transmit, transmitted, with_this, with_world,
      set_sockets. simpl. do 2 f_equal.
    rewrite list_alter_alter_eq. apply list_alter_ext; [|done].
    intros k0 _. unfold set_sent. simpl. by rewrite <- app_assoc.
  - simpl. by rewrite list_lookup_alter_eq, Hk.
Qed.

(** The flush stops at the first message that cannot be transmitted, and
    that message is then the last one of the queue. *)
Lemma flushMessageQueue_requeues_last (i : nat) (pre post : list Message) (m : Message)
    (fs : list Frame) (s : Sys) :
  open_on i s ->
  messageQueue (this s) = pre ++ m :: post ->
  Forall2 (fun m f => frame_of m = Some f) pre fs ->
  frame_of m = None ->
  flushMessageQueue s
    = (Normal tt,
       with_this (set_messageQueue (post ++ [m]))
         (printing [Printed (ErrSendFailed NotSerializable)] (transmitted i fs s))).
Proof.
  intros Hopen Hq Hfs Hm. unfold flushMessageQueue, mbind, M_bind, read. simpl.
  apply (flushLoop_stops i pre fs m post); try done.
  rewrite Hq, length_app. simpl. lia.
Qed.

(** C4 at a failing input: three messages are sent before the connection is
    open, the first one a value JSON.stringify throws on. When the socket
    opens, the flush takes the first message off the queue, its transmission
    fails, and send puts it back at the end of the queue: the queue is then
    b, c, first instead of first, b, c. After the next reconnect b and c are
    transmitted and the first message is queued behind them again. *)
Theorem C4_failed_message_requeued_last :
  view <$> run [CallSend MsgCyclic; CallSend (MsgString "b"); CallSend (MsgString "c");
                CallConnect; SocketOpens 0] fresh
    = Some {| v_ws := Some 0%nat; v_isConnecting := false; v_isConnected := true;
              v_shouldReconnect := true; v_reconnectAttempts := 0;
              v_messageQueue := [MsgString "b"; MsgString "c"; MsgCyclic];
              v_sockets := [(OPEN, [])];
              v_timers := [Interval 1 30000] |}
  /\ view <$> run [CallSend MsgCyclic; CallSend (MsgString "b"); CallSend (MsgString "c");
                   CallConnect; SocketOpens 0; SocketCloses 0; TimerFires 2;
                   SocketOpens 1] fresh
    = Some {| v_ws := Some 1%nat; v_isConnecting := false; v_isConnected := true;
              v_shouldReconnect := true; v_reconnectAttempts := 0;
              v_messageQueue := [MsgCyclic];
              v_sockets := [(CLOSED, []); (OPEN, [TextFrame "b"; TextFrame "c"])];
              v_timers := [Interval 3 30000] |}.
Proof. split; vm_compute; reflexivity. Qed.

Lemma handleOpen_skeleton (s : Sys) :
  skeleton (exec handleOpen s) = skeleton_opened (skeleton s).
Proof.
  unfold exec, handleOpen, flushMessageQueue. unfold mbind, M_bind at 1 2 3 4 5.
  unfold console, effect, update, read. simpl. unfold M_bind at 1. simpl.
  match goal with |- context [flushLoop ?b ?st] =>
    destruct (flushLoop_skeleton b st) as (r & Hr & Hk); rewrite Hr; set (s1 := st) in *
  end.
  destruct (exec (flushLoop _) s1) as [c2 w2].
  destruct c2 as [did hs cfg sock ing ed again n rt hb q tok].
  destruct w2 as [sto sec hst socks tms nxt o].
  unfold skeleton in Hk. simpl in Hk. injection Hk; intros; subst.
  unfold skeleton_opened, skeleton. simpl.
  match goal with H : _ <$> socks = _ |- _ => rewrite <- H end.
  destruct (heartbeatTimer (this s)) as [hb|]; run_method; reflexivity.
Qed.

Lemma heartbeat_skeleton (s : Sys) : skeleton (exec heartbeat s) = skeleton s.
Proof.
  destruct s as [c w].
  destruct c as [did hs cfg sock ing ed again n rt hb q tok].
  destruct w as [sto sec hst socks tms nxt o].
  destruct ed, sock as [i|]; try reflexivity.
  unfold exec, heartbeat, socket_send, mbind, M_bind, read, observe, effect, throw, mret,
    M_ret, with_world. simpl.
  destruct (socks !! i) as [k|] eqn:Hk; [|reflexivity]. simpl.
  destruct (readyState k); try reflexivity.
  unfold skeleton. simpl. by rewrite (insert_sent_shape i k _ socks Hk).
Qed.

(** ** Heartbeat, close and the scheduling of a reconnect *)

Lemma stopHeartbeat_none (s : Sys) :
  heartbeatTimer (this s) = None -> exec stopHeartbeat s = s.
Proof.
  intros H. destruct s as [c w]. unfold exec, stopHeartbeat, mbind, M_bind, read. simpl in *.
  by rewrite H.
Qed.

Lemma stopHeartbeat_timers (s : Sys) :
  timers (world (exec stopHeartbeat s)) `sublist_of` timers (world s).
Proof.
  destruct s as [c w]. unfold exec, stopHeartbeat, mbind, M_bind, read. simpl.
  destruct (heartbeatTimer c); simpl; [apply filter_sublist | done].
Qed.

Lemma stopHeartbeat_mark (i : nat) (st : ReadyState) (s : Sys) :
  timers (world (exec stopHeartbeat (mark i st s))) = timers (world (exec stopHeartbeat s)).
Proof.
  destruct s as [c w].
  unfold exec, stopHeartbeat, clearTimer, effect, update, read, mbind, M_bind, mret, M_ret,
    mark, with_world, with_this. simpl.
  by destruct (heartbeatTimer c).
Qed.

Lemma only_heartbeat_cleared (s : Sys) :
  (forall t, t ∈ timers (world s) -> heartbeatTimer (this s) = Some (timer_id t)) ->
  timers (world (exec stopHeartbeat s)) = [].
Proof.
  intros Hall. destruct s as [c w].
  unfold exec, stopHeartbeat, clearTimer, effect, update, read, mbind, M_bind, mret, M_ret,
    with_world, with_this. simpl in *.
  destruct (heartbeatTimer c) as [h|] eqn:Hh; simpl.
  - induction (timers w) as [|t l IH]; simpl; [done|].
    assert (timer_id t = h) as -> by (specialize (Hall t ltac:(left)); congruence).
    rewrite Pos.eqb_refl. simpl. apply IH. intros t' Ht'. apply Hall. by right.
  - destruct (timers w) as [|t l]; [done|].
    specialize (Hall t ltac:(left)). discriminate.
Qed.

Lemma scheduleReconnect_schedules (s : Sys) :
  Z.of_nat (reconnectAttempts (this s)) < maxAttempts (config (this s)) ->
  let n := reconnectAttempts (this s) in
  let d := reconnectDelay (config (this s)) n in
  let id := next_timer (world s) in
  scheduleReconnect s =
    (Normal tt,
     {| this := set_reconnectTimer (Some id) (set_reconnectAttempts (S n) (this s));
        world := set_timers (timers (world s) ++ [Timeout id d])
                   (set_next_timer (Pos.succ id)
                      (set_out (out (world s) ++ [Printed (LogReconnectIn d (S n))])
                         (world s))) |}).
Proof.
  intros Hlt n d id. destruct s as [c w]. destruct c, w. simpl in *.
  run_method.
  assert ((maxAttempts config0 <=? Z.of_nat reconnectAttempts0) = false) as ->
    by (apply Z.leb_gt; lia).
  reflexivity.
Qed.

Lemma scheduleReconnect_gives_up (s : Sys) :
  maxAttempts (config (this s)) <= Z.of_nat (reconnectAttempts (this s)) ->
  scheduleReconnect s =
    (Normal tt, printing [Printed LogGiveUp; deliver s "onReconnectFailed" NoData] s).
Proof.
  intros Hle. destruct s as [c w]. destruct c, w. simpl in *.
  run_method.
  assert ((maxAttempts config0 <=? Z.of_nat reconnectAttempts0) = true) as ->
    by (apply Z.leb_le; lia).
  unfold printing, deliver, with_world, set_out. simpl. by rewrite <- app_assoc.
Qed.

(** The effect of handleClose when a reconnect is due. *)
Lemma handleClose_schedules (s : Sys) :
  shouldReconnect (this s) = true ->
  enabled (config (this s)) = true ->
  Z.of_nat (reconnectAttempts (this s)) < maxAttempts (config (this s)) ->
  let n := reconnectAttempts (this s) in
  let d := reconnectDelay (config (this s)) n in
  let id := next_timer (world s) in
  let s' := exec handleClose s in
  reconnectAttempts (this s') = S n
  /\ reconnectTimer (this s') = Some id
  /\ next_timer (world s') = Pos.succ id
  /\ timers (world s') = timers (world (exec stopHeartbeat s)) ++ [Timeout id d]
  /\ timers (world (exec stopHeartbeat s)) `sublist_of` timers (world s)
  /\ sockets (world s') = sockets (world s)
  /\ isConnecting (this s') = false /\ isConnected (this s') = false
  /\ heartbeatTimer (this s') = None
  /\ shouldReconnect (this s') = true /\ config (this s') = config (this s).
Proof.
  intros Hre Hen Hlt n d id s'. subst s' n d id.
  destruct s as [c w]. destruct c as [? ? cfg ? ? ? ? n ? hb ? ?], w. simpl in *. subst.
  assert ((maxAttempts cfg <=? Z.of_nat n) = false) as Hgo by (apply Z.leb_gt; lia).
  destruct hb as [hb|]; run_method; rewrite Hen; simpl; rewrite Hgo; simpl;
    repeat split; try reflexivity; try apply filter_sublist.
Qed.

Lemma handleClose_outcome (s : Sys) :
  shouldReconnect (this s) = true ->
  enabled (config (this s)) = true ->
  Forall (fun t => (timer_id t < next_timer (world s))%positive) (timers (world s)) ->
  closure_outcome (timers (world (exec stopHeartbeat s))) (reconnectAttempts (this s))
    (count_failed (out (world s))) (config (this s)) (sockets (world s))
    (exec handleClose s).
Proof.
  intros Hag Hen Hfresh.
  pose proof (sublist_Forall _ _ _ (stopHeartbeat_timers s) Hfresh) as Hfresh'.
  destruct s as [c w].
  destruct c as [did hs cfg sock ing ed again n rt hb q tok].
  destruct w as [sto sec hst socks tms nxt o].
  simpl in *. subst. unfold closure_outcome.
  destruct (decide (Z.of_nat n < maxAttempts cfg)) as [Hlt|Hge].
  - assert ((maxAttempts cfg <=? Z.of_nat n) = false) as Hgo by (apply Z.leb_gt; lia).
    destruct hb as [hb|];
      unfold exec, stopHeartbeat, clearTimer, effect, update, read, mbind, M_bind, mret,
        M_ret, with_world, with_this in Hfresh'; simpl in Hfresh';
      run_method; rewrite Hen; simpl; rewrite Hgo; simpl.
    all: split; [done|]; split; [done|]; split; [done|]; split; [done|]; split;
      [constructor; simpl; try done;
       eexists _, (reconnectDelay cfg n);
       (split; [reflexivity|]); (split; [reflexivity|]);
       (split; [exact Hfresh' | reflexivity])
      |rewrite !count_failed_app; unfold count_failed; simpl; lia].
  - assert ((maxAttempts cfg <=? Z.of_nat n) = true) as Hgo by (apply Z.leb_le; lia).
    destruct hb as [hb|]; run_method; rewrite Hen; simpl; rewrite Hgo; simpl;
      repeat split; try done;
      rewrite !count_failed_app; unfold count_failed; simpl; lia.
Qed.

Lemma handleConnectionError_outcome (error : Exn) (s : Sys) :
  shouldReconnect (this s) = true ->
  enabled (config (this s)) = true ->
  heartbeatTimer (this s) = None ->
  isConnecting (this s) = false -> isConnected (this s) = false ->
  Forall (fun t => (timer_id t < next_timer (world s))%positive) (timers (world s)) ->
  closure_outcome (timers (world s)) (reconnectAttempts (this s))
    (count_failed (out (world s))) (config (this s)) (sockets (world s))
    (exec (handleConnectionError error) s).
Proof.
  intros Hag Hen Hhb Hing Hed Hfresh.
  destruct s as [c w].
  destruct c as [did hs cfg sock ing ed again n rt hb q tok].
  destruct w as [sto sec hst socks tms nxt o].
  simpl in *. subst. unfold closure_outcome.
  destruct (decide (Z.of_nat n < maxAttempts cfg)) as [Hlt|Hge].
  - assert ((maxAttempts cfg <=? Z.of_nat n) = false) as Hgo by (apply Z.leb_gt; lia).
    run_method. rewrite Hen. simpl. rewrite Hgo. simpl.
    split; [done|]. split; [done|]. split; [done|]. split; [done|]. split.
    + constructor; simpl; try done.
      exists nxt. exists (reconnectDelay cfg n).
      split; [reflexivity|]. split; [reflexivity|]. split; [exact Hfresh | reflexivity].
    + rewrite !count_failed_app. unfold count_failed. simpl. lia.
  - assert ((maxAttempts cfg <=? Z.of_nat n) = true) as Hgo by (apply Z.leb_le; lia).
    run_method. rewrite Hen. simpl. rewrite Hgo. simpl.
    repeat split; try done.
    rewrite !count_failed_app. unfold count_failed. simpl. lia.
Qed.

(** handleClose on a client that does not want to reconnect: the flags are
    cleared and the heartbeat stopped; nothing is scheduled. *)
Lemma handleClose_quiet (s : Sys) :
  shouldReconnect (this s) = false ->
  let s' := exec handleClose s in
  shouldReconnect (this s') = false
  /\ sockets (world s') = sockets (world s)
  /\ timers (world s') `sublist_of` timers (world s)
  /\ isConnecting (this s') = false /\ isConnected (this s') = false
  /\ ws (this s') = ws (this s).
Proof.
  intros Hag.
  destruct s as [c w].
  destruct c as [did hs cfg sock ing ed again n rt hb q tok].
  destruct w as [sto sec hst socks tms nxt o].
  simpl in *. subst. cbv zeta.
  destruct hb as [hb|]; run_method; repeat split; try done; apply filter_sublist.
Qed.

Lemma handleClose_frame (s : Sys) :
  let s' := exec handleClose s in
  sockets (world s') = sockets (world s)
  /\ ws (this s') = ws (this s)
  /\ isConnecting (this s') = false /\ isConnected (this s') = false.
Proof.
  destruct s as [c w].
  destruct c as [did hs cfg sock ing ed again n rt hb q tok].
  destruct w as [sto sec hst socks tms nxt o].
  cbv zeta.
  destruct hb as [hb|]; run_method;
    (destruct (again && enabled cfg); simpl;
     [destruct (maxAttempts cfg <=? Z.of_nat n); simpl|]); done.
Qed.

Lemma handleConnectionError_frame (error : Exn) (s : Sys) :
  let s' := exec (handleConnectionError error) s in
  sockets (world s') = sockets (world s)
  /\ ws (this s') = ws (this s)
  /\ isConnecting (this s') = isConnecting (this s)
  /\ deliver s "onError" (ErrorObject error) ∈ out (world s').
Proof.
  destruct s as [c w].
  destruct c as [did hs cfg sock ing ed again n rt hb q tok].
  destruct w as [sto sec hst socks tms nxt o].
  cbv zeta. run_method.
  destruct (again && enabled cfg); simpl;
    [destruct (maxAttempts cfg <=? Z.of_nat n); simpl|];
    repeat split; try done; unfold deliver; simpl;
    rewrite !elem_of_app, !elem_of_cons; tauto.
Qed.

Lemma handleConnectionError_flags (error : Exn) (s : Sys) :
  isConnected (this (exec (handleConnectionError error) s)) = isConnected (this s).
Proof.
  destruct s as [c w].
  destruct c as [did hs cfg sock ing ed again n rt hb q tok].
  destruct w as [sto sec hst socks tms nxt o].
  run_method.
  destruct (again && enabled cfg); simpl;
    [destruct (maxAttempts cfg <=? Z.of_nat n); simpl|]; done.
Qed.

Lemma handleError_eq (s : Sys) :
  exec handleError s = printing [Printed ErrSocket; deliver s "onError" ErrorEvent] s.
Proof.
  unfold exec, handleError, mbind, M_bind. rewrite console_eq, emit_eq.
  simpl. by rewrite printing_printing.
Qed.

Lemma dispatch_close (i : nat) (s s' : Sys) :
  dispatch (SocketCloses i) s = Some s' ->
  s' = exec handleClose (mark i CLOSED s)
  /\ exists k, sockets (world s) !! i = Some k /\ readyState k <> CLOSED /\ wired k = true.
Proof.
  unfold dispatch. destruct (sockets (world s) !! i) as [k|] eqn:Hk; simpl; [|done].
  destruct (readyState k) eqn:Hst, (wired k) eqn:Hw; intros [= <-]; split; try done;
    exists k; rewrite Hst; done.
Qed.

(** ** Connecting *)

Lemma getToken_exec (s : Sys) :
  let r := refreshed (storage (world s)) (token (this s)) in
  exists v, getToken s =
    (Normal v, {| this := set_token (fst r) (this s);
                  world := set_out (out (world s) ++ snd r) (world s) |}).
Proof.
  destruct s as [c w].
  destruct c as [did hs cfg sock ing ed again n rt hb q tok].
  destruct w as [sto sec hst socks tms nxt o].
  simpl. unfold refreshed.
  destruct sto as [| |user]; run_method; try rewrite app_nil_r; eauto.
  destruct (get_prop "access_token" user) as [a|]; [|simpl; eauto].
  destruct (get_prop "token" user) as [b|]; simpl; try rewrite app_nil_r; eauto.
Qed.

Lemma refreshed_quiet (item : StorageItem) (tok : JsVal) :
  count_failed (snd (refreshed item tok)) = 0%nat.
Proof.
  unfold refreshed. destruct item as [| |user]; try reflexivity.
  destruct (get_prop "access_token" user); [|reflexivity].
  destruct (get_prop "token" user); reflexivity.
Qed.

Lemma connect_idle_eq (s : Sys) :
  isConnecting (this s) = false -> isConnected (this s) = false ->
  exec connect s = exec open_transport (exec getToken (with_this (set_isConnecting true) s)).
Proof.
  intros Hing Hed.
  destruct (getToken_exec (with_this (set_isConnecting true) s)) as [v Hv].
  unfold exec at 1 2. unfold connect, mbind, M_bind, read, update. simpl.
  rewrite Hing, Hed. simpl. fold open_transport.
  unfold exec. rewrite Hv. reflexivity.
Qed.

Lemma connect_busy (s : Sys) :
  isConnecting (this s) || isConnected (this s) = true ->
  connect s = (Normal tt, printing [Printed LogAlreadyConnected] s).
Proof.
  intros Hbusy. unfold connect, mbind, M_bind, read. simpl. by rewrite Hbusy.
Qed.

(** With a token the try block opens one socket and wires it. *)
Lemma open_transport_opens (s : Sys) (tok : Json) :
  token (this s) = Some tok -> truthy tok = true ->
  let u := {| protocol := if secure (world s) then "wss:" else "ws:";
              host := ws_host (world s); debate := debateId (this s);
              tokenParam := tok |} in
  open_transport s =
    (Normal tt,
     {| this := set_ws (Some (length (sockets (world s)))) (this s);
        world := set_sockets
                   (sockets (world s) ++
                      [{| url := u; readyState := CONNECTING; wired := true; sent := [] |}])
                   (set_out (out (world s) ++ [Printed (LogConnecting u)]) (world s)) |}).
Proof.
  intros Htok Htruthy u. subst u.
  destruct s as [c w].
  destruct c as [did hs cfg sock ing ed again n rt hb q tk].
  destruct w as [sto sec hst socks tms nxt o].
  simpl in *. subst. unfold open_transport. run_method. rewrite Htruthy. simpl.
  by rewrite alter_end.
Qed.

(** Without a token the try block throws before a socket is made, and the
    catch hands the error to handleConnectionError. *)
Lemma open_transport_fails (s : Sys) :
  truthy_val (token (this s)) = false ->
  open_transport s =
    handleConnectionError MissingToken
      (with_this (set_isConnecting false)
         (printing [Printed (ErrConnectFailed MissingToken)] s)).
Proof.
  intros Hfalse.
  destruct s as [c w].
  destruct c as [did hs cfg sock ing ed again n rt hb q tk].
  destruct w as [sto sec hst socks tms nxt o].
  simpl in *. unfold open_transport.
  destruct tk as [j|]; simpl in Hfalse; run_method; [rewrite Hfalse|]; reflexivity.
Qed.

(** Without a credential connect() reports the missing token through
    onError and opens no socket. *)
Lemma connect_without_token (s : Sys) :
  isConnecting (this s) = false -> isConnected (this s) = false ->
  truthy_val (credential s) = false ->
  let s' := exec connect s in
  sockets (world s') = sockets (world s)
  /\ ws (this s') = ws (this s)
  /\ isConnecting (this s') = false
  /\ Emit "onError" (ErrorObject MissingToken) (eventHandlers (this s) !! "onError")
       ∈ out (world s').
Proof.
  intros Hing Hed Hcred. cbv zeta.
  rewrite (connect_idle_eq s Hing Hed).
  destruct (getToken_exec (with_this (set_isConnecting true) s)) as [v Hv].
  unfold exec at 2 4 6 8. rewrite Hv. simpl.
  match goal with |- context [exec open_transport ?st] => set (s1 := st) end.
  unfold exec. rewrite (open_transport_fails s1 Hcred).
  match goal with |- context [handleConnectionError MissingToken ?st] => set (s2 := st) end.
  destruct (handleConnectionError_frame MissingToken s2) as (Hs & Hw & Hc & Hin).
  unfold exec in Hs, Hw, Hc, Hin.
  rewrite Hs, Hw, Hc. repeat split; try done.
Qed.

(** C9 at a failing input: the client is created while a token is stored;
    the stored user is then removed (logout). getToken finds nothing and
    leaves [this.token] as it was, so connect() builds the URL with the old
    token and opens a socket. *)
Theorem C9_stale_token_opens_transport :
  storage (world (with_world (set_storage NoItem) fresh)) = NoItem
  /\ fst (getToken (with_world (set_storage NoItem) fresh)) = Normal null
  /\ (fun s => (url <$> sockets (world s), isConnecting (this s), out (world s)))
       <$> run [StorageChanges NoItem; CallConnect] fresh
     = Some ([{| protocol := "ws:"; host := "localhost"; debate := "42";
                 tokenParam := JStr "tok" |}],
             true,
             [Printed (LogConnecting {| protocol := "ws:"; host := "localhost";
                                        debate := "42"; tokenParam := JStr "tok" |})]).
Proof. repeat split; vm_compute; reflexivity. Qed.

(** ** The delay of a reconnect and the end of the attempts *)




Lemma failed_attempt_step (T : list Timer) (s : Sys) :
  waiting T (reconnectAttempts (this s)) s ->
  exists s',
    failed_attempt s = Some s'
    /\ config (this s') = config (this s)
    /\ take (length (sockets (world s))) (sockets (world s')) = sockets (world s)
    /\ (forall j k, (length (sockets (world s)) <= j)%nat ->
                    sockets (world s') !! j = Some k -> readyState k = CLOSED)
    /\ isConnecting (this s') = false
    /\ shouldReconnect (this s') = true
    /\ if decide (Z.of_nat (reconnectAttempts (this s)) < maxAttempts (config (this s)))
       then waiting T (S (reconnectAttempts (this s))) s'
            /\ count_failed (out (world s')) = count_failed (out (world s))
       else reconnectAttempts (this s') = reconnectAttempts (this s)
            /\ timers (world s') = T
            /\ count_failed (out (world s')) = S (count_failed (out (world s))).
Proof.
  intros [Hag Hen [Hing Hed] Hhb _ (id & d & Hrt & Htm & Hfresh & Hnext)].
  unfold failed_attempt. rewrite Hrt. simpl.
  destruct (clearTimer_fresh s T (Timeout id d) Htm Hfresh) as [Hfind Hclear].
  simpl in Hfind, Hclear. rewrite Hfind. simpl. rewrite Hclear.
  set (s0 := with_world (set_timers T) s).
  rewrite (connect_idle_eq s0 Hing Hed).
  set (r := refreshed (storage (world s)) (token (this s))).
  pose proof (refreshed_quiet (storage (world s)) (token (this s))) as Hquiet.
  fold r in Hquiet.
  set (s1 := {| this := set_token (fst r) (set_isConnecting true (this s));
                world := set_out (out (world s) ++ snd r) (set_timers T (world s)) |}).
  assert (exec getToken (with_this (set_isConnecting true) s0) = s1) as ->.
  { destruct (getToken_exec (with_this (set_isConnecting true) s0)) as [v Hv].
    unfold exec. rewrite Hv. reflexivity. }
  assert (Forall (fun t => (timer_id t < next_timer (world s))%positive) T) as Hfresh'
    by (rewrite Hnext; by apply Forall_lt_succ).
  assert (truthy_val (fst r) = false ->
          closure_outcome T (reconnectAttempts (this s))
            (count_failed (out (world s))) (config (this s)) (sockets (world s))
            (exec open_transport s1))
    as Hfail.
  { intros Hfalse.
    unfold exec. rewrite (open_transport_fails s1 Hfalse).
    match goal with |- context [handleConnectionError MissingToken ?st] => set (s3 := st) end.
    pose proof (handleConnectionError_outcome MissingToken s3) as Hout.
    simpl in Hout. specialize (Hout Hag Hen Hhb eq_refl Hed Hfresh').
    rewrite !count_failed_app, Hquiet in Hout.
    replace (count_failed (out (world s)) + 0 +
             count_failed [Printed (ErrConnectFailed MissingToken)])%nat
      with (count_failed (out (world s))) in Hout by (unfold count_failed; simpl; lia).
    exact Hout. }
  destruct (fst r) as [tok|] eqn:Hr; [destruct (truthy tok) eqn:Htok|].
  - (* a socket is opened, fails and closes *)
    assert (token (this s1) = Some tok) as Htk by (subst s1; reflexivity).
    change (exec open_transport s1) with (snd (open_transport s1)).
    rewrite (open_transport_opens s1 tok Htk Htok).
    simpl.
    rewrite lookup_end. simpl. rewrite handleError_eq. simpl.
    rewrite lookup_end. simpl.
    match goal with |- context [exec handleClose ?st] => set (s3 := st) end.
    pose proof (handleClose_outcome s3) as Hout.
    rewrite (stopHeartbeat_none s3 Hhb) in Hout.
    simpl in Hout. rewrite alter_end in Hout. simpl in Hout.
    specialize (Hout Hag Hen Hfresh').
    destruct Hout as (Hcfg & Hsocks & Hidle & Hagain & Hrest).
    eexists. split; [reflexivity|].
    split; [exact Hcfg|]. split.
    { rewrite Hsocks. by rewrite take_app_length. }
    split.
    { intros j k Hj Hk. rewrite Hsocks in Hk.
      destruct (decide (j = length (sockets (world s)))) as [->|Hne].
      - rewrite lookup_end in Hk. by injection Hk as <-.
      - rewrite lookup_ge_None_2 in Hk; [done|]. rewrite length_app. simpl. lia. }
    split; [exact Hidle|]. split; [exact Hagain|].
    destruct (decide (Z.of_nat (reconnectAttempts (this s)) < maxAttempts (config (this s))));
      [destruct Hrest as [Hw Hc]; split; [exact Hw|]
      |destruct Hrest as (Hn & Ht & Hc); split; [exact Hn|split; [exact Ht|]]];
      rewrite Hc, !count_failed_app, Hquiet; unfold count_failed; simpl; lia.
  - (* no token: connect() fails at once *)
    destruct (Hfail Htok) as (Hcfg & Hsocks & Hidle & Hagain & Hrest). rewrite Hidle.
    exists (exec open_transport s1). split; [reflexivity|].
    split; [exact Hcfg|]. split.
    { rewrite Hsocks. apply take_ge. lia. }
    split.
    { intros j k Hj Hk. rewrite Hsocks in Hk.
      rewrite lookup_ge_None_2 in Hk; [done|lia]. }
    split; [exact Hidle|]. split; [exact Hagain|]. exact Hrest.
  - destruct (Hfail eq_refl) as (Hcfg & Hsocks & Hidle & Hagain & Hrest). rewrite Hidle.
    exists (exec open_transport s1). split; [reflexivity|].
    split; [exact Hcfg|]. split.
    { rewrite Hsocks. apply take_ge. lia. }
    split.
    { intros j k Hj Hk. rewrite Hsocks in Hk.
      rewrite lookup_ge_None_2 in Hk; [done|lia]. }
    split; [exact Hidle|]. split; [exact Hagain|]. exact Hrest.
Qed.

(** Exhausting the attempts: from a client that waits for attempt number
    [k] out of [k + m], [m + 1] failed attempts end with the client giving
    up, exactly once. *)
Lemma failed_attempts_exhaust (T : list Timer) (m : nat) :
  forall s : Sys,
    waiting T (reconnectAttempts (this s)) s ->
    maxAttempts (config (this s)) = Z.of_nat (reconnectAttempts (this s) + m) ->
    exists s',
      failed_attempts (S m) s = Some s'
      /\ config (this s') = config (this s)
      /\ take (length (sockets (world s))) (sockets (world s')) = sockets (world s)
      /\ (forall j k, (length (sockets (world s)) <= j)%nat ->
                      sockets (world s') !! j = Some k -> readyState k = CLOSED)
      /\ isConnecting (this s') = false
      /\ shouldReconnect (this s') = true
      /\ reconnectAttempts (this s') = (reconnectAttempts (this s) + m)%nat
      /\ timers (world s') = T
      /\ count_failed (out (world s')) = S (count_failed (out (world s))).
Proof.
  induction m as [|m IH]; intros s Hw Hmax.
  - destruct (failed_attempt_step T s Hw)
      as (s' & Hrun & Hcfg & Htake & Hclosed & Hidle & Hag & Hrest).
    destruct (decide _) as [Hlt|_] in Hrest; [lia|].
    destruct Hrest as (Hn & Ht & Hc).
    exists s'. simpl. rewrite Hrun. simpl.
    repeat split; try done. lia.
  - destruct (failed_attempt_step T s Hw)
      as (s1 & Hrun & Hcfg & Htake & Hclosed & Hidle & Hag & Hrest).
    destruct (decide _) as [_|Hge] in Hrest; [|lia].
    destruct Hrest as [Hw1 Hc1].
    pose proof (w_attempts _ _ _ Hw1) as Hn1.
    rewrite <- Hn1 in Hw1.
    destruct (IH s1 Hw1) as (s' & Hrun' & Hcfg' & Htake' & Hclosed' & Hidle' & Hag' & Hn' & Ht' & Hc').
    { rewrite Hcfg, Hmax, Hn1. f_equal. lia. }
    exists s'. split.
    { change (failed_attempts (S (S m)) s) with (failed_attempt s ≫= failed_attempts (S m)).
      rewrite Hrun. exact Hrun'. }
    split; [congruence|]. split; [by eapply take_prefix_trans|]. split.
    { intros j k Hj Hk.
      destruct (decide (j < length (sockets (world s1)))%nat) as [Hlt|Hge].
      - apply (Hclosed j k Hj). rewrite <- Htake'. by rewrite lookup_take_lt.
      - apply (Hclosed' j k); [lia | done]. }
    split; [done|]. split; [done|]. split; [lia|]. split; [done|]. lia.
Qed.

Lemma all_closed_quiescent (s : Sys) :
  timers (world s) = [] ->
  (forall j k, sockets (world s) !! j = Some k -> readyState k = CLOSED) ->
  forall e, automatic e -> dispatch e s = None.
Proof.
  intros Ht Hcl e He.
  destruct e; simpl in He; try done; unfold dispatch.
  1-4: destruct (sockets (world s) !! i) as [k|] eqn:Hk; simpl; [|done];
       by rewrite (Hcl i k Hk).
  unfold find_timer. by rewrite Ht.
Qed.

Ltac run_disconnect :=
  unfold exec, disconnect, stopHeartbeat, clearTimer, socket_close,
    update, effect, read, observe, with_this, with_world, mbind, M_bind, mret, M_ret;
  simpl.

(** disconnect() never throws; afterwards the client holds no socket and no
    timer, and all its flags are clear. *)
Lemma disconnect_returns (s : Sys) :
  disconnect s = (Normal tt, exec disconnect s)
  /\ shouldReconnect (this (exec disconnect s)) = false
  /\ reconnectTimer (this (exec disconnect s)) = None
  /\ heartbeatTimer (this (exec disconnect s)) = None
  /\ ws (this (exec disconnect s)) = None
  /\ isConnecting (this (exec disconnect s)) = false
  /\ isConnected (this (exec disconnect s)) = false.
Proof.
  destruct s as [c w].
  destruct c as [did hs cfg sock ing ed again n rt hb q tok].
  destruct rt as [rt|], hb as [hb|], sock as [sock|]; run_disconnect; done.
Qed.

Lemma reconnect_eq (s : Sys) :
  exec reconnect s =
    exec connect
      (with_this (set_reconnectAttempts 0)
         (with_this (set_shouldReconnect true) (exec disconnect s))).
Proof.
  destruct (disconnect_returns s) as (Hd & _).
  unfold exec at 1. unfold reconnect, mbind, M_bind. rewrite Hd. reflexivity.
Qed.

(** C7: a closure the caller did not ask for, on a client that wants to
    reconnect and has made no attempt yet, followed by maxAttempts reconnect
    attempts that all fail. The sequence can run to its end; in it the
    reconnect-failed notification is emitted exactly once; no timer that the
    sequence set is left pending and every socket it opened is closed, so
    that on a client that had only this socket and its heartbeat nothing can
    happen any more unless a method is called; and reconnect() sets the
    counter back to 0 and calls connect(). *)
Theorem C7_reconnect_gives_up_once :
  forall (s : Sys) (i n : nat),
    shouldReconnect (this s) = true ->
    enabled (config (this s)) = true ->
    maxAttempts (config (this s)) = Z.of_nat n ->
    reconnectAttempts (this s) = 0%nat ->
    fresh_ids (world s) ->
    is_Some (dispatch (SocketCloses i) s) ->
    exists s',
      closure_sequence i n s = Some s'
      /\ count_failed (out (world s')) = S (count_failed (out (world s)))
      /\ timers (world s') = timers (world (exec stopHeartbeat s))
      /\ timers (world s') `sublist_of` timers (world s)
      /\ reconnectAttempts (this s') = n
      /\ (forall j k, (length (sockets (world s)) <= j)%nat ->
                      sockets (world s') !! j = Some k -> readyState k = CLOSED)
      /\ ((forall t, t ∈ timers (world s) -> heartbeatTimer (this s) = Some (timer_id t)) ->
          (forall j k, j <> i -> sockets (world s) !! j = Some k -> readyState k = CLOSED) ->
          forall e, automatic e -> dispatch e s' = None)
      /\ exec reconnect s' =
           exec connect
             (with_this (set_reconnectAttempts 0)
                (with_this (set_shouldReconnect true) (exec disconnect s'))).
Proof.
  intros s i n Hag Hen Hmax Hzero Hfresh [s1 Hclose].
  destruct (dispatch_close i s s1 Hclose) as [-> _].
  pose proof (handleClose_outcome (mark i CLOSED s) Hag Hen Hfresh) as Hout.
  rewrite stopHeartbeat_mark in Hout.
  set (s1 := exec handleClose (mark i CLOSED s)) in *.
  simpl in Hout. rewrite Hzero in Hout.
  destruct Hout as (Hcfg & Hsocks & Hidle & Hagain & Hrest).
  assert (exists s',
    failed_attempts n s1 = Some s'
    /\ count_failed (out (world s')) = S (count_failed (out (world s)))
    /\ timers (world s') = timers (world (exec stopHeartbeat s))
    /\ reconnectAttempts (this s') = n
    /\ take (length (sockets (world s1))) (sockets (world s')) = sockets (world s1)
    /\ (forall j k, (length (sockets (world s1)) <= j)%nat ->
                    sockets (world s') !! j = Some k -> readyState k = CLOSED))
    as (s' & Hrun & Hcount & Htimers & Hn & Htake & Hclosed).
  { destruct n as [|m].
    - destruct (decide _) as [Hlt|_] in Hrest; [rewrite Hmax in Hlt; simpl in Hlt; lia|].
      destruct Hrest as (Hn & Ht & Hc).
      exists s1. repeat split; try done.
      + apply take_ge. lia.
      + intros j k Hj Hk. rewrite lookup_ge_None_2 in Hk; [done|lia].
    - destruct (decide _) as [_|Hge] in Hrest; [|rewrite Hmax in Hge; lia].
      destruct Hrest as [Hw Hc].
      pose proof (w_attempts _ _ _ Hw) as Hn1. rewrite <- Hn1 in Hw.
      destruct (failed_attempts_exhaust _ m s1 Hw)
        as (s' & Hrun & _ & Htake & Hclosed & _ & _ & Hn & Ht & Hc').
      { rewrite Hcfg, Hmax, Hn1. f_equal. }
      exists s'. repeat split; try done; lia. }
  exists s'. split; [unfold closure_sequence; rewrite Hclose; exact Hrun|].
  split; [exact Hcount|]. split; [exact Htimers|].
  split; [rewrite Htimers; apply stopHeartbeat_timers|].
  split; [exact Hn|].
  assert (length (sockets (world s1)) = length (sockets (world s))) as Hlen.
  { rewrite Hsocks. simpl. by rewrite length_alter. }
  split.
  { intros j k Hj Hk. apply (Hclosed j k); [lia | done]. }
  split; [|apply reconnect_eq].
  intros Honly Hothers. apply all_closed_quiescent.
  - rewrite Htimers. by apply only_heartbeat_cleared.
  - intros j k Hk.
    destruct (decide (j < length (sockets (world s1)))%nat) as [Hlt|Hge].
    + assert (sockets (world s1) !! j = Some k) as Hk1
        by (rewrite <- Htake; by rewrite lookup_take_lt).
      rewrite Hsocks in Hk1. simpl in Hk1.
      apply alter_closed in Hk1 as [[_ Hc]|[Hne Hk1]]; [done | by eapply Hothers].
    + apply (Hclosed j k); [lia | done].
Qed.

Lemma C7_reconnect_gives_up_once_witness :
  exists s',
    closure_sequence 0 5 opened = Some s'
    /\ count_failed (out (world s')) = 1%nat
    /\ timers (world s') = []
    /\ reconnectAttempts (this s') = 5%nat.
Proof.
  destruct (C7_reconnect_gives_up_once opened 0 5)
    as (s' & Hrun & Hcount & Htimers & _ & Hn & _).
  - vm_compute. reflexivity.
  - vm_compute. reflexivity.
  - vm_compute. reflexivity.
  - vm_compute. reflexivity.
  - unfold fresh_ids. vm_compute. repeat constructor.
  - eexists. vm_compute. reflexivity.
  - exists s'. split; [exact Hrun|]. split; [rewrite Hcount; vm_compute; reflexivity|].
    split; [rewrite Htimers; vm_compute; reflexivity | exact Hn].
Defined.

(** ** Disconnecting *)

Lemma disconnect_idempotent (s : Sys) :
  exec disconnect (exec disconnect s) = exec disconnect s.
Proof.
  destruct s as [c w].
  destruct c as [did hs cfg sock ing ed again n rt hb q tok].
  destruct w as [sto sec hst socks tms nxt o].
  destruct rt as [rt|], hb as [hb|], sock as [sock|]; run_disconnect; reflexivity.
Qed.

(** disconnect() removes the timers recorded in reconnectTimer and
    heartbeatTimer, and no others. *)
Lemma disconnect_clears_recorded (s : Sys) :
  timers (world (exec disconnect s)) =
    List.filter (fun t => negb (recorded (this s) t)) (timers (world s)).
Proof.
  destruct s as [c w].
  destruct c as [did hs cfg sock ing ed again n rt hb q tok].
  destruct w as [sto sec hst socks tms nxt o].
  unfold recorded. simpl.
  destruct rt as [rt|], hb as [hb|], sock as [sock|]; run_disconnect.
  - apply filter_filter_or.
  - apply filter_filter_or.
  - apply List.filter_ext. intros t. by rewrite orb_false_r.
  - apply List.filter_ext. intros t. by rewrite orb_false_r.
  - done.
  - done.
  - by rewrite filter_all.
  - by rewrite filter_all.
Qed.

Lemma disconnect_sockets (s : Sys) :
  length (sockets (world (exec disconnect s))) = length (sockets (world s)).
Proof.
  destruct s as [c w].
  destruct c as [did hs cfg sock ing ed again n rt hb q tok].
  destruct w as [sto sec hst socks tms nxt o].
  destruct rt as [rt|], hb as [hb|], sock as [sock|]; run_disconnect;
    rewrite ?length_alter; done.
Qed.

Lemma torn_down_stays (e : Event) (s s' : Sys) :
  automatic e -> torn_down s -> dispatch e s = Some s' ->
  torn_down s' /\ length (sockets (world s')) = length (sockets (world s)).
Proof.
  intros Hauto [Hag Hint] Hd.
  destruct e; simpl in Hauto; try done; unfold dispatch in Hd.
  - (* open *)
    destruct (sockets (world s) !! i) as [k|]; simpl in Hd; [|done].
    destruct (readyState k), (wired k); try done. injection Hd as <-.
    pose proof (handleOpen_skeleton (mark i OPEN s)) as Hk.
    unfold skeleton, skeleton_opened in Hk. simpl in Hk.
    injection Hk as _ _ _ Hag' _ _ _ _ _ Hsocks Htm _ _.
    split; [split|].
    + by rewrite Hag'.
    + rewrite Htm. apply Forall_app. split; [|by repeat constructor].
      destruct (heartbeatTimer (this s)); [|done].
      eapply sublist_Forall; [apply filter_sublist | done].
    + apply (f_equal length) in Hsocks. rewrite !length_fmap, length_alter in Hsocks. done.
  - (* message *)
    destruct (sockets (world s) !! i) as [k|]; simpl in Hd; [|done].
    destruct (readyState k), (wired k); try done. injection Hd as <-.
    pose proof (handleMessage_skeleton parsed s) as Hk.
    unfold skeleton in Hk. injection Hk as _ _ _ Hag' _ _ _ _ _ Hsocks Htm _ _.
    split; [split|].
    + by rewrite Hag'.
    + by rewrite Htm.
    + apply (f_equal length) in Hsocks. by rewrite !length_fmap in Hsocks.
  - (* error *)
    destruct (sockets (world s) !! i) as [k|]; simpl in Hd; [|done].
    destruct (readyState k), (wired k); try done; injection Hd as <-;
      rewrite handleError_eq; (split; [split|]); done.
  - (* close *)
    destruct (sockets (world s) !! i) as [k|]; simpl in Hd; [|done].
    destruct (readyState k), (wired k); try done; injection Hd as <-;
      destruct (handleClose_quiet (mark i CLOSED s) Hag) as (Hag' & Hsocks & Htm & _);
      (split; [split; [done | by eapply sublist_Forall]|]);
      rewrite Hsocks; simpl; by rewrite length_alter.
  - (* timer *)
    destruct (find_timer id (world s)) as [t|] eqn:Hf; simpl in Hd; [|done].
    pose proof (find_timer_elem id (world s) t Hf) as Hin.
    pose proof (proj1 (Forall_forall _ _) Hint t Hin) as Ht.
    destruct t; simpl in Ht; [done|]. injection Hd as <-.
    pose proof (heartbeat_skeleton s) as Hk.
    unfold skeleton in Hk. injection Hk as _ _ _ Hag' _ _ _ _ _ Hsocks Htm _ _.
    split; [split|].
    + by rewrite Hag'.
    + by rewrite Htm.
    + apply (f_equal length) in Hsocks. by rewrite !length_fmap in Hsocks.
Qed.

Lemma run_automatic_torn_down (events : list Event) :
  forall s s',
    Forall automatic events -> torn_down s -> run events s = Some s' ->
    torn_down s' /\ length (sockets (world s')) = length (sockets (world s)).
Proof.
  induction events as [|e events IH]; intros s s' Hall Htd Hrun; simpl in Hrun.
  - by injection Hrun as <-.
  - inversion Hall as [|? ? He Hrest]; subst.
    destruct (dispatch e s) as [s1|] eqn:Hd; simpl in Hrun; [|done].
    destruct (torn_down_stays e s s1 He Htd Hd) as [Htd1 Hlen1].
    destruct (IH s1 s' Hrest Htd1 Hrun) as [Htd' Hlen'].
    split; [done | congruence].
Qed.

(** When every pending reconnect timer is the one recorded in
    reconnectTimer, nothing that happens by itself after disconnect() opens a
    socket or sets a reconnect timer. *)
Theorem no_reopen_when_timer_recorded (s s' : Sys) (events : list Event) :
  (forall id ms, Timeout id ms ∈ timers (world s) -> reconnectTimer (this s) = Some id) ->
  Forall automatic events ->
  run events (exec disconnect s) = Some s' ->
  length (sockets (world s')) = length (sockets (world s))
  /\ shouldReconnect (this s') = false
  /\ Forall is_interval (timers (world s')).
Proof.
  intros Hrec Hall Hrun.
  assert (torn_down (exec disconnect s)) as Htd.
  { split; [apply disconnect_returns|].
    rewrite disconnect_clears_recorded. apply Forall_forall. intros t Ht.
    apply list_elem_of_In, List.filter_In in Ht as [Hin Hnot].
    apply list_elem_of_In in Hin.
    destruct t as [id ms|]; [|done]. simpl.
    specialize (Hrec id ms Hin). unfold recorded in Hnot. rewrite Hrec in Hnot. simpl in Hnot.
    by rewrite Pos.eqb_refl in Hnot. }
  destruct (run_automatic_torn_down events _ s' Hall Htd Hrun) as [[Hag Hint] Hlen].
  rewrite disconnect_sockets in Hlen. done.
Qed.

(** C8 at a failing input: the first socket fails and a reconnect is
    scheduled (timer 1); the caller calls connect() before it fires; the
    second socket fails too and another reconnect is scheduled (timer 2),
    which replaces timer 1 in reconnectTimer. disconnect() cancels timer 2
    only. Timer 1 then fires and connect() opens a third socket, although
    shouldReconnect is false. *)
Theorem C8_untracked_timer_reopens :
  view <$> run [CallConnect; SocketCloses 0; CallConnect; SocketCloses 1] fresh
    = Some {| v_ws := Some 1%nat; v_isConnecting := false; v_isConnected := false;
              v_shouldReconnect := true; v_reconnectAttempts := 2;
              v_messageQueue := [];
              v_sockets := [(CLOSED, []); (CLOSED, [])];
              v_timers := [Timeout 1 1000; Timeout 2 2000] |}
  /\ view <$> run [CallConnect; SocketCloses 0; CallConnect; SocketCloses 1;
                   CallDisconnect] fresh
    = Some {| v_ws := None; v_isConnecting := false; v_isConnected := false;
              v_shouldReconnect := false; v_reconnectAttempts := 2;
              v_messageQueue := [];
              v_sockets := [(CLOSED, []); (CLOSED, [])];
              v_timers := [Timeout 1 1000] |}
  /\ view <$> run [CallConnect; SocketCloses 0; CallConnect; SocketCloses 1;
                   CallDisconnect; TimerFires 1] fresh
    = Some {| v_ws := Some 2%nat; v_isConnecting := true; v_isConnected := false;
              v_shouldReconnect := false; v_reconnectAttempts := 2;
              v_messageQueue := [];
              v_sockets := [(CLOSED, []); (CLOSED, []); (CONNECTING, [])];
              v_timers := [] |}.
Proof. repeat split; vm_compute; reflexivity. Qed.

(** The same after reconnect(): the close event of the socket that
    reconnect() replaced schedules timer 2, the failure of the new socket
    schedules timer 3, disconnect() cancels timer 3, and timer 2 opens a
    socket. *)
Lemma stale_close_timer_reopens :
  view <$> run [CallConnect; SocketOpens 0; CallReconnect; SocketCloses 0; SocketCloses 1;
                CallDisconnect; TimerFires 2] fresh
    = Some {| v_ws := Some 2%nat; v_isConnecting := true; v_isConnected := false;
              v_shouldReconnect := false; v_reconnectAttempts := 2;
              v_messageQueue := [];
              v_sockets := [(CLOSED, []); (CLOSED, []); (CONNECTING, [])];
              v_timers := [] |}.
Proof. vm_compute; reflexivity. Qed.

(** ** One transport at a time *)

Lemma single_skeleton (s s' : Sys) :
  k_sockets (skeleton s') = k_sockets (skeleton s) ->
  ws (this s') = ws (this s) ->
  isConnecting (this s') = isConnecting (this s) ->
  isConnected (this s') = isConnected (this s) ->
  single s -> single s'.
Proof.
  intros Hsocks Hws Hing Hed Hs j k' Hk'.
  assert (exists k, sockets (world s) !! j = Some k
                    /\ readyState k = readyState k' /\ wired k = wired k') as (k & Hk & Hst & Hw).
  { pose proof (f_equal (fun l => l !! j) Hsocks) as H. simpl in H.
    rewrite !list_lookup_fmap, Hk' in H. simpl in H.
    destruct (sockets (world s) !! j) as [k|]; [|done]. simpl in H.
    injection H as H1 H2. by exists k. }
  destruct (Hs j k Hk) as (Hwired & Hnc & Hlive).
  rewrite <- Hst, <- Hw, Hws, Hing, Hed. done.
Qed.

Lemma single_same_skeleton (s s' : Sys) :
  skeleton s' = skeleton s -> single s -> single s'.
Proof.
  intros Hk. unfold skeleton in Hk.
  injection Hk as Hws Hing Hed _ _ _ _ _ _ Hsocks _ _ _.
  by apply single_skeleton.
Qed.

Lemma single_idle_none_live (s : Sys) (j : nat) (k : Socket) :
  single s -> isConnecting (this s) = false -> isConnected (this s) = false ->
  sockets (world s) !! j = Some k -> live (readyState k) = false.
Proof.
  intros Hs Hing Hed Hk. destruct (Hs j k Hk) as (_ & _ & Hlive).
  destruct (live (readyState k)); [|done].
  destruct (Hlive eq_refl) as [_ Hflag]. by rewrite Hing, Hed in Hflag.
Qed.

Lemma single_connect (s : Sys) : single s -> single (exec connect s).
Proof.
  intros Hs.
  destruct (isConnecting (this s) || isConnected (this s)) eqn:Hbusy.
  { unfold exec. rewrite (connect_busy s Hbusy). simpl. by apply (single_same_skeleton s). }
  apply orb_false_elim in Hbusy as [Hing Hed].
  rewrite (connect_idle_eq s Hing Hed).
  destruct (getToken_exec (with_this (set_isConnecting true) s)) as [v Hv].
  unfold exec at 2. rewrite Hv. simpl.
  set (r := refreshed (storage (world s)) (token (this s))).
  match goal with |- context [exec open_transport ?st] => set (s1 := st) end.
  destruct (fst r) as [tok|] eqn:Hr; [destruct (truthy tok) eqn:Htok|].
  - unfold exec. rewrite (open_transport_opens s1 tok); [|by subst s1|done]. simpl.
    intros j k Hk. simpl in Hk. simpl.
    destruct (decide (j = length (sockets (world s)))) as [->|Hne].
    + rewrite lookup_end in Hk. injection Hk as <-. simpl. done.
    + assert (sockets (world s) !! j = Some k) as Hk0.
      { rewrite lookup_app_l in Hk; [done|].
        apply lookup_lt_Some in Hk. rewrite length_app in Hk. simpl in Hk. lia. }
      destruct (Hs j k Hk0) as (Hw & Hnc & _).
      rewrite (single_idle_none_live s j k Hs Hing Hed Hk0). done.
  - unfold exec. rewrite (open_transport_fails s1); [|by subst s1; simpl].
    match goal with |- context [handleConnectionError MissingToken ?st] => set (s2 := st) end.
    destruct (handleConnectionError_frame MissingToken s2) as (Hsocks & Hws & Hc & _).
    pose proof (handleConnectionError_flags MissingToken s2) as Hed2.
    intros j k Hk. unfold exec in *. rewrite Hsocks in Hk. simpl in Hk.
    destruct (Hs j k Hk) as (Hw & Hnc & _).
    rewrite (single_idle_none_live s j k Hs Hing Hed Hk). done.
  - unfold exec. rewrite (open_transport_fails s1); [|by subst s1; simpl].
    match goal with |- context [handleConnectionError MissingToken ?st] => set (s2 := st) end.
    destruct (handleConnectionError_frame MissingToken s2) as (Hsocks & Hws & Hc & _).
    intros j k Hk. unfold exec in *. rewrite Hsocks in Hk. simpl in Hk.
    destruct (Hs j k Hk) as (Hw & Hnc & _).
    rewrite (single_idle_none_live s j k Hs Hing Hed Hk). done.
Qed.

Lemma single_stays (e : Event) (s s' : Sys) :
  no_teardown e -> single s -> dispatch e s = Some s' -> single s'.
Proof.
  intros Hno Hs Hd.
  destruct e; simpl in Hno; try done; unfold dispatch in Hd.
  - (* open *)
    destruct (sockets (world s) !! i) as [k|] eqn:Hi; simpl in Hd; [|done].
    destruct (readyState k) eqn:Hst, (wired k); try done. injection Hd as <-.
    destruct (Hs i k Hi) as (_ & _ & Hlive). rewrite Hst in Hlive.
    destruct (Hlive eq_refl) as [Hws _].
    pose proof (handleOpen_skeleton (mark i OPEN s)) as Hk.
    unfold skeleton, skeleton_opened in Hk. simpl in Hk.
    injection Hk as Hws' _ Hed' _ _ _ _ _ _ Hsocks _ _ _.
    intros j k' Hk'.
    assert (exists k0, alter (set_readyState OPEN) i (sockets (world s)) !! j = Some k0
              /\ readyState k0 = readyState k' /\ wired k0 = wired k') as (k0 & Hk0 & Hst0 & Hw0).
    { pose proof (f_equal (fun l => l !! j) Hsocks) as H. simpl in H.
      rewrite !list_lookup_fmap, Hk' in H. simpl in H.
      destruct (alter (set_readyState OPEN) i (sockets (world s)) !! j) as [k0|]; [|done].
      simpl in H. injection H as H1 H2. by exists k0. }
    rewrite <- Hst0, <- Hw0, Hws', Hed', orb_true_r.
    destruct (decide (j = i)) as [->|Hne].
    + rewrite list_lookup_alter_eq, Hi in Hk0. injection Hk0 as <-. simpl.
      destruct (Hs i k Hi) as (Hw & _). done.
    + rewrite list_lookup_alter_ne in Hk0 by done.
      destruct (Hs j k0 Hk0) as (Hw & Hnc & Hl).
      split; [done|]. split; [done|]. intros Hlv. by destruct (Hl Hlv).
  - (* message *)
    destruct (sockets (world s) !! i) as [k|]; simpl in Hd; [|done].
    destruct (readyState k), (wired k); try done. injection Hd as <-.
    apply (single_same_skeleton s); [apply handleMessage_skeleton | done].
  - (* error *)
    destruct (sockets (world s) !! i) as [k|]; simpl in Hd; [|done].
    destruct (readyState k), (wired k); try done; injection Hd as <-;
      rewrite handleError_eq; by apply (single_same_skeleton s).
  - (* close *)
    destruct (sockets (world s) !! i) as [k|] eqn:Hi; simpl in Hd; [|done].
    destruct (Hs i k Hi) as (Hwi & Hnci & Hlivei).
    assert (dispatch (SocketCloses i) s = Some s') as Hd'.
    { unfold dispatch. rewrite Hi. exact Hd. }
    destruct (dispatch_close i s s' Hd') as [-> (k1 & Hk1 & Hst1 & _)].
    rewrite Hi in Hk1. injection Hk1 as <-.
    assert (live (readyState k) = true) as Hl by (destruct (readyState k); done).
    destruct (Hlivei Hl) as [Hws _].
    destruct (handleClose_frame (mark i CLOSED s)) as (Hsocks & Hws' & Hing' & Hed').
    intros j k' Hk'. rewrite Hsocks in Hk'. simpl in Hk'.
    destruct (decide (j = i)) as [->|Hne].
    + rewrite list_lookup_alter_eq, Hi in Hk'. injection Hk' as <-. simpl. done.
    + rewrite list_lookup_alter_ne in Hk' by done.
      destruct (Hs j k' Hk') as (Hw & Hnc & Hlv).
      split; [done|]. split; [done|].
      intros Hlive'. destruct (Hlv Hlive') as [Hj _]. congruence.
  - (* timer *)
    destruct (find_timer id (world s)) as [t|] eqn:Hf; simpl in Hd; [|done].
    destruct t; injection Hd as <-.
    + apply single_connect. by apply (single_skeleton s).
    + apply (single_same_skeleton s); [apply heartbeat_skeleton | done].
  - (* storage *)
    injection Hd as <-. by apply (single_skeleton s).
  - injection Hd as <-. by apply single_connect.
  - injection Hd as <-.
    destruct (send_skeleton message s) as (b & _ & Hk & _).
    by apply (single_same_skeleton s).
  - injection Hd as <-. by apply (single_skeleton s).
  - injection Hd as <-. by apply (single_skeleton s).
Qed.

Lemma run_single (events : list Event) :
  forall s s', Forall no_teardown events -> single s -> run events s = Some s' -> single s'.
Proof.
  induction events as [|e events IH]; intros s s' Hall Hs Hrun; simpl in Hrun.
  - by injection Hrun as <-.
  - inversion Hall as [|? ? He Hrest]; subst.
    destruct (dispatch e s) as [s1|] eqn:Hd; simpl in Hrun; [|done].
    eapply IH; [done | | done]. by eapply single_stays.
Qed.

Lemma single_construct (id : string) (handlers : gmap string nat) (arg : ConfigArg)
    (w : World) :
  sockets w = [] -> single (construct id handlers arg w).
Proof.
  intros Hw j k Hk.
  assert (sockets (world (construct id handlers arg w)) = []) as Hnil.
  { unfold construct.
    match goal with |- context [exec getToken ?st] =>
      destruct (getToken_exec st) as [v Hv]; unfold exec; rewrite Hv end.
    simpl. exact Hw. }
  rewrite Hnil in Hk. done.
Qed.

(** As long as neither disconnect() nor reconnect() is called, a client has
    at most one socket that is connecting or open, whatever else is called
    and whatever the platform does. *)
Theorem one_transport_without_teardown (id : string) (handlers : gmap string nat)
    (arg : ConfigArg) (w : World) (events : list Event) (s : Sys) :
  sockets w = [] ->
  Forall no_teardown events ->
  run events (construct id handlers arg w) = Some s ->
  forall i j ki kj,
    sockets (world s) !! i = Some ki -> sockets (world s) !! j = Some kj ->
    live (readyState ki) = true -> live (readyState kj) = true ->
    i = j.
Proof.
  intros Hw Hall Hrun i j ki kj Hi Hj Hli Hlj.
  pose proof (run_single events _ s Hall (single_construct id handlers arg w Hw) Hrun) as Hs.
  destruct (Hs i ki Hi) as (_ & _ & Hwi). destruct (Hs j kj Hj) as (_ & _ & Hwj).
  destruct (Hwi Hli) as [Hi' _]. destruct (Hwj Hlj) as [Hj' _]. congruence.
Qed.

(** C10 at a failing input: reconnect() closes socket 0 and opens socket 1.
    The close event of socket 0 arrives while socket 1 is still connecting;
    handleClose clears isConnecting and schedules a reconnect. When that
    timer fires, connect() finds both flags clear and opens socket 2: the
    client now has two sockets that are connecting, both wired to it. *)
Theorem C10_second_live_transport :
  view <$> run [CallConnect; SocketOpens 0; CallReconnect] fresh
    = Some {| v_ws := Some 1%nat; v_isConnecting := true; v_isConnected := false;
              v_shouldReconnect := true; v_reconnectAttempts := 0;
              v_messageQueue := [];
              v_sockets := [(CLOSING, []); (CONNECTING, [])];
              v_timers := [] |}
  /\ view <$> run [CallConnect; SocketOpens 0; CallReconnect; SocketCloses 0] fresh
    = Some {| v_ws := Some 1%nat; v_isConnecting := false; v_isConnected := false;
              v_shouldReconnect := true; v_reconnectAttempts := 1;
              v_messageQueue := [];
              v_sockets := [(CLOSED, []); (CONNECTING, [])];
              v_timers := [Timeout 2 1000] |}
  /\ view <$> run [CallConnect; SocketOpens 0; CallReconnect; SocketCloses 0;
                   TimerFires 2] fresh
    = Some {| v_ws := Some 2%nat; v_isConnecting := true; v_isConnected := false;
              v_shouldReconnect := true; v_reconnectAttempts := 1;
              v_messageQueue := [];
              v_sockets := [(CLOSED, []); (CONNECTING, []); (CONNECTING, [])];
              v_timers := [] |}
  /\ (wired <$> sockets (world (default fresh
        (run [CallConnect; SocketOpens 0; CallReconnect; SocketCloses 0; TimerFires 2]
             fresh)))) = [true; true; true].
Proof. repeat split; vm_compute; reflexivity. Qed.

End StreamTheory.

(** * Properties of the client cache *)

Module RegistryTheory.
Import WS Registry.

(** Without a stored token connectWebSocket throws the 401 APIError; no
    client is made or cached and no socket is opened. *)
Lemma connectWebSocket_without_token (id : string) (handlers : gmap string nat)
    (arg : ConfigArg) (r : Cache) :
  truthy_val (fst (Registry.getToken (env r))) = false ->
  exists r',
    connectWebSocket id handlers arg r = (inl (Retry.APIError NO_TOKEN 401 JNull), r')
    /\ wsClients r' = wsClients r
    /\ sockets (env r') = sockets (env r)
    /\ timers (env r') = timers (env r).
Proof.
  intros H. unfold connectWebSocket.
  destruct (Registry.getToken (env r)) as [tok w] eqn:Hg. simpl in H. rewrite H. simpl.
  eexists. split; [reflexivity|]. simpl. split; [done|].
  unfold Registry.getToken in Hg.
  destruct (storage (env r)) as [| |u]; [by injection Hg as <- <-|by injection Hg as <- <-|].
  destruct (get_prop "access_token" u); [destruct (get_prop "token" u)|];
    by injection Hg as <- <-.
Qed.

End RegistryTheory.

(** * Further properties of the request path *)

Module RetryExtras.
Import Retry RetryScene RetryTheory.

Section More.
Variable cfg : RetryConfig.
Variables (url : string) (options : Json).

Lemma attemptOnce_failure (net : Net) :
  attemptOnce url options net =
    (match failure (transport net (calls net) url options) with
     | Some e => inl e
     | None => match transport net (calls net) url options with
               | Resolves r => inr r
               | Rejects e => inl e
               end
     end, emit (Fetched url options) net).
Proof.
  unfold attemptOnce, fetch, failure.
  destruct (transport net (calls net) url options) as [r|e]; [|done].
  by destruct (ok r).
Qed.

(** What a run of the loop adds: between one and [S budget] calls of fetch,
    one sleep between two consecutive calls, and a returned response is the
    ok answer to the last call. *)
Lemma retryLoop_shape (budget : nat) :
  forall (attempt : Z) (net : Net),
    let res := retryLoop cfg url options budget attempt net in
    exists n : nat,
      (n <= budget)%nat
      /\ calls (snd res) = (calls net + S n)%nat
      /\ length (sleeps (snd res)) = (length (sleeps net) + n)%nat
      /\ transport (snd res) = transport net
      /\ match fst res with
         | Returned r =>
             transport net (calls net + n)%nat url options = Resolves r /\ ok r = true
         | Thrown e =>
             failure (transport net (calls net + n)%nat url options) = Some e
         end.
Proof.
  induction budget as [|b IH]; intros attempt net; cbv zeta; simpl;
    rewrite attemptOnce_failure; unfold failure;
    destruct (transport net (calls net) url options) as [r|e] eqn:Ht.
  - destruct (ok r) eqn:Hok; simpl.
    + exists 0%nat. rewrite calls_emit, sleeps_emit, app_nil_r, !Nat.add_0_r. simpl.
      repeat split; try done; lia.
    + exists 0%nat.
      destruct (negb (isRetryableError cfg (errorOf r)) || (maxAttempts cfg <=? attempt));
        simpl; rewrite calls_emit, sleeps_emit, app_nil_r, !Nat.add_0_r, Ht, Hok; simpl;
        repeat split; try done; lia.
  - exists 0%nat.
    destruct (negb (isRetryableError cfg e) || (maxAttempts cfg <=? attempt));
      simpl; rewrite calls_emit, sleeps_emit, app_nil_r, !Nat.add_0_r, Ht; simpl;
      repeat split; try done; lia.
  - destruct (ok r) eqn:Hok; simpl.
    + exists 0%nat. rewrite calls_emit, sleeps_emit, app_nil_r, !Nat.add_0_r. simpl.
      repeat split; try done; lia.
    + destruct (negb (isRetryableError cfg (errorOf r)) || (maxAttempts cfg <=? attempt)).
      * exists 0%nat. simpl.
        rewrite calls_emit, sleeps_emit, app_nil_r, !Nat.add_0_r, Ht, Hok; simpl.
        repeat split; try done; lia.
      * specialize (IH (attempt + 1)
                      (delay (delayMs_at cfg attempt)
                         (emit (Warned (delayMs_at cfg attempt) (attempt + 1))
                            (emit (Fetched url options) net)))).
        cbv zeta in IH. destruct IH as (n & Hn & Hc & Hs & Htr & Hres).
        exists (S n). rewrite Hc, Hs, Htr. unfold delay in *.
        rewrite !calls_emit, !sleeps_emit in *. simpl in *.
        rewrite !length_app in *. simpl in *.
        replace (calls net + S n)%nat with (S (calls net + n)) by lia.
        repeat split; try done; lia.
  - destruct (negb (isRetryableError cfg e) || (maxAttempts cfg <=? attempt)).
    + exists 0%nat. simpl.
      rewrite calls_emit, sleeps_emit, app_nil_r, !Nat.add_0_r, Ht; simpl.
      repeat split; try done; lia.
    + specialize (IH (attempt + 1)
                    (delay (delayMs_at cfg attempt)
                       (emit (Warned (delayMs_at cfg attempt) (attempt + 1))
                          (emit (Fetched url options) net)))).
      cbv zeta in IH. destruct IH as (n & Hn & Hc & Hs & Htr & Hres).
      exists (S n). rewrite Hc, Hs, Htr. unfold delay in *.
      rewrite !calls_emit, !sleeps_emit in *. simpl in *.
      rewrite !length_app in *. simpl in *.
      replace (calls net + S n)%nat with (S (calls net + n)) by lia.
      repeat split; try done; lia.
Qed.


(** The loop when every call of fetch fails with an error that is retried:
    it runs until the attempts are used up. *)
Lemma retryLoop_exhausts (budget : nat) :
  forall (attempt : Z) (net : Net),
    (forall k, exists e, failure (transport net k url options) = Some e
                         /\ isRetryableError cfg e = true) ->
    Z.of_nat budget = maxAttempts cfg - attempt ->
    let res := retryLoop cfg url options budget attempt net in
    (exists e, fst res = Thrown e
               /\ failure (transport net (calls net + budget)%nat url options) = Some e)
    /\ calls (snd res) = (calls net + S budget)%nat
    /\ sleeps (snd res)
        = sleeps net ++ ((fun k => delayMs_at cfg (attempt + Z.of_nat k)) <$> seq 0 budget).
Proof.
  induction budget as [|b IH]; intros attempt net Hfail Hb; cbv zeta; simpl;
    rewrite attemptOnce_failure;
    destruct (Hfail (calls net)) as (e & He & Hre); rewrite He, Hre; simpl.
  - assert ((maxAttempts cfg <=? attempt) = true) as -> by (apply Z.leb_le; lia).
    simpl. rewrite calls_emit, sleeps_emit, !app_nil_r, !Nat.add_0_r. simpl.
    split; [by exists e|]. split; [lia|done].
  - assert ((maxAttempts cfg <=? attempt) = false) as -> by (apply Z.leb_gt; lia).
    set (net2 := delay _ _).
    assert (transport net2 = transport net) as Htr by done.
    assert (calls net2 = S (calls net)) as Hc.
    { unfold net2, delay. rewrite !calls_emit. done. }
    assert (sleeps net2 = sleeps net ++ [delayMs_at cfg attempt]) as Hs.
    { unfold net2, delay. rewrite !sleeps_emit. simpl. by rewrite !app_nil_r. }
    destruct (IH (attempt + 1) net2) as (Hlast & Hcalls & Hsleeps).
    { intros k. rewrite Htr. apply Hfail. }
    { lia. }
    rewrite Htr, Hc in Hlast. rewrite Hc in Hcalls. rewrite Hs in Hsleeps.
    replace (calls net + S b)%nat with (S (calls net) + b)%nat by lia.
    split; [exact Hlast|]. split; [rewrite Hcalls; lia|].
    rewrite Hsleeps, <- app_assoc. f_equal. simpl. f_equal.
    + f_equal. lia.
    + rewrite <- seq_shift, <- list_fmap_compose. apply list_fmap_ext.
      intros i k _. simpl. f_equal. lia.
Qed.

End More.

(** X1: fetchWithRetry calls fetch at least once and at most maxAttempts times
    (once when maxAttempts is below 1), sleeps exactly once between two
    consecutive calls and never after the last one, and leaves the
    transport as it was. *)
Theorem X1_attempts_bounded :
  forall (cfg : RetryConfig) (url : string) (options : Json) (net : Net),
    let net' := snd (fetchWithRetry cfg url options 1 net) in
    exists n : nat,
      calls net' = (calls net + n)%nat
      /\ (1 <= n)%nat /\ Z.of_nat n <= Z.max 1 (maxAttempts cfg)
      /\ length (sleeps net') = (length (sleeps net) + (n - 1))%nat
      /\ transport net' = transport net.
Proof.
  intros cfg url options net net'.
  destruct (retryLoop_shape cfg url options (Z.to_nat (maxAttempts cfg - 1)) 1 net)
    as (n & Hn & Hc & Hs & Htr & _).
  exists (S n). fold (fetchWithRetry cfg url options 1 net) in Hc, Hs, Htr.
  unfold net'. rewrite Hc, Hs, Htr.
  repeat split; try done; lia.
Qed.

(** X2: What fetchWithRetry returns is the answer to its last call of fetch, and
    that answer is ok (status 200-299); what it throws is the failure of its
    last call of fetch: a failure of an earlier attempt is never reported. *)
Theorem X2_outcome_of_last_attempt :
  forall (cfg : RetryConfig) (url : string) (options : Json) (net : Net),
    let res := fetchWithRetry cfg url options 1 net in
    let last := transport net (Nat.pred (calls (snd res))) url options in
    match fst res with
    | Returned r => last = Resolves r /\ ok r = true
    | Thrown e => failure last = Some e
    end.
Proof.
  intros cfg url options net res last.
  destruct (retryLoop_shape cfg url options (Z.to_nat (maxAttempts cfg - 1)) 1 net)
    as (n & Hn & Hc & Hs & Htr & Hres).
  fold (fetchWithRetry cfg url options 1 net) in Hc, Hres. fold res in Hc, Hres.
  unfold last. rewrite Hc.
  replace (Nat.pred (calls net + S n)) with (calls net + n)%nat by lia.
  exact Hres.
Qed.

(** X3: When every call of fetch fails with an error that isRetryableError
    accepts, fetchWithRetry gives up after exactly maxAttempts calls: it
    throws the failure of the last call and has slept
    retryDelay * backoffMultiplier^(k-1) after each attempt k < maxAttempts. *)
Theorem X3_gives_up_after_maxAttempts :
  forall (cfg : RetryConfig) (url : string) (options : Json) (net : Net),
    1 <= maxAttempts cfg ->
    (forall k, exists e, failure (transport net k url options) = Some e
                         /\ isRetryableError cfg e = true) ->
    let res := fetchWithRetry cfg url options 1 net in
    let n := Z.to_nat (maxAttempts cfg) in
    (exists e, fst res = Thrown e
               /\ failure (transport net (calls net + n - 1)%nat url options) = Some e)
    /\ calls (snd res) = (calls net + n)%nat
    /\ sleeps (snd res) = sleeps net ++ backoff cfg (n - 1).
Proof.
  intros cfg url options net Hmax Hfail res n.
  destruct (retryLoop_exhausts cfg url options (Z.to_nat (maxAttempts cfg - 1)) 1 net Hfail)
    as (Hlast & Hcalls & Hsleeps); [lia|].
  fold (fetchWithRetry cfg url options 1 net) in Hlast, Hcalls, Hsleeps.
  fold res in Hlast, Hcalls, Hsleeps.
  replace (Z.to_nat (maxAttempts cfg - 1)) with (n - 1)%nat in * by lia.
  split.
  - destruct Hlast as (e & He & Hlast). exists e. split; [done|].
    by replace (calls net + n - 1)%nat with (calls net + (n - 1))%nat by lia.
  - split; [rewrite Hcalls; lia|].
    rewrite Hsleeps. f_equal. unfold backoff. apply list_fmap_ext.
    intros i k _. simpl. f_equal. lia.
Qed.

(** With the shipped configuration and the network down, a request calls
    fetch three times, sleeps 1000 ms and 2000 ms and throws the TypeError of
    the third call. *)
Lemma X3_gives_up_after_maxAttempts_witness :
  (exists e, fst (fetchWithRetry RETRY_CONFIG "/api/stats" JNull 1 offline) = Thrown e
             /\ failure (transport offline (calls offline + 3 - 1)%nat "/api/stats" JNull)
                = Some e)
  /\ calls (snd (fetchWithRetry RETRY_CONFIG "/api/stats" JNull 1 offline))
      = (calls offline + 3)%nat
  /\ sleeps (snd (fetchWithRetry RETRY_CONFIG "/api/stats" JNull 1 offline))
      = sleeps offline ++ backoff RETRY_CONFIG 2.
Proof.
  apply (X3_gives_up_after_maxAttempts RETRY_CONFIG "/api/stats" JNull offline).
  - simpl. lia.
  - intros k. eexists. split; reflexivity.
Defined.

Lemma recover_at (cfg : RetryConfig) (url : string) (options : Json) (k : nat) :
  forall (attempt : Z) (net : Net) (r : Response),
    (forall j, (j < k)%nat ->
       exists e, failure (transport net (calls net + j)%nat url options) = Some e
                 /\ isRetryableError cfg e = true) ->
    transport net (calls net + k)%nat url options = Resolves r ->
    ok r = true ->
    attempt + Z.of_nat k <= maxAttempts cfg ->
    exists net',
      fetchWithRetry cfg url options attempt net = (Returned r, net')
      /\ calls net' = (calls net + S k)%nat
      /\ sleeps net'
          = sleeps net ++ ((fun j => delayMs_at cfg (attempt + Z.of_nat j)) <$> seq 0 k).
Proof.
  induction k as [|k IH]; intros attempt net r Hfail Hlast Hok Hmax.
  - rewrite Nat.add_0_r in Hlast.
    rewrite fetchWithRetry_eq, (attemptOnce_ok url options net r Hlast Hok).
    eexists. split; [reflexivity|].
    rewrite calls_emit, sleeps_emit. simpl. rewrite !app_nil_r. split; [lia|done].
  - destruct (Hfail 0%nat ltac:(lia)) as (e & He & Hre). rewrite Nat.add_0_r in He.
    rewrite fetchWithRetry_eq, attemptOnce_failure, He, Hre.
    assert ((maxAttempts cfg <=? attempt) = false) as -> by (apply Z.leb_gt; lia).
    cbn [negb orb].
    set (net2 := retry_state cfg attempt (emit (Fetched url options) net)).
    assert (calls net2 = S (calls net)) as Hc by apply retry_state_calls.
    assert (sleeps net2 = sleeps net ++ [delayMs_at cfg attempt]) as Hs.
    { unfold net2, retry_state, delay. rewrite !sleeps_emit. simpl. by rewrite !app_nil_r. }
    destruct (IH (attempt + 1) net2 r) as (net' & Hrun & Hcalls & Hsleeps).
    + intros j Hj. change (transport net2) with (transport net). rewrite Hc.
      replace (S (calls net) + j)%nat with (calls net + S j)%nat by lia.
      apply Hfail. lia.
    + change (transport net2) with (transport net). rewrite Hc.
      by replace (S (calls net) + k)%nat with (calls net + S k)%nat by lia.
    + done.
    + lia.
    + exists net'. split; [exact Hrun|]. split; [rewrite Hcalls, Hc; lia|].
      rewrite Hsleeps, Hs, <- app_assoc. f_equal. simpl. f_equal.
      * f_equal. lia.
      * rewrite <- seq_shift, <- list_fmap_compose. apply list_fmap_ext.
        intros i j _. simpl. f_equal. lia.
Qed.

(** X4: fetchWithRetry returns the first ok response when it comes within
    maxAttempts calls and every failure before it is one isRetryableError
    accepts: if call k+1 is the first to succeed, fetch has been called
    exactly k+1 times and the sleeps were those of the attempts 1 to k. *)
Theorem X4_returns_first_success :
  forall (cfg : RetryConfig) (url : string) (options : Json) (net : Net) (k : nat)
         (r : Response),
    (forall j, (j < k)%nat ->
       exists e, failure (transport net (calls net + j)%nat url options) = Some e
                 /\ isRetryableError cfg e = true) ->
    transport net (calls net + k)%nat url options = Resolves r ->
    ok r = true ->
    Z.of_nat k < maxAttempts cfg ->
    exists net',
      fetchWithRetry cfg url options 1 net = (Returned r, net')
      /\ calls net' = (calls net + S k)%nat
      /\ sleeps net' = sleeps net ++ backoff cfg k.
Proof.
  intros cfg url options net k r Hfail Hlast Hok Hmax.
  destruct (recover_at cfg url options k 1 net r Hfail Hlast Hok) as (net' & H1 & H2 & H3);
    [lia|].
  exists net'. split; [exact H1|]. split; [exact H2|].
  rewrite H3. f_equal. unfold backoff. apply list_fmap_ext. intros i j _. simpl. f_equal. lia.
Qed.

Lemma X4_returns_first_success_witness :
  exists net',
    fetchWithRetry RETRY_CONFIG "/api/stats" JNull 1 answers_503_503_200
      = (Returned {| status := 200; contentType := Some "application/json";
                     jsonBody := Some (JObj [("data", JStr "ok")]); textBody := None |},
         net')
    /\ calls net' = (calls answers_503_503_200 + 3)%nat
    /\ sleeps net' = sleeps answers_503_503_200 ++ backoff RETRY_CONFIG 2.
Proof.
  apply (X4_returns_first_success RETRY_CONFIG "/api/stats" JNull answers_503_503_200 2).
  - intros j Hj. destruct j as [|[|j]]; [| |lia]; eexists; split; reflexivity.
  - reflexivity.
  - reflexivity.
  - simpl. lia.
Defined.

Lemma mentions_In (codes : list string) (message code : string) :
  In code codes -> includes message code = true -> mentions codes message = true.
Proof.
  intros Hin Hinc. unfold mentions. apply existsb_exists. by exists code.
Qed.

(** X5: A response whose status is not ok and not on the retryable list, and
    whose error message contains no network error code, is not retried:
    fetchWithRetry calls fetch once, sleeps nothing and throws the APIError
    of that response (for the shipped lists: 409, 422, 501 and the like). *)
Theorem X5_unlisted_status_not_retried :
  forall (cfg : RetryConfig) (url : string) (options : Json) (net : Net) (r : Response),
    transport net (calls net) url options = Resolves r ->
    ok r = false ->
    ~ In (status r) (retryableStatuses cfg) ->
    mentions (networkErrors cfg) (err_message (errorOf r)) = false ->
    fetchWithRetry cfg url options 1 net
      = (Thrown (errorOf r), emit (Fetched url options) net)
    /\ calls (emit (Fetched url options) net) = S (calls net)
    /\ sleeps (emit (Fetched url options) net) = sleeps net.
Proof.
  intros cfg url options net r Ht Hok Hnot Hmsg.
  assert (isRetryableError cfg (errorOf r) = false) as Hno.
  { destruct (errorOf_status r) as (msg & data & He). rewrite He in *.
    unfold isRetryableError. simpl in *. unfold mentions in Hmsg. rewrite Hmsg.
    destruct (includesZ (nonRetryableStatuses cfg) (status r)); [done|].
    destruct (includesZ (retryableStatuses cfg) (status r)) eqn:E; [|done].
    by apply includesZ_In in E. }
  split; [|split; [by rewrite calls_emit | by rewrite sleeps_emit, app_nil_r]].
  by rewrite fetchWithRetry_eq, (attemptOnce_status url options net r Ht Hok), Hno.
Qed.

Lemma X5_unlisted_status_not_retried_witness :
  fetchWithRetry RETRY_CONFIG "/api/debates" JNull 1 (answering 422 "Unprocessable")
    = (Thrown (APIError "Unprocessable" 422 JNull),
       emit (Fetched "/api/debates" JNull) (answering 422 "Unprocessable"))
  /\ calls (emit (Fetched "/api/debates" JNull) (answering 422 "Unprocessable")) = 1%nat
  /\ sleeps (emit (Fetched "/api/debates" JNull) (answering 422 "Unprocessable")) = [].
Proof.
  apply (X5_unlisted_status_not_retried RETRY_CONFIG "/api/debates" JNull
           (answering 422 "Unprocessable") (reply 422 "Unprocessable")).
  - reflexivity.
  - reflexivity.
  - simpl. lia.
  - vm_compute. reflexivity.
Defined.

(** X6: The retry decision also looks at the text the server sent: a failed
    response whose status is on neither list is retried all the same when
    its body text contains one of the network error codes. *)
Theorem X6_network_code_in_body_is_retried :
  forall (cfg : RetryConfig) (url : string) (options : Json) (net : Net) (r : Response)
         (text code : string),
    transport net (calls net) url options = Resolves r ->
    ok r = false ->
    ~ In (status r) (nonRetryableStatuses cfg) ->
    isJsonType (contentType r) = false ->
    textBody r = Some text -> text <> "" ->
    In code (networkErrors cfg) -> includes text code = true ->
    1 < maxAttempts cfg ->
    errorOf r = APIError text (status r) JNull
    /\ isRetryableError cfg (errorOf r) = true
    /\ fetchWithRetry cfg url options 1 net
        = fetchWithRetry cfg url options 2
            (retry_state cfg 1 (emit (Fetched url options) net)).
Proof.
  intros cfg url options net r text code Ht Hok Hnon Hct Htext Hne Hin Hinc Hmax.
  assert (errorOf r = APIError text (status r) JNull) as He.
  { unfold errorOf. rewrite Hct, Htext.
    destruct (String.eqb_spec text ""); [done|reflexivity]. }
  assert (isRetryableError cfg (errorOf r) = true) as Hre.
  { rewrite He. unfold isRetryableError. simpl.
    destruct (includesZ (nonRetryableStatuses cfg) (status r)) eqn:E.
    - by apply includesZ_In in E.
    - pose proof (mentions_In _ _ _ Hin Hinc) as Hm. unfold mentions in Hm. by rewrite Hm. }
  split; [exact He|]. split; [exact Hre|].
  rewrite fetchWithRetry_eq, (attemptOnce_status url options net r Ht Hok), Hre.
  assert ((maxAttempts cfg <=? 1) = false) as -> by (apply Z.leb_gt; lia).
  reflexivity.
Qed.

Lemma X6_network_code_in_body_is_retried_witness :
  errorOf (reply 422 "upstream ETIMEDOUT") = APIError "upstream ETIMEDOUT" 422 JNull
  /\ isRetryableError RETRY_CONFIG (errorOf (reply 422 "upstream ETIMEDOUT")) = true
  /\ fetchWithRetry RETRY_CONFIG "/api/debates" JNull 1 (answering 422 "upstream ETIMEDOUT")
      = fetchWithRetry RETRY_CONFIG "/api/debates" JNull 2
          (retry_state RETRY_CONFIG 1
             (emit (Fetched "/api/debates" JNull) (answering 422 "upstream ETIMEDOUT"))).
Proof.
  apply (X6_network_code_in_body_is_retried RETRY_CONFIG "/api/debates" JNull
           (answering 422 "upstream ETIMEDOUT") (reply 422 "upstream ETIMEDOUT")
           "upstream ETIMEDOUT" "ETIMEDOUT").
  - reflexivity.
  - reflexivity.
  - simpl. lia.
  - vm_compute. reflexivity.
  - reflexivity.
  - discriminate.
  - simpl. tauto.
  - vm_compute. reflexivity.
  - simpl. lia.
Defined.

End RetryExtras.

(** * Properties of the session of the API client *)

Module ApiTheory.
Import WS Api Scene.

(** *** Objects *)

Lemma assoc_set_prop (k k' : string) (v : Json) (fields : list (string * Json)) :
  assoc k (set_prop k' v fields) = if String.eqb k k' then Some v else assoc k fields.
Proof.
  induction fields as [|[k0 v0] fields IH]; simpl.
  - done.
  - destruct (String.eqb_spec k' k0) as [->|Hne]; simpl.
    + by destruct (String.eqb_spec k k0).
    + destruct (String.eqb_spec k k0) as [->|Hne'].
      * destruct (String.eqb_spec k0 k'); [congruence|done].
      * exact IH.
Qed.

Lemma assoc_None (k : string) (fields : list (string * Json)) :
  k ∉ fields.*1 -> assoc k fields = None.
Proof.
  induction fields as [|[k0 v0] fields IH]; simpl; [done|].
  rewrite not_elem_of_cons. intros [Hne Hnot].
  destruct (String.eqb_spec k k0); [done|auto].
Qed.

(** In [{ ...target, ...source }] a property of the source wins. *)
Lemma assoc_assign (k : string) (source : list (string * Json)) :
  NoDup source.*1 ->
  forall target,
    assoc k (assign target source)
      = match assoc k source with Some v => Some v | None => assoc k target end.
Proof.
  unfold assign. induction source as [|[k0 v0] source IH]; intros Hnd target; simpl.
  - done.
  - simpl in Hnd. apply NoDup_cons in Hnd as [Hnot Hnd].
    rewrite (IH Hnd), assoc_set_prop.
    destruct (String.eqb_spec k k0) as [->|Hne]; [|done].
    by rewrite (assoc_None k0 source Hnot).
Qed.

Lemma defined_keys (fields : list (string * JsVal)) (k : string) :
  k ∈ (defined fields).*1 -> k ∈ fields.*1.
Proof.
  unfold defined. induction fields as [|[k0 [v0|]] fields IH]; simpl.
  - done.
  - rewrite !elem_of_cons. intros [->|H]; [by left | right; auto].
  - rewrite elem_of_cons. auto.
Qed.

(** [JSON.stringify] of an object literal keeps the properties that have a
    value. *)
Lemma assoc_defined (k : string) (fields : list (string * JsVal)) :
  NoDup fields.*1 -> assoc k (defined fields) = literal_prop k fields.
Proof.
  induction fields as [|[k0 v0] fields IH]; intros Hnd; [done|].
  simpl in Hnd. apply NoDup_cons in Hnd as [Hnot Hnd].
  destruct v0 as [v0|]; unfold defined; simpl; fold (defined fields).
  - destruct (String.eqb_spec k k0); [done|auto].
  - destruct (String.eqb_spec k k0) as [->|Hne]; [|auto].
    apply assoc_None. intros Hin. by apply Hnot, defined_keys.
Qed.

(** *** What reading the token leaves alone *)

Lemma getToken_frame (env : Env) :
  exists o, snd (getToken env) = set_page (set_out o (page_of env)) env.
Proof.
  unfold getToken, Registry.getToken.
  destruct (storage (page_of env)) as [| |user] eqn:Hs.
  - exists (out (page_of env)). destruct env as [b [c w] n l], w. reflexivity.
  - by eexists.
  - destruct (get_prop "access_token" user), (get_prop "token" user); simpl;
      try (by eexists).
    exists (out (page_of env)). destruct env as [b [c w] n l], w. reflexivity.
Qed.

Lemma getToken_value (env : Env) :
  fst (getToken env) = fst (Registry.getToken (page_of env)).
Proof. unfold getToken. by destruct (Registry.getToken (page_of env)). Qed.

(** The token a stored user gives. *)
Lemma getToken_stored (env : Env) (fields : list (string * Json)) :
  storage (page_of env) = Stored (JObj fields) ->
  fst (getToken env) = js_or (assoc "access_token" fields) (assoc "token" fields).
Proof.
  intros Hs. rewrite getToken_value. unfold Registry.getToken. rewrite Hs. reflexivity.
Qed.

Lemma getToken_none (env : Env) :
  storage (page_of env) = NoItem -> fst (getToken env) = null.
Proof. intros Hs. rewrite getToken_value. unfold Registry.getToken. by rewrite Hs. Qed.

Lemma saveUserData_stores (data : Json) (env : Env) :
  data <> JNull ->
  saveUserData data env
    = setItem (JObj (defined [("id", prop "user_id" data);
                              ("username", prop "username" data);
                              ("email", prop "email" data);
                              ("access_token", prop "access_token" data);
                              ("refresh_token", prop "refresh_token" data)])) env.
Proof. intros Hd. destruct data; done. Qed.

Lemma stored_prop_setItem (k : string) (v : Json) (env : Env) :
  stored_prop k (setItem v env) = prop k v.
Proof. reflexivity. Qed.

Lemma five_keys_NoDup (a b c d e : JsVal) :
  NoDup [("id", a); ("username", b); ("email", c); ("access_token", d);
         ("refresh_token", e)].*1.
Proof.
  simpl. repeat (apply NoDup_cons; split;
    [rewrite ?not_elem_of_cons; split_and?; try discriminate; apply not_elem_of_nil|]).
  apply NoDup_nil_2.
Qed.

Lemma saveUserData_spec (data : Json) (env : Env) :
  data <> JNull ->
  let env' := saveUserData data env in
  fst (getToken env') = js_or (prop "access_token" data) undefined
  /\ stored_prop "id" env' = prop "user_id" data
  /\ (forall k, k ∈ ["username"; "email"; "access_token"; "refresh_token"] ->
        stored_prop k env' = prop k data)
  /\ (forall k, k ∉ stored_keys -> stored_prop k env' = None)
  /\ log env' = log env /\ net env' = net env
  /\ connections env' = connections env.
Proof.
  intros Hd env'. unfold env'. rewrite (saveUserData_stores data env Hd).
  set (lit := [("id", prop "user_id" data); _; _; _; _]).
  assert (NoDup lit.*1) as Hnd by apply five_keys_NoDup.
  assert (forall k, stored_prop k (setItem (JObj (defined lit)) env) = literal_prop k lit)
    as Hprop.
  { intros k. rewrite stored_prop_setItem. by apply assoc_defined. }
  split.
  { erewrite getToken_stored; [|reflexivity].
    rewrite !assoc_defined by done. reflexivity. }
  split; [by rewrite Hprop|].
  split.
  { intros k Hk. rewrite Hprop. rewrite !elem_of_cons, elem_of_nil in Hk.
    destruct Hk as [->|[->|[->|[->|[]]]]]; reflexivity. }
  split; [|done].
  intros k Hk. rewrite Hprop. unfold stored_keys in Hk.
  rewrite !not_elem_of_cons in Hk. destruct Hk as (H1 & H2 & H3 & H4 & H5 & _).
  unfold lit. simpl.
  destruct (String.eqb_spec k "id"); [congruence|].
  destruct (String.eqb_spec k "username"); [congruence|].
  destruct (String.eqb_spec k "email"); [congruence|].
  destruct (String.eqb_spec k "access_token"); [congruence|].
  destruct (String.eqb_spec k "refresh_token"); [congruence|done].
Qed.

(** X7: saveUserData followed by getToken: the access token of the saved record
    comes back (and nothing when it is empty or missing); the record holds
    the five properties id, username, email, access_token and refresh_token,
    id being the user_id of the data, and no other property of the data. *)
Theorem X7_saveUserData_round_trip :
  forall (data : Json) (env : Env),
    data <> JNull ->
    let env' := saveUserData data env in
    fst (getToken env') = js_or (prop "access_token" data) undefined
    /\ stored_prop "id" env' = prop "user_id" data
    /\ (forall k, k ∈ ["username"; "email"; "access_token"; "refresh_token"] ->
          stored_prop k env' = prop k data)
    /\ (forall k, k ∉ stored_keys -> stored_prop k env' = None).
Proof.
  intros data env Hd env'.
  destruct (saveUserData_spec data env Hd) as (H1 & H2 & H3 & H4 & _).
  by repeat split.
Qed.

Lemma X7_saveUserData_round_trip_witness :
  fst (getToken (saveUserData alice (session NoItem (serving JNull)))) = Some (JStr "tok-1")
  /\ stored_prop "id" (saveUserData alice (session NoItem (serving JNull))) = Some (JNum 7)
  /\ stored_prop "password_hash" (saveUserData alice (session NoItem (serving JNull))) = None.
Proof.
  destruct (X7_saveUserData_round_trip alice (session NoItem (serving JNull)))
    as (Htok & Hid & _ & Hnone); [discriminate|].
  split; [exact Htok|]. split; [exact Hid|].
  apply Hnone. unfold stored_keys. rewrite !not_elem_of_cons. split_and!; try discriminate.
  apply not_elem_of_nil.
Defined.


(** *** Headers *)

Lemma getAuthHeaders_env (headers : list (string * Json)) (env : Env) :
  snd (getAuthHeaders headers env) = snd (getToken env).
Proof. unfold getAuthHeaders. by destruct (getToken env). Qed.

Lemma getAuthHeaders_frame (headers : list (string * Json)) (env : Env) :
  exists o, snd (getAuthHeaders headers env) = set_page (set_out o (page_of env)) env.
Proof. rewrite getAuthHeaders_env. apply getToken_frame. Qed.

(** X8: The Authorization header is "Bearer " followed by the stored token,
    whatever the caller passed under that name; without a stored token the
    headers of the caller are left as they are. Content-Type is
    application/json unless the caller gives one, and every other header of
    the caller is passed on. *)
Theorem X8_getAuthHeaders :
  forall (headers : list (string * Json)) (env : Env),
    NoDup headers.*1 ->
    let result := fst (getAuthHeaders headers env) in
    let token := fst (getToken env) in
    assoc "Authorization" result
      = (if truthy_val token then Some (JStr ("Bearer " +:+ template token))
         else assoc "Authorization" headers)
    /\ assoc "Content-Type" result
        = Some (default (JStr "application/json") (assoc "Content-Type" headers))
    /\ (forall k, k <> "Authorization" -> k <> "Content-Type" ->
          assoc k result = assoc k headers).
Proof.
  intros headers env Hnd result token. unfold result, token, getAuthHeaders.
  destruct (getToken env) as [tok env1]. simpl.
  assert (forall k, assoc k (assign [("Content-Type", JStr "application/json")] headers)
                    = match assoc k headers with
                      | Some v => Some v
                      | None => if String.eqb k "Content-Type"
                                then Some (JStr "application/json") else None
                      end) as Hassign.
  { intros k. by rewrite (assoc_assign k headers Hnd). }
  destruct (truthy_val tok); simpl.
  - rewrite !assoc_set_prop. simpl. split; [done|]. split.
    + rewrite Hassign. by destruct (assoc "Content-Type" headers).
    + intros k Hk1 Hk2. rewrite assoc_set_prop.
      destruct (String.eqb_spec k "Authorization"); [done|].
      rewrite Hassign. destruct (String.eqb_spec k "Content-Type"); [done|].
      by destruct (assoc k headers).
  - split; [|split].
    + rewrite Hassign. by destruct (assoc "Authorization" headers).
    + rewrite Hassign. by destruct (assoc "Content-Type" headers).
    + intros k Hk1 Hk2. rewrite Hassign.
      destruct (String.eqb_spec k "Content-Type"); [done|].
      by destruct (assoc k headers).
Qed.

Lemma X8_getAuthHeaders_witness :
  assoc "Authorization"
    (fst (getAuthHeaders [("Authorization", JStr "Basic abc"); ("X-Trace", JStr "1")]
            (session (user "tok") (serving JNull))))
    = Some (JStr "Bearer tok")
  /\ assoc "Authorization"
       (fst (getAuthHeaders [("Authorization", JStr "Basic abc"); ("X-Trace", JStr "1")]
               (session NoItem (serving JNull))))
     = Some (JStr "Basic abc").
Proof.
  assert (NoDup [("Authorization", JStr "Basic abc"); ("X-Trace", JStr "1")].*1) as Hnd.
  { simpl. repeat (apply NoDup_cons; split;
      [rewrite ?not_elem_of_cons; split_and?; try discriminate; apply not_elem_of_nil|]).
    apply NoDup_nil_2. }
  split.
  - exact (proj1 (X8_getAuthHeaders _ (session (user "tok") (serving JNull)) Hnd)).
  - exact (proj1 (X8_getAuthHeaders _ (session NoItem (serving JNull)) Hnd)).
Defined.

(** *** Requests *)

Lemma call_answers (url : string) (options : Json) (env : Env) (v : Json) :
  answers url (net env) v ->
  exists net1, call url options env = (inr v, set_net net1 env).
Proof.
  intros Ha. destruct (Ha options) as [net1 Hreq]. exists net1.
  unfold call. by rewrite Hreq.
Qed.

Lemma call_fails (url : string) (options : Json) (env : Env) :
  fails url (net env) ->
  exists t net1, call url options env = (inl t, set_net net1 env).
Proof.
  intros Hf. destruct (Hf options) as [net1 [[e Hreq]|Hreq]].
  - exists (Rejected e), net1. unfold call. by rewrite Hreq.
  - exists BodyRejected, net1. unfold call. by rewrite Hreq.
Qed.

Lemma call_frame (url : string) (options : Json) (env : Env) :
  exists net1, snd (call url options env) = set_net net1 env.
Proof.
  unfold call.
  destruct (Retry.request Retry.RETRY_CONFIG url options (net env)) as [[[v|s]|e|] net1];
    by eexists.
Qed.


(** *** Login and logout *)


Lemma get_prop_prop (k : string) (v : Json) : v <> JNull -> get_prop k v = Some (prop k v).
Proof. by destruct v. Qed.






(** X11: logout removes the stored user whether the request succeeds or fails:
    afterwards getToken gives null and connectWebSocket throws the 401
    APIError. It does not touch the socket clients: the cached clients, the
    sockets and the timers are as before. *)
Theorem X11_logout_clears_session :
  forall (env : Env),
    let env' := snd (logout env) in
    storage (page_of env') = NoItem
    /\ fst (getToken env') = null
    /\ connections env' = connections env
    /\ (forall id handlers arg,
          fst (Registry.connectWebSocket id handlers arg (registry env'))
            = inl (Retry.APIError Registry.NO_TOKEN 401 JNull)).
Proof.
  intros env env'. unfold env', logout.
  destruct (getAuthHeaders_frame [] env) as [o Henv1].
  destruct (getAuthHeaders [] env) as [headers env1]. simpl in Henv1. subst env1.
  match goal with |- context [call ?u ?opts ?e] =>
    destruct (call_frame u opts e) as [net1 Hframe];
    destruct (call u opts e) as [[t|data] env2] end;
    simpl in Hframe; subst env2; simpl;
    (split; [done|]); (split; [first [done | by apply getToken_none]|]);
    (split; [by destruct env as [b [c w] n l], w|]);
    intros id handlers arg; reflexivity.
Qed.

(** *** refreshToken *)

(** X12: Without a stored user, or with one that has no refresh token,
    refreshToken returns false at once: no request is made and nothing
    changes. *)
Theorem X12_refreshToken_nothing_to_refresh :
  forall (env : Env),
    (storage (page_of env) = NoItem
     \/ exists user, storage (page_of env) = Stored user /\ user <> JNull
                     /\ truthy_val (prop "refresh_token" user) = false) ->
    refreshToken env = (false, env).
Proof.
  intros env [Hs|(user & Hs & Hnn & Hrt)]; unfold refreshToken; rewrite Hs; [done|].
  rewrite (get_prop_prop _ _ Hnn), Hrt. reflexivity.
Qed.

Lemma X12_refreshToken_nothing_to_refresh_witness :
  refreshToken (session (user "tok") RetryScene.offline) = (false, session (user "tok") RetryScene.offline).
Proof.
  apply X12_refreshToken_nothing_to_refresh. right.
  exists (JObj [("access_token", JStr "tok")]). split; [reflexivity|]. split; [discriminate|].
  reflexivity.
Defined.

(** X13: A refresh that cannot be completed logs the user out locally: when the
    stored text cannot be parsed, or the request fails, refreshToken prints
    one line, removes the stored user and returns false. *)
Theorem X13_refreshToken_failure_clears :
  forall (env : Env),
    (storage (page_of env) = Unparseable
     \/ exists user, storage (page_of env) = Stored user /\ user <> JNull
                     /\ truthy_val (prop "refresh_token" user) = true
                     /\ fails (API_BASE env +:+ "/auth/refresh") (net env)) ->
    let res := refreshToken env in
    fst res = false
    /\ storage (page_of (snd res)) = NoItem
    /\ fst (getToken (snd res)) = null
    /\ (exists t, log (snd res) = log env ++ [ErrRefreshToken t])
    /\ connections (snd res) = connections env.
Proof.
  intros env [Hs|(user & Hs & Hnn & Hrt & Hf)] res; unfold res, refreshToken; rewrite Hs.
  - simpl. split; [done|]. split; [done|]. split; [first [done | by apply getToken_none]|].
    split; [by eexists|]. by destruct env as [b [c w] n l], w.
  - rewrite (get_prop_prop _ _ Hnn), Hrt. simpl.
    destruct (getAuthHeaders_frame [] env) as [o Henv1].
    destruct (getAuthHeaders [] env) as [headers env1]. simpl in Henv1. subst env1.
    match goal with |- context [call ?u ?opts ?e] =>
      destruct (call_fails u opts e Hf) as (t & net1 & ->) end.
    simpl. split; [done|]. split; [done|]. split; [first [done | by apply getToken_none]|].
    split; [by eexists|]. by destruct env as [b [c w] n l], w.
Qed.

Lemma X13_refreshToken_failure_clears_witness :
  fst (refreshToken (session (Stored alice) RetryScene.offline)) = false
  /\ storage (page_of (snd (refreshToken (session (Stored alice) RetryScene.offline)))) = NoItem.
Proof.
  destruct (X13_refreshToken_failure_clears (session (Stored alice) RetryScene.offline))
    as (H1 & H2 & _).
  - right. exists alice. split; [reflexivity|]. split; [discriminate|].
    split; [reflexivity|].
    intros options. eexists. left. eexists. vm_compute. reflexivity.
  - split; [exact H1 | exact H2].
Defined.


Lemma spread_prop_assign (k : string) (user data : list (string * Json)) (inner : JsVal) :
  NoDup user.*1 -> NoDup data.*1 -> NoDup (own_props inner).*1 ->
  assoc k (assign (assign (assign [] user) data) (own_props inner))
    = spread_prop k user data inner.
Proof.
  intros Hu Hd Hi. unfold spread_prop.
  rewrite (assoc_assign k _ Hi), (assoc_assign k _ Hd), (assoc_assign k _ Hu).
  simpl. destruct (assoc k (own_props inner)); [done|].
  destruct (assoc k data); [done|]. by destruct (assoc k user).
Qed.

(** X14: A successful refresh stores the merge of the old record, the answer and
    the data property of the answer, later ones winning: getToken then gives
    the merged access token, and a refresh token the answer does not renew
    is kept. The stored id is the user_id of the merge: the id stored before
    is not read, so it is lost unless the answer brings a user_id. *)
Theorem X14_refreshToken_merges_answer :
  forall (env : Env) (user data : list (string * Json)),
    storage (page_of env) = Stored (JObj user) -> NoDup user.*1 ->
    truthy_val (assoc "refresh_token" user) = true ->
    answers (API_BASE env +:+ "/auth/refresh") (net env) (JObj data) ->
    NoDup data.*1 -> NoDup (own_props (assoc "data" data)).*1 ->
    truthy_val (js_or (assoc "success" data) (assoc "access_token" data)) = true ->
    let res := refreshToken env in
    let merged := fun k => spread_prop k user data (assoc "data" data) in
    fst res = true
    /\ fst (getToken (snd res)) = js_or (merged "access_token") undefined
    /\ stored_prop "id" (snd res) = merged "user_id"
    /\ (forall k, k ∈ ["username"; "email"; "access_token"; "refresh_token"] ->
          stored_prop k (snd res) = merged k)
    /\ log (snd res) = log env
    /\ connections (snd res) = connections env.
Proof.
  intros env user data Hs Hu Hrt Ha Hd Hi Hok res merged.
  unfold res, refreshToken. rewrite Hs. simpl. rewrite Hrt. simpl.
  destruct (getAuthHeaders_frame [] env) as [o Henv1].
  destruct (getAuthHeaders [] env) as [headers env1]. simpl in Henv1. subst env1.
  match goal with |- context [call ?u ?opts ?e] =>
    destruct (call_answers u opts e (JObj data) Ha) as [net1 ->] end.
  unfold get_prop. rewrite Hok.
  set (m := JObj _). set (env2 := set_net _ _).
  assert (m <> JNull) as Hnn by done.
  assert (forall k, prop k m = merged k) as Hm.
  { intros k. unfold m, merged. apply spread_prop_assign; done. }
  destruct (saveUserData_spec m env2 Hnn) as (Htok & Hid & Hkeys & _ & Hlog & _ & Hconn).
  cbn [fst snd]. rewrite Htok, Hid, Hlog, Hconn, !Hm.
  split; [done|]. split; [done|]. split; [done|].
  split; [intros k Hk; by rewrite (Hkeys k Hk), Hm|].
  split; [done|]. unfold env2. by destruct env as [b [c w] n l], w.
Qed.

Lemma X14_refreshToken_merges_answer_witness :
  fst (refreshToken
         (session (Stored alice_stored) (serving (JObj [("access_token", JStr "tok-2")]))))
    = true
  /\ fst (getToken (snd (refreshToken
         (session (Stored alice_stored) (serving (JObj [("access_token", JStr "tok-2")]))))))
     = Some (JStr "tok-2")
  /\ stored_prop "refresh_token" (snd (refreshToken
         (session (Stored alice_stored) (serving (JObj [("access_token", JStr "tok-2")])))))
     = Some (JStr "ref-1")
  /\ stored_prop "id" (snd (refreshToken
         (session (Stored alice_stored) (serving (JObj [("access_token", JStr "tok-2")])))))
     = None.
Proof.
  assert (forall l : list (string * Json), bool_decide (NoDup l.*1) = true -> NoDup l.*1)
    as Hdec by (intros l; apply bool_decide_eq_true_1).
  destruct (X14_refreshToken_merges_answer
              (session (Stored alice_stored) (serving (JObj [("access_token", JStr "tok-2")])))
              [("id", JNum 7); ("username", JStr "alice"); ("email", JStr "a@example.org");
               ("access_token", JStr "tok-1"); ("refresh_token", JStr "ref-1")]
              [("access_token", JStr "tok-2")])
    as (H1 & H2 & H3 & H4 & _).
  - reflexivity.
  - apply Hdec. vm_compute. reflexivity.
  - reflexivity.
  - intros options. eexists. vm_compute. reflexivity.
  - apply Hdec. vm_compute. reflexivity.
  - apply Hdec. vm_compute. reflexivity.
  - reflexivity.
  - split; [exact H1|]. split; [exact H2|]. split; [|exact H3].
    apply (H4 "refresh_token"). rewrite !elem_of_cons. tauto.
Defined.

(** *** Other requests *)

(** X15: The request of getDebates carries, as its Authorization header, the
    token passed by the caller when there is one, and the stored token
    otherwise; with neither it carries no Authorization header. *)
Theorem X15_getDebates_authorization :
  forall (token : JsVal) (env : Env),
    exists headers rest,
      Retry.trace (net (snd (getDebates token env)))
        = Retry.trace (net env)
          ++ Retry.Fetched (API_BASE env +:+ "/debates")
               (JObj [("method", JStr "GET"); ("headers", JObj headers)]) :: rest
      /\ assoc "Authorization" headers
          = (if truthy_val token then bearer token else bearer (fst (getToken env))).
Proof.
  intros token env. unfold getDebates.
  assert (assoc "Authorization" (fst (getAuthHeaders [] env)) = bearer (fst (getToken env)))
    as Hauth.
  { unfold getAuthHeaders, bearer. destruct (getToken env) as [tok env1]. cbn [fst].
    destruct (truthy_val tok); [by rewrite assoc_set_prop|done]. }
  destruct (getAuthHeaders_frame [] env) as [o Henv1].
  destruct (getAuthHeaders [] env) as [headers0 env1]. simpl in Henv1, Hauth. subst env1.
  set (headers := if truthy_val token then _ else _).
  exists headers.
  match goal with |- context [call ?u ?opts ?e] =>
    set (url := u); set (options := opts); set (env1 := e) end.
  assert (exists rest, Retry.trace (net (snd (call url options env1)))
                       = Retry.trace (net env) ++ Retry.Fetched url options :: rest)
    as [rest Hrest].
  { assert ((Retry.trace (net env) ++ [Retry.Fetched url options])
              `prefix_of` Retry.trace
                 (snd (Retry.fetchWithRetry Retry.RETRY_CONFIG url options 1 (net env))))
      as [rest Hp] by apply RetryTheory.run_starts_with_fetch.
    exists rest. rewrite <- app_assoc in Hp.
    unfold call, Retry.request. change (net env1) with (net env).
    destruct (Retry.fetchWithRetry Retry.RETRY_CONFIG url options 1 (net env)) as [[r|e] n1];
      [|exact Hp].
    destruct (Retry.handleResponse r) as [[v|s]|]; exact Hp. }
  exists rest. split.
  - destruct (call url options env1) as [[t|data] env2]; simpl in Hrest; [done|].
    by destruct (unwrap data).
  - unfold headers, bearer. destruct (truthy_val token); [by rewrite assoc_set_prop|done].
Qed.

(** X16: The text getErrorMessage gives is never empty: an error without a
    message gets a fallback text, a failed fetch the network text, and the
    message of any other error is passed on as it is. *)
Theorem X16_getErrorMessage_never_empty :
  forall (error : Retry.JsError),
    getErrorMessage error <> ""
    /\ (getErrorMessage error = Retry.err_message error
        \/ getErrorMessage error = NETWORK_FAILED
        \/ Retry.err_message error = "").
Proof.
  intros [message st data|name message]; simpl.
  - destruct (String.eqb_spec message ""); [by split; [|auto]|by split; [|auto]].
  - destruct (String.eqb name "TypeError" && includes message "fetch");
      [by split; [|auto]|].
    destruct (String.eqb_spec message ""); by split; [|auto].
Qed.

End ApiTheory.

(** * Further properties of the WebSocket client *)

Module StreamExtras.
Import WS Exports StreamTheory.

Ltac open_state s :=
  destruct s as [c w];
  destruct c as [did hs cfg sock ing ed again n rt hb q tok];
  destruct w as [sto sec hst socks tms nxt o].

Lemma Forall_filter_keep {A} (P : A -> Prop) (f : A -> bool) (l : list A) :
  Forall P l -> Forall P (List.filter f l).
Proof.
  intros H. apply Forall_forall. intros x Hx.
  apply list_elem_of_In, List.filter_In in Hx as [Hx _].
  rewrite Forall_forall in H. by apply H, list_elem_of_In.
Qed.

Lemma Forall_lt_step (l : list Timer) (nxt : positive) :
  Forall (fun t => (timer_id t < nxt)%positive) l ->
  Forall (fun t => (timer_id t < Pos.succ nxt)%positive) l.
Proof. intros H. eapply Forall_impl; [exact H|]. intros t. simpl. lia. Qed.

Lemma NoDup_ids_filter (f : Timer -> bool) (l : list Timer) :
  NoDup (timer_id <$> l) -> NoDup (timer_id <$> List.filter f l).
Proof.
  intros H. eapply (sublist_NoDup _ (timer_id <$> l)); [exact H|].
  apply fmap_sublist. apply filter_sublist.
Qed.

Lemma NoDup_ids_snoc (l : list Timer) (t : Timer) :
  Forall (fun t' => (timer_id t' < timer_id t)%positive) l ->
  NoDup (timer_id <$> l) -> NoDup (timer_id <$> (l ++ [t])).
Proof.
  intros Hlt Hnd. rewrite fmap_app. apply NoDup_app. split; [done|]. split.
  - intros x Hx Hx'. simpl in Hx'. apply list_elem_of_singleton in Hx'. subst.
    apply list_elem_of_fmap in Hx as (t' & Heq & Ht').
    rewrite Forall_forall in Hlt. specialize (Hlt t' Ht'). lia.
  - simpl. apply NoDup_singleton.
Qed.

Lemma elem_of_filter_ne (id : positive) (t : Timer) (l : list Timer) :
  t ∈ List.filter (fun t' => negb (Pos.eqb (timer_id t') id)) l <->
  t ∈ l /\ timer_id t <> id.
Proof.
  rewrite !list_elem_of_In, List.filter_In, negb_true_iff, Pos.eqb_neq. done.
Qed.


(** *** The invariants of a client *)

Ltac timers_tac :=
  repeat match goal with
  | |- Forall _ (_ ++ _) => apply Forall_app; split
  | |- Forall _ [_] => apply Forall_singleton; simpl; lia
  | |- Forall _ [] => constructor
  | |- Forall (fun t => (timer_id t < Pos.succ _)%positive) _ => apply Forall_lt_step
  | |- Forall _ (List.filter _ _) => apply Forall_filter_keep
  | |- NoDup (timer_id <$> (_ ++ [_])) => apply NoDup_ids_snoc; simpl
  | |- NoDup (timer_id <$> List.filter _ _) => apply NoDup_ids_filter
  | |- NoDup (timer_id <$> []) => constructor
  end; try assumption.

Ltac member_tac H :=
  repeat first
    [ rewrite elem_of_app in H
    | rewrite elem_of_filter_ne in H
    | rewrite list_elem_of_singleton in H
    | rewrite elem_of_nil in H ];
  intuition (try discriminate; try congruence).

Ltac sound_tac Hs :=
  destruct Hs as [Hfresh Hnd Hrec Hknown Hconn Hatt]; simpl in *;
  constructor; simpl;
  [ timers_tac
  | timers_tac
  | let id := fresh "id" in let ms := fresh "ms" in let Hin := fresh "Hin" in
    intros id ms Hin; try (member_tac Hin); simpl in *;
    try (match goal with
         | H : Interval ?i ?m ∈ _ |- _ => specialize (Hrec i m H); congruence
         end)
  | let id := fresh "id" in let Hid := fresh "Hid" in
    intros id Hid;
    first [ discriminate
          | specialize (Hknown _ Hid); lia
          | injection Hid as <-; first [lia | specialize (Hknown _ eq_refl); lia] ]
  | try done; try (intros; auto; congruence)
  | try lia ].

Lemma sound_same (s s' : Sys) :
  skeleton s' = skeleton s -> sound (skeleton s) -> sound (skeleton s').
Proof. by intros ->. Qed.

Lemma sound_opened (k : Skeleton) : sound k -> sound (skeleton_opened k).
Proof.
  intros Hs. destruct k as [sock ing ed again n rt hb cfg tok socks tms nxt sto].
  unfold skeleton_opened. destruct hb as [h|]; sound_tac Hs.
Qed.

Lemma sound_mark (i : nat) (st : ReadyState) (s : Sys) :
  sound (skeleton s) -> sound (skeleton (mark i st s)).
Proof. intros Hs. open_state s. sound_tac Hs. Qed.

Lemma sound_handleClose (s : Sys) :
  sound (skeleton s) -> sound (skeleton (exec handleClose s)).
Proof.
  intros Hs. open_state s.
  destruct hb as [h|]; run_method;
    (destruct (again && enabled cfg); simpl;
     [destruct (maxAttempts cfg <=? Z.of_nat n) eqn:Hmax; simpl|]);
    try apply Z.leb_gt in Hmax; sound_tac Hs.
Qed.


Ltac split_cases :=
  repeat match goal with
  | |- context [match ?x with _ => _ end] =>
      match type of x with
      | sumbool _ _ => fail 1
      | _ => let E := fresh "E" in destruct x eqn:E; simpl in *
      end
  end.

Lemma sound_handleConnectionError (error : Exn) (s : Sys) :
  sound (skeleton s) -> sound (skeleton (exec (handleConnectionError error) s)).
Proof.
  intros Hs. open_state s. run_method.
  destruct (again && enabled cfg); simpl;
    [destruct (maxAttempts cfg <=? Z.of_nat n) eqn:Hmax; simpl|];
    try apply Z.leb_gt in Hmax; sound_tac Hs.
Qed.

Lemma sound_flags (f : Client -> Client) (s : Sys) :
  (forall c, heartbeatTimer (f c) = heartbeatTimer c
             /\ isConnected (f c) = isConnected c
             /\ reconnectAttempts (f c) = reconnectAttempts c
             /\ config (f c) = config c) ->
  sound (skeleton s) -> sound (skeleton (with_this f s)).
Proof.
  intros Hf Hs. destruct s as [c w]. destruct (Hf c) as (H1 & H2 & H3 & H4).
  destruct Hs as [Hfresh Hnd Hrec Hknown Hconn Hatt]. simpl in *.
  constructor; simpl; rewrite ?H1, ?H2, ?H3, ?H4; done.
Qed.

Lemma sound_printing (obs : list Obs) (s : Sys) :
  sound (skeleton s) -> sound (skeleton (printing obs s)).
Proof. intros Hs. by rewrite skeleton_printing. Qed.

Lemma sound_getToken (s : Sys) :
  sound (skeleton s) -> sound (skeleton (exec getToken s)).
Proof.
  intros Hs. destruct (getToken_exec s) as [v Hv]. unfold exec. rewrite Hv. simpl.
  destruct s as [c w]. destruct Hs as [Hfresh Hnd Hrec Hknown Hconn Hatt].
  destruct c, w. by constructor.
Qed.

Lemma sound_open_transport (s : Sys) :
  sound (skeleton s) -> sound (skeleton (exec open_transport s)).
Proof.
  intros Hs. destruct (truthy_val (token (this s))) eqn:Ht.
  - destruct (token (this s)) as [tok|] eqn:Htok; [|done].
    unfold exec. rewrite (open_transport_opens s tok Htok Ht). simpl.
    destruct s as [c w]. destruct Hs as [Hfresh Hnd Hrec Hknown Hconn Hatt].
    destruct c, w. by constructor.
  - unfold exec. rewrite (open_transport_fails s Ht).
    apply sound_handleConnectionError.
    apply (sound_flags (set_isConnecting false)); [by intros []|].
    by apply sound_printing.
Qed.

Lemma sound_connect (s : Sys) :
  sound (skeleton s) -> sound (skeleton (exec connect s)).
Proof.
  intros Hs.
  destruct (isConnecting (this s) || isConnected (this s)) eqn:Hbusy.
  - unfold exec. rewrite (connect_busy s Hbusy). by apply sound_printing.
  - apply orb_false_elim in Hbusy as [Hing Hed].
    rewrite (connect_idle_eq s Hing Hed).
    apply sound_open_transport, sound_getToken.
    apply (sound_flags (set_isConnecting true)); [by intros []|done].
Qed.

Lemma sound_disconnect (s : Sys) :
  sound (skeleton s) -> sound (skeleton (exec disconnect s)).
Proof.
  intros Hs. open_state s.
  destruct rt as [r|], hb as [h|], sock as [i|]; run_disconnect; sound_tac Hs.
Qed.

Lemma sound_reconnect (s : Sys) :
  sound (skeleton s) -> sound (skeleton (exec reconnect s)).
Proof.
  intros Hs. rewrite reconnect_eq. apply sound_connect.
  pose proof (sound_disconnect s Hs) as Hd.
  destruct (exec disconnect s) as [c w].
  destruct Hd as [Hfresh Hnd Hrec Hknown Hconn Hatt]. destruct c, w. simpl in *.
  constructor; simpl; try done. lia.
Qed.

Lemma sound_clearTimer (id : positive) (s : Sys) :
  sound (skeleton s) -> sound (skeleton (exec (clearTimer id) s)).
Proof. intros Hs. open_state s. run_method. sound_tac Hs. Qed.

Lemma sound_dispatch (e : Event) (s s' : Sys) :
  sound (skeleton s) -> dispatch e s = Some s' -> sound (skeleton s').
Proof.
  intros Hs Hd. destruct e; unfold dispatch in Hd.
  - destruct (sockets (world s) !! i) as [k|]; simpl in Hd; [|done].
    destruct (readyState k), (wired k); try done. injection Hd as <-.
    rewrite handleOpen_skeleton. by apply sound_opened, sound_mark.
  - destruct (sockets (world s) !! i) as [k|]; simpl in Hd; [|done].
    destruct (readyState k), (wired k); try done. injection Hd as <-.
    by rewrite handleMessage_skeleton.
  - destruct (sockets (world s) !! i) as [k|]; simpl in Hd; [|done].
    destruct (readyState k), (wired k); try done; injection Hd as <-;
      rewrite handleError_eq; by apply sound_printing.
  - destruct (sockets (world s) !! i) as [k|]; simpl in Hd; [|done].
    destruct (readyState k), (wired k); try done; injection Hd as <-;
      by apply sound_handleClose, sound_mark.
  - destruct (find_timer id (world s)) as [t|]; simpl in Hd; [|done].
    destruct t; injection Hd as <-.
    + by apply sound_connect, sound_clearTimer.
    + by rewrite heartbeat_skeleton.
  - injection Hd as <-. open_state s. sound_tac Hs.
  - injection Hd as <-. by apply sound_connect.
  - injection Hd as <-. by apply sound_disconnect.
  - injection Hd as <-. by apply sound_reconnect.
  - injection Hd as <-. destruct (send_skeleton message s) as (b & _ & Hk & _).
    by rewrite Hk.
  - injection Hd as <-. open_state s. sound_tac Hs.
  - injection Hd as <-. open_state s. sound_tac Hs.
Qed.

Lemma run_sound (events : list Event) :
  forall s s', sound (skeleton s) -> run events s = Some s' -> sound (skeleton s').
Proof.
  induction events as [|e events IH]; intros s s' Hs Hrun; simpl in Hrun.
  - by injection Hrun as <-.
  - destruct (dispatch e s) as [s1|] eqn:Hd; simpl in Hrun; [|done].
    eapply IH; [|done]. by eapply sound_dispatch.
Qed.

Lemma sound_construct (id : string) (handlers : gmap string nat) (arg : ConfigArg)
    (w : World) :
  timers w = [] -> sound (skeleton (construct id handlers arg w)).
Proof.
  intros Hw. unfold construct. apply sound_getToken.
  destruct w. simpl in *. subst. constructor; simpl; try done; try constructor.
  - intros id0 ms Hin. by apply elem_of_nil in Hin.
  - lia.
Qed.


Lemma same_id_short (l : list Timer) (id : positive) :
  NoDup (timer_id <$> l) -> (forall t, t ∈ l -> timer_id t = id) -> (length l <= 1)%nat.
Proof.
  intros Hnd Hall. destruct l as [|t1 [|t2 l]]; simpl; try lia.
  exfalso. simpl in Hnd. apply NoDup_cons in Hnd as [Hnot _]. apply Hnot.
  rewrite (Hall t1), <- (Hall t2); [left | right; left | left].
Qed.

Lemma intervals_spec (s : Sys) (t : Timer) :
  t ∈ intervals s <-> t ∈ timers (world s) /\ exists id ms, t = Interval id ms.
Proof.
  unfold intervals. rewrite !list_elem_of_In, List.filter_In. split.
  - intros [Hin Hi]. split; [done|]. destruct t; [done|by eexists _, _].
  - intros [Hin (id & ms & ->)]. done.
Qed.

(** X17: At any moment at most one heartbeat interval is pending, it is the one
    recorded in heartbeatTimer, and none is pending while the client is not
    connected: restarting the heartbeat, closing, disconnecting and
    reconnecting never leave an interval behind. *)
Theorem X17_one_heartbeat :
  forall (id : string) (handlers : gmap string nat) (arg : ConfigArg) (w : World)
         (events : list Event) (s : Sys),
    timers w = [] ->
    run events (construct id handlers arg w) = Some s ->
    (length (intervals s) <= 1)%nat
    /\ (forall t, t ∈ intervals s -> heartbeatTimer (this s) = Some (timer_id t))
    /\ (isConnected (this s) = false -> intervals s = []).
Proof.
  intros id handlers arg w events s Hw Hrun.
  pose proof (run_sound events _ s (sound_construct id handlers arg w Hw) Hrun)
    as [Hfresh Hnd Hrec Hknown Hconn Hatt].
  simpl in *.
  assert (forall t, t ∈ intervals s -> heartbeatTimer (this s) = Some (timer_id t)) as Hall.
  { intros t Ht. apply intervals_spec in Ht as [Hin (i & ms & ->)]. by apply (Hrec i ms). }
  split; [|split; [exact Hall|]].
  - destruct (heartbeatTimer (this s)) as [h|] eqn:Hh.
    + apply (same_id_short _ h).
      * unfold intervals. by apply NoDup_ids_filter.
      * intros t Ht. specialize (Hall t Ht). congruence.
    + destruct (intervals s) as [|t l]; [simpl; lia|].
      specialize (Hall t ltac:(left)). discriminate.
  - intros Hed. specialize (Hconn Hed).
    destruct (intervals s) as [|t l]; [done|].
    specialize (Hall t ltac:(left)). congruence.
Qed.

Lemma X17_one_heartbeat_witness :
  let s := default fresh
             (run [CallConnect; SocketOpens 0; CallReconnect; SocketOpens 1; SocketCloses 0]
                fresh) in
  (length (intervals s) <= 1)%nat
  /\ (forall t, t ∈ intervals s -> heartbeatTimer (this s) = Some (timer_id t))
  /\ (isConnected (this s) = false -> intervals s = []).
Proof.
  apply (X17_one_heartbeat "42" ∅ no_config (page (user "tok"))
           [CallConnect; SocketOpens 0; CallReconnect; SocketOpens 1; SocketCloses 0]).
  - reflexivity.
  - vm_compute. reflexivity.
Defined.


(** *** What no event changes, and what only sends and opens change *)

Lemma skeleton_config (s s' : Sys) :
  skeleton s' = skeleton s -> config (this s') = config (this s).
Proof. intros H. by injection H. Qed.

Lemma config_handleConnectionError (error : Exn) (s : Sys) :
  config (this (exec (handleConnectionError error) s)) = config (this s)
  /\ messageQueue (this (exec (handleConnectionError error) s)) = messageQueue (this s).
Proof.
  open_state s. run_method.
  destruct (again && enabled cfg); simpl;
    [destruct (maxAttempts cfg <=? Z.of_nat n); simpl|]; done.
Qed.

Lemma config_connect (s : Sys) :
  config (this (exec connect s)) = config (this s)
  /\ messageQueue (this (exec connect s)) = messageQueue (this s).
Proof.
  destruct (isConnecting (this s) || isConnected (this s)) eqn:Hbusy.
  - unfold exec. by rewrite (connect_busy s Hbusy).
  - apply orb_false_elim in Hbusy as [Hing Hed].
    rewrite (connect_idle_eq s Hing Hed).
    set (s0 := with_this (set_isConnecting true) s).
    assert (config (this s0) = config (this s)
            /\ messageQueue (this s0) = messageQueue (this s)) as [Hc0 Hq0]
      by (by destruct s as [[] ?]).
    rewrite <- Hc0, <- Hq0. clearbody s0.
    destruct (getToken_exec s0) as [v Hv].
    set (s1 := exec getToken s0).
    assert (config (this s1) = config (this s0)
            /\ messageQueue (this s1) = messageQueue (this s0)) as [Hc1 Hq1].
    { unfold s1, exec. rewrite Hv. by destruct s0 as [[] ?]. }
    rewrite <- Hc1, <- Hq1. clearbody s1.
    destruct (truthy_val (token (this s1))) eqn:Ht.
    + destruct (token (this s1)) as [tok|] eqn:Htok; [|done].
      unfold exec. rewrite (open_transport_opens s1 tok Htok Ht). by destruct s1 as [[] ?].
    + unfold exec. rewrite (open_transport_fails s1 Ht).
      match goal with |- context [handleConnectionError ?e ?st] =>
        destruct (config_handleConnectionError e st) as [H1 H2] end.
      unfold exec in H1, H2. rewrite H1, H2. by destruct s1 as [[] ?].
Qed.

Lemma config_disconnect (s : Sys) :
  config (this (exec disconnect s)) = config (this s)
  /\ messageQueue (this (exec disconnect s)) = messageQueue (this s).
Proof.
  open_state s. destruct rt as [r|], hb as [h|], sock as [i|]; run_disconnect; done.
Qed.

Lemma config_handleClose (s : Sys) :
  config (this (exec handleClose s)) = config (this s)
  /\ messageQueue (this (exec handleClose s)) = messageQueue (this s).
Proof.
  open_state s. destruct hb as [h|]; run_method;
    (destruct (again && enabled cfg); simpl;
     [destruct (maxAttempts cfg <=? Z.of_nat n); simpl|]); done.
Qed.

Lemma queue_handleMessage (parsed : option Json) (s : Sys) :
  messageQueue (this (exec (handleMessage parsed) s)) = messageQueue (this s).
Proof.
  open_state s. destruct parsed as [data|]; run_method; [|done].
  destruct (get_prop "type" data) as [[ty|]|]; simpl; try done.
  destruct (truthy ty); simpl; [|done]. by destruct (channel ty).
Qed.

Lemma queue_heartbeat (s : Sys) :
  messageQueue (this (exec heartbeat s)) = messageQueue (this s).
Proof.
  open_state s. destruct ed, sock as [i|]; run_method; try done.
  destruct (socks !! i) as [k|]; simpl; [|done]. by destruct (readyState k).
Qed.

(** The configuration of a client is never changed, and the queue only by
    sends and by the opening of a socket. *)
Lemma dispatch_keeps (e : Event) (s s' : Sys) :
  dispatch e s = Some s' ->
  config (this s') = config (this s)
  /\ (keeps_queue e -> messageQueue (this s') = messageQueue (this s)).
Proof.
  intros Hd. destruct e; unfold dispatch in Hd.
  - destruct (sockets (world s) !! i) as [k|]; simpl in Hd; [|done].
    destruct (readyState k), (wired k); try done. injection Hd as <-.
    split; [|done]. pose proof (handleOpen_skeleton (mark i OPEN s)) as Hk.
    unfold skeleton, skeleton_opened in Hk. simpl in Hk. by injection Hk.
  - destruct (sockets (world s) !! i) as [k|]; simpl in Hd; [|done].
    destruct (readyState k), (wired k); try done. injection Hd as <-.
    split; [apply skeleton_config, handleMessage_skeleton|intros _; apply queue_handleMessage].
  - destruct (sockets (world s) !! i) as [k|]; simpl in Hd; [|done].
    destruct (readyState k), (wired k); try done; injection Hd as <-;
      rewrite handleError_eq; done.
  - destruct (sockets (world s) !! i) as [k|]; simpl in Hd; [|done].
    destruct (readyState k), (wired k); try done; injection Hd as <-;
      match goal with |- context [exec handleClose ?st] =>
        destruct (config_handleClose st) as [-> ->] end; done.
  - destruct (find_timer id (world s)) as [t|]; simpl in Hd; [|done].
    destruct t; injection Hd as <-.
    + match goal with |- context [exec connect ?st] =>
        destruct (config_connect st) as [-> ->] end. done.
    + split; [apply skeleton_config, heartbeat_skeleton|intros _; apply queue_heartbeat].
  - by injection Hd as <-.
  - injection Hd as <-. destruct (config_connect s) as [-> ->]. done.
  - injection Hd as <-. destruct (config_disconnect s) as [-> ->]. done.
  - injection Hd as <-. rewrite reconnect_eq.
    match goal with |- context [exec connect ?st] =>
      destruct (config_connect st) as [-> ->] end.
    destruct (config_disconnect s) as [Hc Hq].
    destruct (exec disconnect s) as [[] ?]. simpl in *. by rewrite Hc, Hq.
  - injection Hd as <-. split; [|done].
    destruct (send_skeleton message s) as (b & _ & Hk & _). by apply skeleton_config.
  - by injection Hd as <-.
  - by injection Hd as <-.
Qed.

Lemma run_keeps (events : list Event) :
  forall s s', run events s = Some s' ->
    config (this s') = config (this s)
    /\ (Forall keeps_queue events -> messageQueue (this s') = messageQueue (this s)).
Proof.
  induction events as [|e events IH]; intros s s' Hrun; simpl in Hrun.
  - by injection Hrun as <-.
  - destruct (dispatch e s) as [s1|] eqn:Hd; simpl in Hrun; [|done].
    destruct (IH s1 s' Hrun) as [Hc Hq]. destruct (dispatch_keeps e s s1 Hd) as [Hc1 Hq1].
    split; [congruence|].
    intros Hall. inversion Hall as [|? ? He Hrest]; subst.
    rewrite (Hq Hrest). by apply Hq1.
Qed.

Lemma construct_config (id : string) (handlers : gmap string nat) (arg : ConfigArg)
    (w : World) :
  config (this (construct id handlers arg w)) = spread RECONNECT_CONFIG arg.
Proof.
  unfold construct. match goal with |- context [exec getToken ?st] =>
    destruct (getToken_exec st) as [v Hv]; unfold exec; rewrite Hv end. done.
Qed.

(** X18: The configuration of a client stays the one the constructor made, and
    the attempt counter never exceeds its maxAttempts (5 unless the caller
    passed another; the counter stays 0 when maxAttempts is negative),
    whatever events occur. *)
Theorem X18_attempts_within_limit :
  forall (id : string) (handlers : gmap string nat) (arg : ConfigArg) (w : World)
         (events : list Event) (s : Sys),
    timers w = [] ->
    run events (construct id handlers arg w) = Some s ->
    config (this s) = spread RECONNECT_CONFIG arg
    /\ Z.of_nat (reconnectAttempts (this s))
        <= Z.max 0 (default 5 (arg_maxAttempts arg)).
Proof.
  intros id handlers arg w events s Hw Hrun.
  pose proof (run_sound events _ s (sound_construct id handlers arg w Hw) Hrun)
    as [_ _ _ _ _ Hatt].
  destruct (run_keeps events _ s Hrun) as [Hc _].
  rewrite construct_config in Hc. simpl in Hatt. rewrite Hc in Hatt.
  split; [exact Hc | exact Hatt].
Qed.

Lemma X18_attempts_within_limit_witness :
  let s := default fresh
             (run [CallConnect; SocketCloses 0; TimerFires 1; SocketCloses 1] fresh) in
  config (this s) = spread RECONNECT_CONFIG no_config
  /\ Z.of_nat (reconnectAttempts (this s)) <= Z.max 0 (default 5 (arg_maxAttempts no_config)).
Proof.
  apply (X18_attempts_within_limit "42" ∅ no_config (page (user "tok"))
           [CallConnect; SocketCloses 0; TimerFires 1; SocketCloses 1]).
  - reflexivity.
  - vm_compute. reflexivity.
Defined.







(** *** Backoff *)

(** X20: A successful opening resets the backoff: when the socket that opened
    closes again, the reconnect is scheduled after min(baseDelay, maxDelay),
    as for a first attempt, however many attempts preceded the opening. *)
Theorem X20_open_resets_backoff :
  forall (s s1 s2 : Sys) (i : nat),
    dispatch (SocketOpens i) s = Some s1 ->
    dispatch (SocketCloses i) s1 = Some s2 ->
    shouldReconnect (this s) = true ->
    enabled (config (this s)) = true ->
    0 < maxAttempts (config (this s)) ->
    reconnectAttempts (this s1) = 0%nat
    /\ reconnectAttempts (this s2) = 1%nat
    /\ reconnectTimer (this s2) = Some (next_timer (world s1))
    /\ exists rest,
         timers (world s2)
           = rest ++ [Timeout (next_timer (world s1))
                        (Z.min (baseDelay (config (this s))) (maxDelay (config (this s))))].
Proof.
  intros s s1 s2 i Hopen Hclose Hag Hen Hmax.
  assert (reconnectAttempts (this s1) = 0%nat
          /\ shouldReconnect (this s1) = true
          /\ config (this s1) = config (this s)) as (Hn1 & Hag1 & Hcfg1).
  { unfold dispatch in Hopen.
    destruct (sockets (world s) !! i) as [k|]; simpl in Hopen; [|done].
    destruct (readyState k), (wired k); try done. injection Hopen as <-.
    pose proof (handleOpen_skeleton (mark i OPEN s)) as Hk.
    unfold skeleton, skeleton_opened in Hk. simpl in Hk.
    injection Hk as _ _ _ H1 H2 _ _ H3 _ _ _ _ _. by rewrite H1, H2, H3. }
  destruct (dispatch_close i s1 s2 Hclose) as [-> _].
  assert (reconnectAttempts (this (mark i CLOSED s1)) = 0%nat) as Hn0
    by (by destruct s1 as [[] ?]).
  assert (config (this (mark i CLOSED s1)) = config (this s)) as Hc0
    by (by destruct s1 as [[] ?]).
  assert (shouldReconnect (this (mark i CLOSED s1)) = true) as Hag0
    by (by destruct s1 as [[] ?]).
  assert (next_timer (world (mark i CLOSED s1)) = next_timer (world s1)) as Hnx
    by (by destruct s1 as [? []]).
  destruct (handleClose_schedules (mark i CLOSED s1)) as (Hn2 & Hrt & _ & Htm & _).
  - exact Hag0.
  - by rewrite Hc0.
  - rewrite Hn0, Hc0. simpl. lia.
  - rewrite Hn0, Hc0, Hnx in *.
    split; [done|]. split; [done|]. split; [done|].
    eexists. rewrite Htm. do 2 f_equal.
    unfold reconnectDelay, Math_pow. simpl. by rewrite Z.mul_1_r.
Qed.

Lemma X20_open_resets_backoff_witness :
  let s := default fresh
             (run [CallConnect; SocketCloses 0; TimerFires 1; SocketCloses 1; TimerFires 2]
                fresh) in
  let s1 := default fresh (dispatch (SocketOpens 2) s) in
  let s2 := default fresh (dispatch (SocketCloses 2) s1) in
  reconnectAttempts (this s) = 2%nat
  /\ reconnectAttempts (this s2) = 1%nat
  /\ exists rest, timers (world s2) = rest ++ [Timeout (next_timer (world s1)) 1000].
Proof.
  split; [vm_compute; reflexivity|].
  destruct (X20_open_resets_backoff
              (default fresh
                 (run [CallConnect; SocketCloses 0; TimerFires 1; SocketCloses 1; TimerFires 2]
                    fresh))
              (default fresh (dispatch (SocketOpens 2)
                 (default fresh
                    (run [CallConnect; SocketCloses 0; TimerFires 1; SocketCloses 1;
                          TimerFires 2] fresh))))
              (default fresh (dispatch (SocketCloses 2)
                 (default fresh (dispatch (SocketOpens 2)
                    (default fresh
                       (run [CallConnect; SocketCloses 0; TimerFires 1; SocketCloses 1;
                             TimerFires 2] fresh))))))
              2%nat) as (_ & H2 & _ & H3).
  - vm_compute. reflexivity.
  - vm_compute. reflexivity.
  - vm_compute. reflexivity.
  - vm_compute. reflexivity.
  - vm_compute. reflexivity.
  - split; [exact H2 | exact H3].
Defined.




(** *** Handlers *)


(** *** The exported connect function *)





(** *** No transport without a credential *)

Lemma refreshed_again (item : StorageItem) (tok : JsVal) :
  fst (refreshed item (fst (refreshed item tok))) = fst (refreshed item tok).
Proof.
  unfold refreshed. destruct item as [| |user]; try done.
  by destruct (get_prop "access_token" user), (get_prop "token" user).
Qed.

Lemma bare_same (s s' : Sys) :
  token (this s') = token (this s) -> storage (world s') = storage (world s) ->
  credential s' = credential s.
Proof. unfold credential. by intros -> ->. Qed.

Lemma bare_skeleton (s s' : Sys) :
  skeleton s' = skeleton s ->
  credential s' = credential s
  /\ length (sockets (world s')) = length (sockets (world s)).
Proof.
  intros Hk. injection Hk as _ _ _ _ _ _ _ _ Htok Hsocks _ _ Hsto.
  split; [by apply bare_same|].
  apply (f_equal length) in Hsocks. by rewrite !length_fmap in Hsocks.
Qed.

Lemma bare_handleConnectionError (error : Exn) (s : Sys) :
  let s' := exec (handleConnectionError error) s in
  token (this s') = token (this s) /\ storage (world s') = storage (world s)
  /\ sockets (world s') = sockets (world s).
Proof.
  open_state s. cbv zeta. run_method.
  destruct (again && enabled cfg); simpl;
    [destruct (maxAttempts cfg <=? Z.of_nat n); simpl|]; done.
Qed.

Lemma bare_handleClose (s : Sys) :
  let s' := exec handleClose s in
  token (this s') = token (this s) /\ storage (world s') = storage (world s)
  /\ sockets (world s') = sockets (world s).
Proof.
  open_state s. cbv zeta. destruct hb as [h|]; run_method;
    (destruct (again && enabled cfg); simpl;
     [destruct (maxAttempts cfg <=? Z.of_nat n); simpl|]); done.
Qed.

Lemma bare_disconnect (s : Sys) :
  let s' := exec disconnect s in
  token (this s') = token (this s) /\ storage (world s') = storage (world s)
  /\ length (sockets (world s')) = length (sockets (world s)).
Proof.
  split; [|split; [|apply disconnect_sockets]];
    open_state s; destruct rt as [r|], hb as [h|], sock as [i|]; run_disconnect; done.
Qed.

Lemma bare_connect (s : Sys) :
  truthy_val (credential s) = false ->
  credential (exec connect s) = credential s
  /\ sockets (world (exec connect s)) = sockets (world s).
Proof.
  intros Hbare.
  destruct (isConnecting (this s) || isConnected (this s)) eqn:Hbusy.
  - unfold exec. rewrite (connect_busy s Hbusy). by destruct s as [[] []].
  - apply orb_false_elim in Hbusy as [Hing Hed].
    rewrite (connect_idle_eq s Hing Hed).
    destruct (getToken_exec (with_this (set_isConnecting true) s)) as [v Hv].
    unfold exec at 2 4. rewrite Hv. cbn [snd].
    set (s1 := {| this := _; world := _ |}).
    assert (token (this s1) = credential s /\ storage (world s1) = storage (world s)
            /\ sockets (world s1) = sockets (world s)) as (Ht1 & Hs1 & Hk1)
      by (by destruct s as [[] []]).
    unfold exec. rewrite (open_transport_fails s1) by (by rewrite Ht1).
    match goal with |- context [handleConnectionError ?e ?st] =>
      destruct (bare_handleConnectionError e st) as (Ht2 & Hs2 & Hk2); set (s2 := st) in * end.
    unfold exec in Ht2, Hs2, Hk2. unfold credential at 1. rewrite Ht2, Hs2, Hk2.
    assert (token (this s2) = token (this s1) /\ storage (world s2) = storage (world s1)
            /\ sockets (world s2) = sockets (world s1)) as (-> & -> & ->)
      by (by destruct s1 as [[] []]).
    rewrite Ht1, Hs1, Hk1. split; [|done]. unfold credential. apply refreshed_again.
Qed.

Lemma bare_dispatch (e : Event) (s s' : Sys) :
  keeps_storage e -> truthy_val (credential s) = false -> dispatch e s = Some s' ->
  credential s' = credential s
  /\ length (sockets (world s')) = length (sockets (world s)).
Proof.
  intros Hkeep Hbare Hd.
  assert (forall i st, credential (mark i st s) = credential s
                       /\ length (sockets (world (mark i st s))) = length (sockets (world s)))
    as Hmark.
  { intros i st. destruct s as [[] []]. split; [done|]. simpl. by rewrite length_alter. }
  destruct e; simpl in Hkeep; try done; unfold dispatch in Hd.
  - destruct (sockets (world s) !! i) as [k|]; simpl in Hd; [|done].
    destruct (readyState k), (wired k); try done. injection Hd as <-.
    destruct (Hmark i OPEN) as [<- <-].
    pose proof (handleOpen_skeleton (mark i OPEN s)) as Hk.
    unfold skeleton, skeleton_opened in Hk. simpl in Hk.
    injection Hk as _ _ _ _ _ _ _ _ Htok Hsocks _ _ Hsto.
    split; [by apply bare_same|].
    apply (f_equal length) in Hsocks. by rewrite !length_fmap in Hsocks.
  - destruct (sockets (world s) !! i) as [k|]; simpl in Hd; [|done].
    destruct (readyState k), (wired k); try done. injection Hd as <-.
    apply bare_skeleton, handleMessage_skeleton.
  - destruct (sockets (world s) !! i) as [k|]; simpl in Hd; [|done].
    destruct (readyState k), (wired k); try done; injection Hd as <-;
      rewrite handleError_eq; by destruct s as [[] []].
  - destruct (sockets (world s) !! i) as [k|]; simpl in Hd; [|done].
    destruct (Hmark i CLOSED) as [<- <-].
    destruct (readyState k), (wired k); try done; injection Hd as <-;
      destruct (bare_handleClose (mark i CLOSED s)) as (Ht & Hs & Hk);
      (split; [by apply bare_same | by rewrite Hk]).
  - destruct (find_timer id (world s)) as [t|]; simpl in Hd; [|done].
    destruct t; injection Hd as <-.
    + assert (credential (exec (clearTimer id) s) = credential s
              /\ sockets (world (exec (clearTimer id) s)) = sockets (world s)) as [Hc Hk]
        by (by destruct s as [[] []]).
      destruct (bare_connect (exec (clearTimer id) s)) as [-> ->]; [by rewrite Hc|].
      by rewrite Hc, Hk.
    + apply bare_skeleton, heartbeat_skeleton.
  - injection Hd as <-. destruct (bare_connect s Hbare) as [-> ->]. done.
  - injection Hd as <-. destruct (bare_disconnect s) as (Ht & Hs & Hk).
    split; [by apply bare_same | done].
  - injection Hd as <-. rewrite reconnect_eq.
    destruct (bare_disconnect s) as (Ht & Hs & Hk).
    set (s1 := with_this _ (with_this _ (exec disconnect s))).
    assert (credential s1 = credential s
            /\ length (sockets (world s1)) = length (sockets (world s))) as [Hc1 Hk1].
    { unfold s1. destruct (exec disconnect s) as [[] []]. simpl in *.
      split; [by apply bare_same | done]. }
    destruct (bare_connect s1) as [-> ->]; [by rewrite Hc1|]. done.
  - injection Hd as <-. destruct (send_skeleton message s) as (b & _ & Hk & _).
    by apply bare_skeleton.
  - injection Hd as <-. by destruct s as [[] []].
  - injection Hd as <-. by destruct s as [[] []].
Qed.

(** X24: A client without a credential (no token stored and none kept from
    before) never opens a transport: as long as the stored user does not
    change, no event (timer, call of connect() or reconnect(), socket event)
    adds a socket, whatever the reconnect logic schedules. *)
Theorem X24_no_transport_without_credential :
  forall (events : list Event) (s s' : Sys),
    truthy_val (credential s) = false ->
    Forall keeps_storage events ->
    run events s = Some s' ->
    length (sockets (world s')) = length (sockets (world s))
    /\ truthy_val (credential s') = false.
Proof.
  induction events as [|e events IH]; intros s s' Hbare Hall Hrun; simpl in Hrun.
  - by injection Hrun as <-.
  - inversion Hall as [|? ? He Hrest]; subst.
    destruct (dispatch e s) as [s1|] eqn:Hd; simpl in Hrun; [|done].
    destruct (bare_dispatch e s s1 He Hbare Hd) as [Hc Hk].
    destruct (IH s1 s') as [Hk' Hc']; [by rewrite Hc | done | done |].
    split; [congruence | done].
Qed.

Lemma X24_no_transport_without_credential_witness :
  let s := connectWebSocket "42" ∅ no_config (page NoItem) in
  let s' := default s (run [TimerFires 1; CallReconnect; TimerFires 3; CallConnect] s) in
  length (sockets (world s')) = length (sockets (world s))
  /\ truthy_val (credential s') = false.
Proof.
  apply (X24_no_transport_without_credential
           [TimerFires 1; CallReconnect; TimerFires 3; CallConnect]).
  - reflexivity.
  - repeat constructor.
  - vm_compute. reflexivity.
Defined.

End StreamExtras.

(** * Properties of the client cache, continued *)

Module CacheTheory.
Import WS Api Scene StreamTheory StreamExtras.

Lemma disconnect_world (c : Client) (w : World) :
  world (exec disconnect {| this := c; world := w |}) = teardown c w.
Proof.
  pose proof (disconnect_clears_recorded {| this := c; world := w |}) as Htm.
  destruct c as [did hs cfg sock ing ed again n rt hb q tok].
  destruct w as [sto sec hst socks tms nxt o].
  unfold teardown. simpl in *. rewrite <- Htm.
  destruct rt as [r|], hb as [h|], sock as [i|]; run_disconnect; reflexivity.
Qed.

Lemma lookup_alter_cases {A} (f : A -> A) (l : list A) (i j : nat) (k : A) :
  alter f i l !! j = Some k ->
  (j = i /\ exists k0, l !! i = Some k0 /\ k = f k0) \/ (j <> i /\ l !! j = Some k).
Proof.
  destruct (decide (j = i)) as [->|Hne].
  - rewrite list_lookup_alter_eq. destruct (l !! i) as [k0|]; [|done].
    intros [= <-]. left. eauto.
  - rewrite list_lookup_alter_ne by done. auto.
Qed.

Lemma foldl_foldr_reverse {A B} (f : B -> A -> B) (b : B) (l : list A) :
  foldl f b l = foldr (fun x y => f y x) b (reverse l).
Proof.
  revert b. induction l as [|x l IH]; intros b; [done|].
  simpl. by rewrite IH, reverse_cons, foldr_app.
Qed.

Lemma closing_not_live (k : Socket) : live (readyState (closing k)) = false.
Proof. unfold closing. by destruct (readyState k) eqn:E; simpl; rewrite ?E. Qed.

Lemma closing_closing (k : Socket) : closing (closing k) = closing k.
Proof. unfold closing. by destruct k as [u [] wd st]. Qed.

Lemma filter_comm {A} (f g : A -> bool) (l : list A) :
  List.filter f (List.filter g l) = List.filter g (List.filter f l).
Proof.
  induction l as [|x l IH]; simpl; [done|].
  destruct (g x) eqn:Hg, (f x) eqn:Hf; simpl; rewrite ?Hg, ?Hf, ?IH; done.
Qed.

(** Disconnecting two clients gives the same page in either order. *)
Lemma teardown_comm (c1 c2 : Client) (w : World) :
  teardown c1 (teardown c2 w) = teardown c2 (teardown c1 w).
Proof.
  destruct w as [sto sec hst socks tms nxt o]. unfold teardown, set_sockets, set_timers.
  simpl. f_equal.
  - destruct (ws c1) as [i|], (ws c2) as [j|]; try done.
    destruct (decide (i = j)) as [->|Hne]; [done|].
    by apply list_alter_alter_ne.
  - apply filter_comm.
Qed.







(** X27: disconnectWebSocket disconnects the cached client and forgets it: its
    recorded timers are cleared and its socket is closing or closed, no
    other timer or socket is touched, the key is free again, and a second
    call changes nothing. For a key that is not cached it does nothing. *)
Theorem X27_disconnectWebSocket :
  forall (id : string) (r : Registry.Cache),
    let r' := disconnectWebSocket id r in
    Registry.wsClients r' = delete id (Registry.wsClients r)
    /\ disconnectWebSocket id r' = r'
    /\ match Registry.wsClients r !! id with
       | None => r' = r
       | Some c =>
           Registry.env r' = teardown c (Registry.env r)
           /\ (forall t, t ∈ timers (Registry.env r') <->
                         t ∈ timers (Registry.env r) /\ recorded c t = false)
           /\ (forall i k, ws c = Some i -> sockets (Registry.env r') !! i = Some k ->
                           live (readyState k) = false)
           /\ (forall j, ws c <> Some j ->
                         sockets (Registry.env r') !! j = sockets (Registry.env r) !! j)
       end.
Proof.
  intros id r r'. unfold r', disconnectWebSocket.
  destruct (Registry.wsClients r !! id) as [c|] eqn:Hc.
  - cbn [Registry.wsClients Registry.env]. rewrite lookup_delete_eq.
    split; [done|]. split; [done|]. rewrite disconnect_world.
    split; [done|]. split; [|split].
    + intros t. unfold teardown. destruct (Registry.env r). simpl.
      rewrite !list_elem_of_In, List.filter_In, negb_true_iff. done.
    + intros i k Hi. unfold teardown. rewrite Hi. destruct (Registry.env r). simpl.
      intros Hk. apply lookup_alter_cases in Hk as [[_ (k0 & _ & ->)]|[Hne _]];
        [apply closing_not_live | done].
    + intros j Hj. unfold teardown. destruct (Registry.env r). simpl.
      destruct (ws c) as [i|]; [|done].
      apply list_lookup_alter_ne. congruence.
  - rewrite Hc. split; [|done]. by rewrite delete_id.
Qed.

(** X28: disconnectAllWebSockets empties the cache and disconnects every cached
    client, in whatever order the clients are visited: afterwards no timer
    recorded by a cached client is pending, the socket of every cached
    client is closing or closed, and the other timers and sockets are as
    before. *)
Theorem X28_disconnectAllWebSockets :
  forall (r : Registry.Cache),
    let r' := disconnectAllWebSockets r in
    Registry.wsClients r' = ∅
    /\ (forall order, order ≡ₚ map_to_list (Registry.wsClients r) ->
          Registry.env r' = foldl (fun w p => teardown (snd p) w) (Registry.env r) order)
    /\ (forall t, t ∈ timers (Registry.env r') <->
                  t ∈ timers (Registry.env r)
                  /\ forall id c, Registry.wsClients r !! id = Some c -> recorded c t = false)
    /\ (forall id c i k, Registry.wsClients r !! id = Some c -> ws c = Some i ->
                         sockets (Registry.env r') !! i = Some k ->
                         live (readyState k) = false)
    /\ (forall j, (forall id c, Registry.wsClients r !! id = Some c -> ws c <> Some j) ->
                  sockets (Registry.env r') !! j = sockets (Registry.env r) !! j).
Proof.
  intros r r'. unfold r', disconnectAllWebSockets. cbn [Registry.wsClients Registry.env].
  split; [done|].
  assert (forall (m : gmap string Client) (w0 : World),
            map_fold (fun _ client w => world (exec disconnect {| this := client; world := w |}))
              w0 m
            = map_fold (fun _ client w => teardown client w) w0 m) as Hfold.
  { intros m w0. rewrite !map_fold_foldr. induction (map_to_list m) as [|[k c] l IH]; [done|].
    simpl. by rewrite IH, disconnect_world. }
  rewrite Hfold. split.
  { intros order Hperm. rewrite map_fold_foldr, foldl_foldr_reverse.
    assert (map_to_list (Registry.wsClients r) ≡ₚ reverse order) as Hperm'
      by (by rewrite reverse_Permutation).
    revert Hperm'. generalize (reverse order). generalize (map_to_list (Registry.wsClients r)).
    intros l1 l2 Hperm'.
    assert (forall l : list (string * Client),
              foldr (uncurry (fun (_ : string) client w => teardown client w))
                (Registry.env r) l
              = foldr (fun p w => teardown (snd p) w) (Registry.env r) l) as ->.
    { intros l. induction l as [|[k c] l IH]; [done|]. simpl. by rewrite IH. }
    revert l1 l2 Hperm'.
    apply (foldr_permutation_proper (=) (fun (p : string * Client) w => teardown (snd p) w)).
    - intros p ? ? ->. done.
    - intros p1 p2 w. apply teardown_comm. }
  set (P := fun (w : World) (m : gmap string Client) =>
              (forall t, t ∈ timers w <->
                 t ∈ timers (Registry.env r)
                 /\ forall (id : string) c, m !! id = Some c -> recorded c t = false)
              /\ (forall (id : string) c (i : nat) k, m !! id = Some c -> ws c = Some i ->
                     sockets w !! i = Some k -> live (readyState k) = false)
              /\ (forall j : nat,
                     (forall (id : string) c, m !! id = Some c -> ws c <> Some j) ->
                     sockets w !! j = sockets (Registry.env r) !! j)
              /\ (forall (j : nat) k, sockets w !! j = Some k ->
                     live (readyState k) = true ->
                     sockets (Registry.env r) !! j = Some k)).
  assert (P (map_fold (fun (_ : string) client w => teardown client w)
               (Registry.env r) (Registry.wsClients r)) (Registry.wsClients r))
    as (H1 & H2 & H3 & _); [|exact (conj H1 (conj H2 H3))].
  apply (map_fold_weak_ind P); unfold P; clear P.
  - split; [|split; [|split]]; try done.
    intros t. split; [intros H; split; [done|]; intros id c Hc; by rewrite lookup_empty in Hc|].
    by intros [H _].
  - intros id c m w Hnone (Htm & Hclosed & Hsame & Hlive).
    split; [|split; [|split]].
    + intros t. unfold teardown. destruct w as [sto sec hst socks tms nxt o]. simpl in *.
      rewrite list_elem_of_In, List.filter_In, negb_true_iff, <- list_elem_of_In, Htm.
      split.
      * intros [[Hin Hall] Hrec]. split; [done|]. intros id' c' Hc'.
        destruct (decide (id' = id)) as [->|Hne].
        -- rewrite lookup_insert_eq in Hc'. by injection Hc' as <-.
        -- rewrite lookup_insert_ne in Hc' by done. by eapply Hall.
      * intros [Hin Hall]. split; [split; [done|]|].
        -- intros id' c' Hc'. apply (Hall id' c').
           rewrite lookup_insert_ne; [done|]. intros ->. congruence.
        -- apply (Hall id c). by rewrite lookup_insert_eq.
    + intros id' c' i k Hc' Hi Hk.
      destruct (live (readyState k)) eqn:Hl; [|done]. exfalso.
      unfold teardown in Hk. destruct w as [sto sec hst socks tms nxt o]. simpl in *.
      assert (socks !! i = Some k /\ ws c <> Some i) as [Hk0 Hne].
      { destruct (ws c) as [i0|]; [|done].
        apply lookup_alter_cases in Hk as [[-> (k0 & _ & ->)]|[Hne Hk]].
        - by rewrite closing_not_live in Hl.
        - split; [done|congruence]. }
      destruct (decide (id' = id)) as [->|Hne'].
      * rewrite lookup_insert_eq in Hc'. injection Hc' as <-. congruence.
      * rewrite lookup_insert_ne in Hc' by done.
        specialize (Hclosed id' c' i k Hc' Hi Hk0). congruence.
    + intros j Hj. unfold teardown. destruct w as [sto sec hst socks tms nxt o]. simpl in *.
      assert (ws c <> Some j) as Hcj by (apply (Hj id c); by rewrite lookup_insert_eq).
      rewrite <- Hsame.
      * destruct (ws c) as [i|]; [|done]. apply list_lookup_alter_ne. congruence.
      * intros id' c' Hc'. apply (Hj id' c').
        rewrite lookup_insert_ne; [done|]. intros ->. congruence.
    + intros j k Hk Hl. apply Hlive; [|done].
      unfold teardown in Hk. destruct w as [sto sec hst socks tms nxt o]. simpl in *.
      destruct (ws c) as [i|]; [|done].
      apply lookup_alter_cases in Hk as [[-> (k0 & _ & ->)]|[Hne Hk]]; [|done].
      by rewrite closing_not_live in Hl.
Qed.

End CacheTheory.
